(** * A character-level LSTM language model experiment (experiments/lm_rnn.py)

    Shallow embedding of the experiment script: the module-level corpus
    split and vocabulary, the windowed dataset, the batch iterator, the
    sequence model seen through the operations of the tensor framework, the
    trainer with its metrics log and persisted artifacts, and the sampler.

    Conventions.
    - A Python [str] is a list of Unicode code points ([N]); [sorted] orders
      characters by code point.
    - An exception is a value of [exn]; code that may raise lives in the
      [result] monad.
    - Tensor entries of floating type are idealised as exact rationals in
      lowest terms ([Qc]); where the script divides by a number that may be
      zero the quotient is a [pyfloat], with its infinities and NaN.
    - The internals of the tensor framework (embedding table, recurrent cell,
      linear layer, softmax, optimiser, random number generator) are the
      fields of a [Framework] record.
    - Objects that the script mutates (the trainer, the predictor and their
      model with its training mode) and the world around it (the random
      number generator and the file system, with its directories) are the
      state of a [prog]. *)

From Stdlib Require Import ZArith QArith Qcanon Lia.
From stdpp Require Import base list gmap sorting numbers strings.

Local Open Scope nat_scope.

(** ** Python exceptions and the error monad *)

Inductive exn : Type :=
  | KeyError (c : N)
  | IndexError
  | ValueError
  | ZeroDivisionError
  | RuntimeError
  | FileNotFoundError
  | FileExistsError
  | NotADirectoryError
  | IsADirectoryError.

Inductive result (A : Type) : Type :=
  | Return (a : A)
  | Raise (e : exn).
Arguments Return {A} a.
Arguments Raise {A} e.

#[global] Instance result_ret : MRet result := @Return.
#[global] Instance result_bind : MBind result := λ A B k m,
  match m with
  | Return a => k a
  | Raise e => Raise e
  end.

(** [for x in l: s = body x s], stopping at the first exception. *)
Fixpoint for_ {A S : Type} (l : list A) (s : S) (body : A → S → result S)
  : result S :=
  match l with
  | [] => Return s
  | x :: l' => s' ← body x s ; for_ l' s' body
  end.

(** A list comprehension [[f x for x in l]] whose element expression may
    raise: elements are evaluated left to right. *)
Fixpoint comprehension {A B : Type} (f : A → result B) (l : list A)
  : result (list B) :=
  match l with
  | [] => Return []
  | x :: l' => y ← f x ; ys ← comprehension f l' ; Return (y :: ys)
  end.

(** ** Python built-ins *)

(** [range(0, stop, step)] for [step >= 0]: the loop that yields [i] while
    [i < stop]; [stop] may be negative.  A zero step raises [ValueError]. *)
Fixpoint range_loop (fuel i : nat) (stop : Z) (step : nat) : list nat :=
  match fuel with
  | O => []
  | S fuel' =>
      if (Z.of_nat i <? stop)%Z
      then i :: range_loop fuel' (i + step) stop step
      else []
  end.

Definition range (stop : Z) (step : nat) : result (list nat) :=
  if step =? 0 then Raise ValueError
  else Return (range_loop (Z.to_nat stop) 0 stop step).

(** [s[i:j]] for [0 <= i <= j]; the slice is clipped at the end of [s]. *)
Definition slice {A : Type} (s : list A) (i j : nat) : list A :=
  take (j - i) (drop i s).

(** [s[:-1]] and [s[1:]]. *)
Definition all_but_last {A : Type} (s : list A) : list A :=
  take (length s - 1) s.
Definition all_but_first {A : Type} (s : list A) : list A :=
  drop 1 s.

(** [enumerate(l)]. *)
Definition enumerate {A : Type} (l : list A) : list (nat * A) :=
  imap pair l.

(** [d[k]] on a dict with character keys. *)
Definition getitem (d : gmap N nat) (k : N) : result nat :=
  match d !! k with
  | Some v => Return v
  | None => Raise (KeyError k)
  end.

(** [l[i]] on a list, for [i >= 0]. *)
Definition list_getitem {A : Type} (l : list A) (i : nat) : result A :=
  match l !! i with
  | Some v => Return v
  | None => Raise IndexError
  end.

(** ** Module level: the corpus split and the vocabulary (lines 11-23) *)

Definition train_size (text : list N) : nat := length text * 7 / 10.
Definition train_set (text : list N) : list N := take (train_size text) text.
Definition val_set (text : list N) : list N := drop (train_size text) text.

(** [sorted(set(train_set))] *)
Definition vocab (text : list N) : list N :=
  merge_sort N.le (elements (list_to_set (train_set text) : gset N)).
Definition vocab_size (text : list N) : nat := length (vocab text).

(** [{char: idx for idx, char in enumerate(vocab)}]: entries are stored in
    order, a later entry replacing an earlier one with the same key. *)
Definition dict_of_enumerate (v : list N) : gmap N nat :=
  fold_left (fun d p => <[p.2 := p.1]> d) (enumerate v) ∅.
Definition char2idx (text : list N) : gmap N nat :=
  dict_of_enumerate (vocab text).

(** ** LMDataset (lines 26-43) *)

Record LMDataset : Type := mkLMDataset {
  xs : list (list nat);
  ys : list (list nat)
}.

Definition LMDataset_body (c2i : gmap N nat) (dataset : list N)
    (max_length i : nat) (d : LMDataset) : result LMDataset :=
  let txt := slice dataset i (i + max_length + 1) in
  indices ← comprehension (getitem c2i) txt ;
  Return (mkLMDataset (xs d ++ [all_but_last indices])
                      (ys d ++ [all_but_first indices])).

Definition LMDataset_init (c2i : gmap N nat) (dataset : list N)
    (max_length : nat) : result LMDataset :=
  starts ← range (Z.of_nat (length dataset) - Z.of_nat max_length - 2)
                 max_length ;
  for_ starts (mkLMDataset [] []) (LMDataset_body c2i dataset max_length).

Definition LMDataset_len (d : LMDataset) : nat := length (xs d).

Definition LMDataset_getitem (d : LMDataset) (idx : nat)
  : result (list nat * list nat) :=
  x ← list_getitem (xs d) idx ;
  y ← list_getitem (ys d) idx ;
  Return (x, y).

(** ** DataLoader (torch.utils.data) over an LMDataset *)

(** The batch sampler: consecutive groups of [bs] items, the last one
    possibly shorter ([drop_last] is off). *)
Fixpoint batched {A : Type} (fuel bs : nat) (l : list A) : list (list A) :=
  match fuel with
  | O => []
  | S fuel' =>
      match l with
      | [] => []
      | _ :: _ => take bs l :: batched fuel' bs (drop bs l)
      end
  end.

(** ** Tensors *)

(** Index and value tensors of the two ranks the script uses: a sequence
    [[L]] and a batch of sequences [[N, L]].  The innermost dimension of a
    tensor of vectors (the [dim=-1] of the script) is the element type. *)
Inductive tensor (A : Type) : Type :=
  | T1 (v : list A)
  | T2 (m : list (list A)).
Arguments T1 {A} v.
Arguments T2 {A} m.

Definition tmap {A B : Type} (f : A → B) (t : tensor A) : tensor B :=
  match t with
  | T1 v => T1 (map f v)
  | T2 m => T2 (map (map f) m)
  end.

(** A position-wise operation that may raise. *)
Definition tmapM {A B : Type} (f : A → result B) (t : tensor A)
  : result (tensor B) :=
  match t with
  | T1 v => r ← comprehension f v ; Return (T1 r)
  | T2 m => r ← comprehension (comprehension f) m ; Return (T2 r)
  end.

(** All positions of a tensor, row by row. *)
Definition positions {A : Type} (t : tensor A) : list A :=
  match t with
  | T1 v => v
  | T2 m => concat m
  end.

(** Element-wise combination of two lists of the same length. *)
Fixpoint zip_same {A B C : Type} (f : A → B → C) (l : list A) (k : list B)
  : result (list C) :=
  match l, k with
  | [], [] => Return []
  | a :: l', b :: k' => r ← zip_same f l' k' ; Return (f a b :: r)
  | _, _ => Raise RuntimeError
  end.

Fixpoint zip_rows {A B C : Type} (f : A → B → C) (l : list (list A))
    (k : list (list B)) : result (list (list C)) :=
  match l, k with
  | [], [] => Return []
  | a :: l', b :: k' =>
      r ← zip_same f a b ; rs ← zip_rows f l' k' ; Return (r :: rs)
  | _, _ => Raise RuntimeError
  end.

(** Element-wise operation on two tensors of the same shape; the framework
    raises on shapes that do not match. *)
Definition tzip {A B C : Type} (f : A → B → C) (t : tensor A) (u : tensor B)
  : result (tensor C) :=
  match t, u with
  | T1 v, T1 w => r ← zip_same f v w ; Return (T1 r)
  | T2 m, T2 n => r ← zip_rows f m n ; Return (T2 r)
  | _, _ => Raise RuntimeError
  end.

(** [t.sum()] on rational, integer (0/1) and boolean tensors. *)
Definition Qcsum (l : list Qc) : Qc := foldr Qcplus 0%Qc l.
Definition tsum (t : tensor Qc) : Qc := Qcsum (positions t).
Definition count_true (l : list bool) : nat := length (filter (λ b, b = true) l).
Definition tcount (t : tensor bool) : Z := Z.of_nat (count_true (positions t)).

(** [t.gt(0.0)] on an index tensor. *)
Definition gt0 (t : tensor nat) : tensor bool := tmap (λ i, 0 <? i) t.

(** [float * bool]: the boolean is promoted to 1.0 or 0.0. *)
Definition mul_mask (x : Qc) (b : bool) : Qc :=
  (x * (if b then 1 else 0))%Qc.

(** [t[-1]] on a tensor of vectors, as the rows of the result: a sequence
    [[L, V]] gives its last vector, a batch [[N, L, V]] the vectors of its
    last sequence. *)
Definition tlast {A : Type} (t : tensor A) : result (list A) :=
  match t with
  | T1 v =>
      match list.last v with
      | Some a => Return [a]
      | None => Raise IndexError
      end
  | T2 m =>
      match list.last m with
      | Some r => Return r
      | None => Raise IndexError
      end
  end.

(** [argmax(dim=-1)] of a vector: the index of the first maximal entry. *)
Fixpoint argmax_from (best : nat) (bestv : Qc) (i : nat) (l : list Qc) : nat :=
  match l with
  | [] => best
  | x :: l' =>
      if Qclt_le_dec bestv x then argmax_from i x (S i) l'
      else argmax_from best bestv (S i) l'
  end.
Definition argmax (l : list Qc) : nat :=
  match l with
  | [] => 0
  | x :: l' => argmax_from 0 x 1 l'
  end.

(** Floating-point results that leave the tensor world through [.item()].
    A quotient by a zero tensor does not raise: it is an infinity or NaN. *)
Inductive pyfloat : Type :=
  | Finite (q : Qc)
  | PosInf
  | NegInf
  | NaN.

Definition tensor_div (x : Qc) (n : Z) : pyfloat :=
  if (n =? 0)%Z then
    match (x ?= 0)%Qc with
    | Eq => NaN
    | Gt => PosInf
    | Lt => NegInf
    end
  else Finite (x / Q2Qc (inject_Z n))%Qc.

(** [x / t] between two floats: a quotient by zero is an infinity or NaN. *)
Definition float_div (x t : Qc) : pyfloat :=
  if decide (t = 0%Qc) then
    match (x ?= 0)%Qc with
    | Eq => NaN
    | Gt => PosInf
    | Lt => NegInf
    end
  else Finite (x / t)%Qc.

(** The entries of a row when all of them are finite. *)
Fixpoint finite_row (l : list pyfloat) : option (list Qc) :=
  match l with
  | [] => Some []
  | Finite q :: l' => (q ::.) <$> finite_row l'
  | _ :: _ => None
  end.

(** An accumulator that starts as the Python integer [0] and becomes a
    0-dimensional tensor at the first [+=] of a tensor. *)
Inductive accum (A : Type) : Type :=
  | PyZero
  | Tensor0 (a : A).
Arguments PyZero {A}.
Arguments Tensor0 {A} a.

Definition accum_add {A : Type} (add : A → A → A) (acc : accum A) (t : A)
  : accum A :=
  match acc with
  | PyZero => Tensor0 t
  | Tensor0 a => Tensor0 (add a t)
  end.

(** [(num / den).item()]: between two Python integers [0] the division
    raises; as soon as one side is a tensor it is a tensor division. *)
Definition accum_div (num : accum Qc) (den : accum Z) : result pyfloat :=
  match num, den with
  | PyZero, PyZero => Raise ZeroDivisionError
  | PyZero, Tensor0 n => Return (tensor_div 0 n)
  | Tensor0 x, PyZero => Return (tensor_div x 0)
  | Tensor0 x, Tensor0 n => Return (tensor_div x n)
  end.

(** ** The tensor framework (torch), as far as the script relies on it *)

(** The four sizes a [LstmLM] is built with. *)
Record dims : Type := mkDims {
  d_num_classes : nat;
  d_num_embeddings : nat;
  d_embedding_dim : nat;
  d_hidden_size : nat
}.

#[global] Instance dims_eq_dec : EqDecision dims.
Proof. solve_decision. Defined.

Record Framework : Type := mkFramework {
  (** state of the global random number generator *)
  rng : Type;
  (** a state dict: the parameter tensors of one [LstmLM] *)
  params : Type;
  (** the (hidden, cell) state of the recurrent layer for one sequence *)
  lstm_state : Type;
  (** state of the optimiser *)
  opt_state : Type;
  (** shapes of the tensors of a state dict *)
  params_dims : params → dims;
  (** fresh, randomly initialised parameters of the given shapes *)
  init_params : dims → rng → params * rng;
  (** row [i] of the embedding matrix *)
  embedding_row : params → nat → list Qc;
  (** the state the recurrent layer starts from when it is given none *)
  zero_state : params → lstm_state;
  (** one step of the recurrent cell: output and next state *)
  lstm_cell : params → list Qc → lstm_state → list Qc * lstm_state;
  (** the linear layer: logits of one position *)
  linear : params → list Qc → list Qc;
  softmax : list Qc → list Qc;
  log_softmax : list Qc → list Qc;
  (** one draw from a distribution *)
  multinomial : list Qc → rng → nat * rng;
  (** a random permutation of [0 .. n-1] *)
  randperm : nat → rng → list nat * rng;
  (** back-propagation of a batch loss followed by one optimiser step *)
  optimizer_step :
    opt_state → params → tensor nat → tensor nat → opt_state * params
}.

(** What the script takes for granted of the framework. *)
Record FrameworkLaws (fw : Framework) : Prop := mkFrameworkLaws {
  init_params_dims : ∀ d g, params_dims fw (init_params fw d g).1 = d;
  linear_length : ∀ p h,
    length (linear fw p h) = d_num_classes (params_dims fw p);
  softmax_length : ∀ l, length (softmax fw l) = length l;
  log_softmax_length : ∀ l, length (log_softmax fw l) = length l;
  multinomial_lt : ∀ d g, d ≠ [] → (multinomial fw d g).1 < length d;
  randperm_perm : ∀ n g, (randperm fw n g).1 ≡ₚ seq 0 n;
  optimizer_step_dims : ∀ o p x y,
    params_dims fw (optimizer_step fw o p x y).2 = params_dims fw p
}.

(** ** LstmLM (lines 56-95) *)

Record LstmLM (fw : Framework) : Type := mkLstmLM {
  num_classes : nat;
  num_embeddings : nat;
  embedding_dim : nat;
  hidden_size : nat;
  (** the mode of the module: [True] from its creation and after
      [train()], [False] after [eval()] *)
  training : bool;
  weights : params fw
}.
Arguments mkLstmLM {fw}.
Arguments num_classes {fw}.
Arguments num_embeddings {fw}.
Arguments embedding_dim {fw}.
Arguments hidden_size {fw}.
Arguments training {fw}.
Arguments weights {fw}.

(** [model.train()] and [model.eval()] set the mode and nothing else. *)
Definition LstmLM_set_mode {fw : Framework} (mode : bool) (m : LstmLM fw)
  : LstmLM fw :=
  mkLstmLM (num_classes m) (num_embeddings m) (embedding_dim m)
           (hidden_size m) mode (weights m).
Definition LstmLM_train {fw : Framework} : LstmLM fw → LstmLM fw :=
  LstmLM_set_mode true.
Definition LstmLM_eval {fw : Framework} : LstmLM fw → LstmLM fw :=
  LstmLM_set_mode false.

(** The parameters after an optimiser step or a loaded state dict; the
    sizes and the mode stay. *)
Definition LstmLM_set_weights {fw : Framework} (m : LstmLM fw) (p : params fw)
  : LstmLM fw :=
  mkLstmLM (num_classes m) (num_embeddings m) (embedding_dim m)
           (hidden_size m) (training m) p.

Definition LstmLM_dims {fw : Framework} (m : LstmLM fw) : dims :=
  mkDims (num_classes m) (num_embeddings m) (embedding_dim m) (hidden_size m).

(** [LstmLM(num_classes, num_embeddings, embedding_dim, hidden_size)]: the
    three layers are created with random parameters. *)
Definition LstmLM_init (fw : Framework)
    (num_classes num_embeddings embedding_dim hidden_size : nat)
    (g : rng fw) : LstmLM fw * rng fw :=
  let d := mkDims num_classes num_embeddings embedding_dim hidden_size in
  let '(p, g') := init_params fw d g in
  (mkLstmLM num_classes num_embeddings embedding_dim hidden_size true p, g').

(** [nn.Embedding]: a table lookup at every position; an index outside the
    table raises. *)
Definition embedding_lookup {fw : Framework} (m : LstmLM fw) (i : nat)
  : result (list Qc) :=
  if i <? num_embeddings m then Return (embedding_row fw (weights m) i)
  else Raise IndexError.

Definition embedding {fw : Framework} (m : LstmLM fw) (x : tensor nat)
  : result (tensor (list Qc)) :=
  tmapM (embedding_lookup m) x.

(** [nn.LSTM], one layer, one direction, over one sequence: the outputs of
    all steps and the state after the last. *)
Fixpoint lstm_seq {fw : Framework} (p : params fw) (xs : list (list Qc))
    (s : lstm_state fw) : list (list Qc) * lstm_state fw :=
  match xs with
  | [] => ([], s)
  | x :: xs' =>
      let '(h, s') := lstm_cell fw p x s in
      let '(hs, s'') := lstm_seq p xs' s' in
      (h :: hs, s'')
  end.

(** Whether a sequence has no step. *)
Definition no_step {A : Type} (v : list A) : bool :=
  match v with
  | [] => true
  | _ :: _ => false
  end.

(** [self.lstm(o1, states)]: [o2[0]] are the outputs, [o2[1]] the state, one
    per sequence.  The layer refuses sequences of length 0.  Without
    [states] every sequence starts from the zero state; a carried state
    must hold one entry per sequence. *)
Definition lstm {fw : Framework} (m : LstmLM fw) (o1 : tensor (list Qc))
    (states : option (list (lstm_state fw)))
  : result (tensor (list Qc) * list (lstm_state fw)) :=
  let p := weights m in
  match o1 with
  | T1 v =>
      if no_step v then Raise RuntimeError else
      s0 ← match states with
           | None => Return (zero_state fw p)
           | Some [s] => Return s
           | Some _ => Raise RuntimeError
           end ;
      let '(hs, s) := lstm_seq p v s0 in
      Return (T1 hs, [s])
  | T2 b =>
      if existsb no_step b then Raise RuntimeError else
      ss ← match states with
           | None => Return (replicate (length b) (zero_state fw p))
           | Some ss => Return ss
           end ;
      r ← zip_same (lstm_seq p) b ss ;
      Return (T2 (r.*1), r.*2)
  end.

(** [self.fc(o2[0])] *)
Definition fc {fw : Framework} (m : LstmLM fw) (o : tensor (list Qc))
  : tensor (list Qc) :=
  tmap (linear fw (weights m)) o.

Definition LstmLM_forward {fw : Framework} (m : LstmLM fw) (x : tensor nat)
  : result (tensor (list Qc)) :=
  o1 ← embedding m x ;
  o2 ← lstm m o1 None ;
  let o3 := fc m o2.1 in
  let o4 := tmap (log_softmax fw) o3 in
  Return o4.

(** The logits as they are, finite floats. *)
Definition floats (o3 : tensor (list Qc)) : tensor (list pyfloat) :=
  tmap (map Finite) o3.

(** [o3 /= temperature]: every logit is divided; by a zero temperature the
    quotients are infinities and NaN. *)
Definition div_temperature (temperature : Qc) (o3 : tensor (list Qc))
  : tensor (list pyfloat) :=
  tmap (map (λ v, float_div v temperature)) o3.

(** [torch.softmax] of one row of floats.  On finite logits it is the
    softmax of the framework.  A NaN or a positive infinity among the
    logits, or no finite logit at all, makes every entry NaN; negative
    infinities beside finite logits get probability 0. *)
Definition finite_values (l : list pyfloat) : list Qc :=
  omap (λ x, match x with Finite q => Some q | _ => None end) l.

Fixpoint spread (l : list pyfloat) (ps : list Qc) : list pyfloat :=
  match l with
  | [] => []
  | Finite _ :: l' =>
      match ps with
      | p :: ps' => Finite p :: spread l' ps'
      | [] => NaN :: spread l' []
      end
  | _ :: l' => Finite 0%Qc :: spread l' ps
  end.

Definition float_softmax (fw : Framework) (l : list pyfloat) : list pyfloat :=
  match finite_row l with
  | Some qs => Finite <$> softmax fw qs
  | None =>
      if existsb (λ x, match x with NaN | PosInf => true | _ => false end) l
      then (λ _, NaN) <$> l
      else match finite_values l with
           | [] => (λ _, NaN) <$> l
           | qs => spread l (softmax fw qs)
           end
  end.

Definition LstmLM_predict {fw : Framework} (m : LstmLM fw) (x : tensor nat)
    (states : option (list (lstm_state fw))) (temperature : Qc)
  : result (tensor (list pyfloat) * list (lstm_state fw)) :=
  o1 ← embedding m x ;
  o2 ← lstm m o1 states ;
  let o3 := fc m o2.1 in
  let o3 := if decide (temperature = 1%Qc) then floats o3
            else div_temperature temperature o3 in
  let o4 := tmap (float_softmax fw) o3 in
  Return (o4, o2.2).

(** ** Programs with state: the world and the objects the script mutates *)

Definition prog (S A : Type) : Type := S → result (A * S).

#[global] Instance prog_ret {S : Type} : MRet (prog S) :=
  λ A a s, Return (a, s).
#[global] Instance prog_bind {S : Type} : MBind (prog S) :=
  λ A B k m s,
    match m s with
    | Return (a, s') => k a s'
    | Raise e => Raise e
    end.

Definition get {S : Type} : prog S S := λ s, Return (s, s).
Definition put {S : Type} (s : S) : prog S unit := λ _, Return (tt, s).
Definition lift {S A : Type} (r : result A) : prog S A :=
  λ s, match r with Return a => Return (a, s) | Raise e => Raise e end.

(** Run a program on the second component of a pair state. *)
Definition on_snd {S1 S2 A : Type} (m : prog S2 A) : prog (S1 * S2) A :=
  λ s, match m s.2 with
       | Return (a, s2) => Return (a, (s.1, s2))
       | Raise e => Raise e
       end.

(** [for x in l: acc = body acc x] with effects. *)
Fixpoint foldM {S A B : Type} (body : B → A → prog S B) (acc : B) (l : list A)
  : prog S B :=
  match l with
  | [] => mret acc
  | x :: l' => acc' ← body acc x ; foldM body acc' l'
  end.

(** One row of the metrics log: [train_loss, val_loss, accuracy]. *)
Definition row : Type := option pyfloat * option pyfloat * option pyfloat.

(** A [Path], as the list of its components below the current directory:
    the path of [model.pth] in the directory [results] has the two
    components [results] and [model.pth], and the empty path is the current
    directory itself. *)
Abbreviation path := (list string) (only parsing).

(** [Path / name] and [Path.parent] *)
Definition path_join (dir : path) (name : string) : path := dir ++ [name].
Definition parent (p : path) : path := take (length p - 1) p.

(** What the file system holds at a path: a directory, or a file that the
    script wrote. *)
Inductive content (fw : Framework) : Type :=
  | StateDict (p : params fw)
  | Json (v : list N)
  | Csv (columns : list string) (rows : list row)
  | Directory.
Arguments StateDict {fw} p.
Arguments Json {fw} v.
Arguments Csv {fw} columns rows.
Arguments Directory {fw}.

Record world (fw : Framework) : Type := mkWorld {
  gen : rng fw;
  files : gmap path (content fw);
  (** the paths of the files written so far, oldest first *)
  written : list path
}.
Arguments mkWorld {fw}.
Arguments gen {fw}.
Arguments files {fw}.
Arguments written {fw}.

(** Whether there is a directory at a path; the current directory always
    exists. *)
Definition is_dir {fw : Framework} (files : gmap path (content fw)) (p : path)
  : bool :=
  match p with
  | [] => true
  | _ :: _ =>
      match files !! p with
      | Some Directory => true
      | _ => false
      end
  end.

(** Why nothing can be created below a path that is not a directory. *)
Definition no_parent {fw : Framework} (w : world fw) (p : path) : exn :=
  match files w !! parent p with
  | Some _ => NotADirectoryError
  | None => FileNotFoundError
  end.

(** [path.mkdir(exist_ok=True)]: only the last component is created, and a
    directory that is already there is accepted. *)
Definition mkdir {fw : Framework} (p : path) : prog (world fw) unit :=
  λ w, if is_dir (files w) (parent p) then
         if is_dir (files w) p then Return (tt, w)
         else match files w !! p with
              | Some _ => Raise FileExistsError
              | None =>
                  Return (tt, mkWorld (gen w) (<[p := Directory]> (files w))
                                      (written w))
              end
       else Raise (no_parent w p).

(** [open(path, "w")]: the directory of the file must exist, and the path
    must not be a directory. *)
Definition open_w {fw : Framework} (p : path) : prog (world fw) unit :=
  λ w, if is_dir (files w) (parent p) then
         if is_dir (files w) p then Raise IsADirectoryError
         else Return (tt, w)
       else Raise (no_parent w p).

Definition write_file {fw : Framework} (p : path) (c : content fw)
  : prog (world fw) unit :=
  λ w, match open_w p w with
       | Return _ =>
           Return (tt, mkWorld (gen w) (<[p := c]> (files w))
                               (written w ++ [p]))
       | Raise e => Raise e
       end.

(** [torch.save(state_dict, path)]: the writer of the framework reports a
    file that it cannot open as a [RuntimeError]. *)
Definition torch_save {fw : Framework} (p : path) (sd : params fw)
  : prog (world fw) unit :=
  λ w, match write_file p (StateDict sd) w with
       | Return r => Return r
       | Raise _ => Raise RuntimeError
       end.

(** [open(path, "r")] and reading the file. *)
Definition read_file {fw : Framework} (p : path)
  : prog (world fw) (content fw) :=
  λ w, match files w !! p with
       | Some Directory => Raise IsADirectoryError
       | Some c => Return (c, w)
       | None => Raise FileNotFoundError
       end.

(** A draw from the global generator. *)
Definition draw {fw : Framework} {A : Type} (f : rng fw → A * rng fw)
  : prog (world fw) A :=
  λ w, let '(a, g) := f (gen w) in
       Return (a, mkWorld g (files w) (written w)).

(** ** DataLoader and Datasets (lines 46-53) *)

Record DataLoader : Type := mkDataLoader {
  dl_dataset : LMDataset;
  dl_batch_size : nat
}.

(** [DataLoader(d, batch_size=batch_size, shuffle=True)]: the random
    sampler refuses a dataset without examples, the batch sampler a batch
    size that is not positive. *)
Definition DataLoader_init (d : LMDataset) (batch_size : nat)
  : result DataLoader :=
  if LMDataset_len d =? 0 then Raise ValueError
  else if batch_size =? 0 then Raise ValueError
  else Return (mkDataLoader d batch_size).

(** Stacking the examples of one batch into two [[N, L]] tensors. *)
Definition collate (examples : list (list nat * list nat))
  : tensor nat * tensor nat :=
  (T2 (examples.*1), T2 (examples.*2)).

(** One pass over a shuffling loader: the order is a fresh random
    permutation of the example indices. *)
Definition DataLoader_iter {fw : Framework} (dl : DataLoader)
  : prog (world fw) (list (tensor nat * tensor nat)) :=
  perm ← draw (randperm fw (LMDataset_len (dl_dataset dl))) ;
  examples ← lift (comprehension (LMDataset_getitem (dl_dataset dl)) perm) ;
  mret (collate <$>
        batched (length examples) (dl_batch_size dl) examples).

Record Datasets : Type := mkDatasets {
  train_loader : DataLoader;
  val_loader : DataLoader
}.

Definition Datasets_init (text : list N) (batch_size max_length : nat)
  : result Datasets :=
  train_data ← LMDataset_init (char2idx text) (train_set text) max_length ;
  train_loader ← DataLoader_init train_data batch_size ;
  val_data ← LMDataset_init (char2idx text) (val_set text) max_length ;
  val_loader ← DataLoader_init val_data (batch_size * 2) ;
  Return (mkDatasets train_loader val_loader).

(** ** Trainer (lines 98-196) *)

(** [torch.nn.NLLLoss(reduction="none")] on log-probabilities and class
    indices of the same shape: minus the log-probability of the target at
    every position; a target outside the classes raises. *)
Definition nll (p : list Qc * nat) : result Qc :=
  match p.1 !! p.2 with
  | Some v => Return (- v)%Qc
  | None => Raise IndexError
  end.
Definition NLLLoss_none (output : tensor (list Qc)) (target : tensor nat)
  : result (tensor Qc) :=
  pairs ← tzip pair output target ;
  tmapM nll pairs.

Record Trainer (fw : Framework) : Type := mkTrainer {
  datasets : Datasets;
  model : LstmLM fw;
  optimizer : opt_state fw;
  loss_fn : tensor (list Qc) → tensor nat → result (tensor Qc);
  results_path : path;
  train_df : option (list string * list row)
}.
Arguments mkTrainer {fw}.
Arguments datasets {fw}.
Arguments model {fw}.
Arguments optimizer {fw}.
Arguments loss_fn {fw}.
Arguments results_path {fw}.
Arguments train_df {fw}.

(** The state of a training run: the trainer object and the world. *)
Definition run (fw : Framework) : Type := (Trainer fw * world fw)%type.

(** [self], for the methods of an object that runs in a world. *)
Definition self {O W : Type} : prog (O * W) O :=
  λ s, Return (s.1, s).
Definition set_self {O W : Type} (o : O) : prog (O * W) unit :=
  λ s, Return (tt, (o, s.2)).

(** [self.model = m], all other attributes as they are. *)
Definition Trainer_set_model {fw : Framework} (t : Trainer fw) (m : LstmLM fw)
  : Trainer fw :=
  mkTrainer (datasets t) m (optimizer t) (loss_fn t) (results_path t)
            (train_df t).

(** lines 156-158 *)
Definition Trainer_loss {fw : Framework} (t : Trainer fw)
    (output : tensor (list Qc)) (target : tensor nat) (masks : tensor bool)
  : result Qc :=
  losses ← loss_fn t output target ;
  masked_losses ← tzip mul_mask losses masks ;
  Return (tsum masked_losses).

(** The body of the loop of [train_epoch] (lines 119-132). *)
Definition train_step {fw : Framework} (losses : list pyfloat)
    (batch : tensor nat * tensor nat) : prog (run fw) (list pyfloat) :=
  let '(tokens, target) := batch in
  t ← self ;
  let masks := gt0 tokens in
  output ← lift (LstmLM_forward (model t) tokens) ;
  batch_losses ← lift (Trainer_loss t output target masks) ;
  let loss := tensor_div batch_losses (tcount masks) in
  let '(o, p) :=
    optimizer_step fw (optimizer t) (weights (model t)) tokens target in
  set_self (mkTrainer (datasets t) (LstmLM_set_weights (model t) p)
                      o (loss_fn t) (results_path t) (train_df t)) ;;
  mret (losses ++ [loss]).

(** lines 113-133 *)
Definition Trainer_train_epoch {fw : Framework} : prog (run fw) (list pyfloat) :=
  t ← self ;
  set_self (Trainer_set_model t (LstmLM_train (model t))) ;;
  t ← self ;
  batches ← on_snd (DataLoader_iter (train_loader (datasets t))) ;
  foldM train_step [] batches.

(** The accumulators of [validate]. *)
Record totals : Type := mkTotals {
  tokens_count : accum Z;
  val_loss : accum Qc;
  correct : accum Z
}.

(** The body of the loop of [validate] (lines 143-152). *)
Definition validate_step {fw : Framework} (t : Trainer fw) (acc : totals)
    (batch : tensor nat * tensor nat) : result totals :=
  let '(tokens, target) := batch in
  let masks := gt0 tokens in
  let tokens_count := accum_add Z.add (tokens_count acc) (tcount masks) in
  output ← LstmLM_forward (model t) tokens ;
  l ← Trainer_loss t output target masks ;
  let val_loss := accum_add Qcplus (val_loss acc) l in
  hits ← tzip (λ a b, bool_decide (a = b)) (tmap argmax output) target ;
  masked_hits ← tzip andb hits masks ;
  let correct := accum_add Z.add (correct acc) (tcount masked_hits) in
  Return (mkTotals tokens_count val_loss correct).

Definition validate_totals {fw : Framework} (t : Trainer fw)
    (batches : list (tensor nat * tensor nat)) : result totals :=
  for_ batches (mkTotals PyZero PyZero PyZero) (λ b acc, validate_step t acc b).

Definition accum_Qc (a : accum Z) : accum Qc :=
  match a with
  | PyZero => PyZero
  | Tensor0 z => Tensor0 (Q2Qc (inject_Z z))
  end.

(** lines 135-154 *)
Definition Trainer_validate {fw : Framework} : prog (run fw) (pyfloat * pyfloat) :=
  t ← self ;
  set_self (Trainer_set_model t (LstmLM_eval (model t))) ;;
  t ← self ;
  batches ← on_snd (DataLoader_iter (val_loader (datasets t))) ;
  acc ← lift (validate_totals t batches) ;
  loss ← lift (accum_div (val_loss acc) (tokens_count acc)) ;
  accuracy ← lift (accum_div (accum_Qc (correct acc)) (tokens_count acc)) ;
  mret (loss, accuracy).

(** lines 182-187; the vocabulary written is the module-level one. *)
Definition Trainer_save_model {fw : Framework} (text : list N)
  : prog (run fw) unit :=
  t ← self ;
  on_snd (mkdir (results_path t)) ;;
  on_snd (torch_save (path_join (results_path t) "model.pth")
                     (weights (model t))) ;;
  on_snd (write_file (path_join (results_path t) "vocab.json")
                     (Json (vocab text))).

Definition train_row (train_loss : pyfloat) : row := (Some train_loss, None, None).
Definition val_row (val_loss accuracy : pyfloat) : row :=
  (None, Some val_loss, Some accuracy).

Definition columns : list string := ["train_loss"; "val_loss"; "accuracy"].

(** The loop variables of [train] that outlive an iteration. *)
Definition train_vars : Type := (pyfloat * pyfloat * list row)%type.

(** The body of the loop of [train] (lines 165-173). *)
Definition train_body {fw : Framework} (vars : train_vars) (epoch : nat)
  : prog (run fw) train_vars :=
  let '(val_loss, accuracy, all_losses) := vars in
  train_losses ← Trainer_train_epoch ;
  '(val_loss, accuracy) ← Trainer_validate ;
  let all_losses := all_losses ++ (train_row <$> train_losses) in
  let all_losses := all_losses ++ [val_row val_loss accuracy] in
  mret (val_loss, accuracy, all_losses).

(** lines 160-180 *)
Definition Trainer_train {fw : Framework} (text : list N) (num_epoch : nat)
  : prog (run fw) unit :=
  '(val_loss, accuracy) ← Trainer_validate ;
  let all_losses := [val_row val_loss accuracy] in
  '(val_loss, accuracy, all_losses) ←
    foldM train_body (val_loss, accuracy, all_losses) (seq 0 num_epoch) ;
  Trainer_save_model text ;;
  t ← self ;
  let df := (columns, all_losses) in
  set_self (mkTrainer (datasets t) (model t) (optimizer t) (loss_fn t)
                      (results_path t) (Some df)) ;;
  on_snd (write_file (path_join (results_path t) "train.csv")
                     (Csv df.1 df.2)).

(** ** Predictor (lines 221-255) *)

Record Predictor (fw : Framework) : Type := mkPredictor {
  p_model : LstmLM fw
}.
Arguments mkPredictor {fw}.
Arguments p_model {fw}.

(** [json.load] of a file that holds a vocabulary. *)
Definition json_load {fw : Framework} (path : path)
  : prog (world fw) (list N) :=
  c ← read_file path ;
  match c with
  | Json v => mret v
  | _ => lift (Raise ValueError)
  end.

(** [torch.load] of a file that holds a state dict. *)
Definition torch_load {fw : Framework} (path : path)
  : prog (world fw) (params fw) :=
  c ← read_file path ;
  match c with
  | StateDict p => mret p
  | _ => lift (Raise RuntimeError)
  end.

(** [model.load_state_dict(sd)]: the parameter names always agree between
    two [LstmLM]; the shapes must agree too. *)
Definition load_state_dict {fw : Framework} (m : LstmLM fw) (sd : params fw)
  : result (LstmLM fw) :=
  if decide (params_dims fw sd = LstmLM_dims m)
  then Return (LstmLM_set_weights m sd)
  else Raise RuntimeError.

(** lines 222-232; [vocab] is a local variable here, used for the sizes. *)
Definition Predictor_init {fw : Framework} (model_dir : path)
  : prog (world fw) (Predictor fw) :=
  vocab ← json_load (path_join model_dir "vocab.json") ;
  model ← draw (LstmLM_init fw (length vocab) (length vocab) 50 50) ;
  sd ← torch_load (path_join model_dir "model.pth") ;
  model ← lift (load_state_dict model sd) ;
  mret (mkPredictor model).

(** The loop variables of [predict]. *)
Record session (fw : Framework) : Type := mkSession {
  s_tokens : tensor nat;
  s_states : option (list (lstm_state fw));
  s_generated : list N
}.
Arguments mkSession {fw}.
Arguments s_tokens {fw}.
Arguments s_states {fw}.
Arguments s_generated {fw}.

(** [d.multinomial(1)]: a draw from a row of probabilities; the framework
    refuses a row that holds an infinity or a NaN. *)
Definition multinomial_1 {fw : Framework} (d : list pyfloat)
  : prog (world fw) nat :=
  match finite_row d with
  | Some probs => draw (multinomial fw probs)
  | None => lift (Raise RuntimeError)
  end.

(** [output[-1].multinomial(1).item()]: one draw per distribution of
    [output[-1]]; [.item()] needs exactly one. *)
Definition sample_last {fw : Framework} (output : tensor (list pyfloat))
  : prog (world fw) nat :=
  rows ← lift (tlast output) ;
  match rows with
  | [d] => multinomial_1 d
  | _ => lift (Raise RuntimeError)
  end.

(** The body of the loop of [predict] (lines 244-253); [vocab] is the
    module-level vocabulary. *)
Definition predict_step {fw : Framework} (text : list N)
    (temperature : Qc) (s : session fw) (_ : nat)
  : prog (Predictor fw * world fw) (session fw) :=
  p ← self ;
  '(output, states) ←
    lift (LstmLM_predict (p_model p) (s_tokens s) (s_states s) temperature) ;
  predicted_idx ← on_snd (sample_last output) ;
  predicted_char ← lift (list_getitem (vocab text) predicted_idx) ;
  mret (mkSession (T1 [predicted_idx]) (Some states)
                  (s_generated s ++ [predicted_char])).

(** lines 234-255; [char2idx] is the module-level mapping. *)
Definition Predictor_predict {fw : Framework} (text : list N)
    (seed : list N) (max_length : nat) (temperature : Qc)
  : prog (Predictor fw * world fw) (list N) :=
  tokens ← lift (comprehension (getitem (char2idx text)) seed) ;
  p ← self ;
  set_self (mkPredictor (LstmLM_eval (p_model p))) ;;
  s ← foldM (predict_step text temperature)
            (mkSession (T1 tokens) None []) (seq 0 max_length) ;
  mret (s_generated s).

(** ** A small concrete framework, to run the definitions

    Parameters are just their shapes, the generator is a counter, the
    recurrent state counts the steps taken, and the network puts all its
    weight on the successor (modulo the number of classes) of the token it
    reads. *)

Definition toy_embedding_row (p : dims) (i : nat) : list Qc :=
  [Q2Qc (inject_Z (Z.of_nat i))].

Definition toy_linear (p : dims) (h : list Qc) : list Qc :=
  let tok := match h with
             | x :: _ => Z.to_nat (Qnum (this x))
             | [] => 0
             end in
  (λ c, if c =? (tok + 1) `mod` d_num_classes p then 1%Qc else 0%Qc)
    <$> seq 0 (d_num_classes p).

Definition toy : Framework := {|
  rng := nat;
  params := dims;
  lstm_state := nat;
  opt_state := nat;
  params_dims := λ p, p;
  init_params := λ d g, (d, S g);
  embedding_row := toy_embedding_row;
  zero_state := λ _, 0;
  lstm_cell := λ _ x s, (x, S s);
  linear := toy_linear;
  softmax := λ l, l;
  log_softmax := λ l, l;
  multinomial := λ d g, (argmax d, S g);
  randperm := λ n g, (reverse (seq 0 n), S g);
  optimizer_step := λ o p _ _, (S o, p)
|}.

(** The text of a string literal, one code point per character. *)
Fixpoint text_of (s : string) : list N :=
  match s with
  | EmptyString => []
  | String a s' => Ascii.N_of_ascii a :: text_of s'
  end.

Definition toy_world : world toy := mkWorld (0 : rng toy) ∅ [].

(** The trainer that [train()] builds (lines 199-215), for any corpus and
    sizes. *)
Definition make_trainer {fw : Framework} (text : list N)
    (batch_size max_length embedding_dim hidden_size : nat) (o : opt_state fw)
  : prog (world fw) (Trainer fw) :=
  datasets ← lift (Datasets_init text batch_size max_length) ;
  model ← draw (LstmLM_init fw (length (vocab text)) (length (vocab text))
                            embedding_dim hidden_size) ;
  mret (mkTrainer datasets model o NLLLoss_none ["results"] None).

(** * Properties *)

(** ** The vocabulary *)

Section Vocabulary.

Lemma sorted_nodup_strict (l : list N) :
  StronglySorted N.le l → NoDup l → StronglySorted N.lt l.
Proof.
  induction 1 as [|x l Hs IH Hall]; intros Hnd; constructor.
  - apply IH. by apply NoDup_cons_1_2 in Hnd.
  - apply NoDup_cons_1_1 in Hnd.
    rewrite Forall_forall in Hall |- *. intros y Hy.
    specialize (Hall y Hy).
    assert (x ≠ y) by (intros ->; apply Hnd; by apply list_elem_of_In).
    lia.
Qed.

Lemma vocab_perm text :
  vocab text ≡ₚ elements (list_to_set (train_set text) : gset N).
Proof. apply merge_sort_Permutation. Qed.

Lemma vocab_NoDup text : NoDup (vocab text).
Proof. rewrite vocab_perm. apply NoDup_elements. Qed.

Lemma elem_of_vocab text c : c ∈ vocab text ↔ c ∈ train_set text.
Proof. by rewrite vocab_perm, elem_of_elements, elem_of_list_to_set. Qed.

Lemma vocab_strictly_sorted text : StronglySorted N.lt (vocab text).
Proof.
  apply sorted_nodup_strict; [|apply vocab_NoDup].
  apply StronglySorted_merge_sort; apply _.
Qed.

(** The dict built from [enumerate], started at index [k] on top of [d]. *)
Lemma fold_enumerate_lookup (v : list N) (k : nat) (d : gmap N nat) c i :
  NoDup v →
  (fold_left (λ d p, <[p.2 := p.1]> d) (imap (λ j, pair (k + j)) v) d) !! c
    = Some i
  ↔ (∃ j, v !! j = Some c ∧ i = k + j) ∨ (c ∉ v) ∧ d !! c = Some i.
Proof.
  revert k d. induction v as [|x v IH]; intros k d Hnd; simpl.
  - split.
    + intros H. right. split; [apply not_elem_of_nil | done].
    + intros [(j & Hj & _)|[_ H]]; [done | done].
  - apply NoDup_cons in Hnd as [Hx Hnd].
    rewrite (imap_ext _ (λ j, pair (S k + j))); last first.
    { intros j y _. simpl. f_equal. lia. }
    rewrite IH by done. split.
    + intros [(j & Hj & ->)|[Hc H]].
      * left. exists (S j). split; [done | lia].
      * destruct (decide (x = c)) as [->|Hne].
        -- rewrite lookup_insert_eq in H. left. exists 0.
           split; [done | simplify_eq; lia].
        -- rewrite lookup_insert_ne in H by done.
           right. split; [|done]. rewrite not_elem_of_cons. done.
    + intros [(j & Hj & ->)|[Hc H]].
      * destruct j as [|j]; simpl in Hj.
        -- injection Hj as ->. right. split; [done|].
           rewrite lookup_insert_eq. f_equal; lia.
        -- left. exists j. split; [done | lia].
      * apply not_elem_of_cons in Hc as [Hne Hc].
        right. split; [done|]. by rewrite lookup_insert_ne.
Qed.

Lemma dict_of_enumerate_lookup (v : list N) c i :
  NoDup v → dict_of_enumerate v !! c = Some i ↔ v !! i = Some c.
Proof.
  intros Hnd. unfold dict_of_enumerate, enumerate.
  rewrite (imap_ext _ (λ j, pair (0 + j))) by done.
  rewrite fold_enumerate_lookup by done. split.
  - intros [(j & Hj & ->)|[_ H]]; [done | by rewrite lookup_empty in H].
  - intros H. left. by exists i.
Qed.

Lemma char2idx_lookup text c i :
  char2idx text !! c = Some i ↔ vocab text !! i = Some c.
Proof. apply dict_of_enumerate_lookup, vocab_NoDup. Qed.

Lemma char2idx_is_Some text c :
  is_Some (char2idx text !! c) ↔ c ∈ train_set text.
Proof.
  rewrite <- elem_of_vocab, list_elem_of_lookup. unfold is_Some.
  by setoid_rewrite char2idx_lookup.
Qed.

Lemma char2idx_lt text c i :
  char2idx text !! c = Some i → i < vocab_size text.
Proof. rewrite char2idx_lookup. apply lookup_lt_Some. Qed.

(** C5: the training split is the prefix of [7 * N / 10] characters and the
    validation split the rest of the corpus; the vocabulary is the strictly
    increasing list of exactly the characters of the training split, and
    [char2idx] sends a character to its position in that list, so the
    indices are [0 .. vocab_size - 1] without gaps. *)
Theorem split_and_vocabulary (text : list N) :
  train_set text = take (length text * 7 / 10) text
  ∧ val_set text = drop (length text * 7 / 10) text
  ∧ train_set text ++ val_set text = text
  ∧ length (train_set text) = length text * 7 / 10
  ∧ StronglySorted N.lt (vocab text)
  ∧ (∀ c, c ∈ vocab text ↔ c ∈ train_set text)
  ∧ (∀ c i, char2idx text !! c = Some i ↔ vocab text !! i = Some c)
  ∧ (∀ i, i < vocab_size text ↔ ∃ c, char2idx text !! c = Some i).
Proof.
  split_and!; try done.
  - apply take_drop.
  - unfold train_set, train_size. rewrite length_take.
    pose proof (Nat.Div0.div_le_upper_bound (length text * 7) 10 (length text)).
    lia.
  - apply vocab_strictly_sorted.
  - apply elem_of_vocab.
  - apply char2idx_lookup.
  - intros i. unfold vocab_size. rewrite <- lookup_lt_is_Some. unfold is_Some.
    by setoid_rewrite char2idx_lookup.
Qed.

End Vocabulary.

(** ** The error monad *)

Lemma bind_Return {A B : Type} (m : result A) (k : A → result B) b :
  m ≫= k = Return b ↔ ∃ a, m = Return a ∧ k a = Return b.
Proof.
  destruct m as [a|e]; simpl; split.
  - intros H. by exists a.
  - by intros (a' & [= ->] & H).
  - done.
  - by intros (a' & H & _).
Qed.

Lemma bind_Return_l {A B : Type} (a : A) (k : A → result B) :
  Return a ≫= k = k a.
Proof. done. Qed.

Section Results.
Context {A B : Type}.

Lemma comprehension_cons (f : A → result B) x l :
  comprehension f (x :: l)
    = f x ≫= λ y, comprehension f l ≫= λ ys, Return (y :: ys).
Proof. done. Qed.

Lemma comprehension_Return (f : A → result B) l r :
  comprehension f l = Return r ↔ Forall2 (λ a b, f a = Return b) l r.
Proof.
  revert r. induction l as [|x l IH]; intros r.
  - split; [intros [= <-]; constructor | by inversion 1].
  - rewrite comprehension_cons, bind_Return. split.
    + intros (y & Hy & H). apply bind_Return in H as (ys & Hys & [= <-]).
      constructor; [done | by apply IH].
    + inversion 1 as [|? y ? ys Hy Hys]; subst.
      exists y. split; [done|]. apply bind_Return.
      exists ys. split; [by apply IH | done].
Qed.

Lemma comprehension_total (f : A → result B) (g : A → B) l :
  (∀ a, a ∈ l → f a = Return (g a)) → comprehension f l = Return (g <$> l).
Proof.
  intros H. apply comprehension_Return. apply Forall2_fmap_r, Forall_Forall2_diag.
  by apply Forall_forall.
Qed.

End Results.

(** ** The windowed dataset *)

Section Windowing.

(** How many starts [range(0, stop, step)] yields: the ceiling of
    [stop / step] for a positive [stop]. *)
Definition range_count (i : nat) (stop : Z) (step : nat) : nat :=
  Z.to_nat ((stop - Z.of_nat i + Z.of_nat step - 1) / Z.of_nat step).

Lemma range_count_stop i stop step :
  0 < step → (stop ≤ Z.of_nat i)%Z → range_count i stop step = 0.
Proof.
  intros Hs Hi. unfold range_count.
  assert ((stop - Z.of_nat i + Z.of_nat step - 1) / Z.of_nat step < 1)%Z; [|lia].
  apply Z.div_lt_upper_bound; lia.
Qed.

Lemma range_count_step i stop step :
  0 < step → (Z.of_nat i < stop)%Z →
  range_count i stop step = S (range_count (i + step) stop step).
Proof.
  intros Hs Hi. unfold range_count.
  replace (stop - Z.of_nat i + Z.of_nat step - 1)%Z
    with ((stop - Z.of_nat (i + step) + Z.of_nat step - 1)
          + 1 * Z.of_nat step)%Z by lia.
  rewrite Z.div_add by lia.
  rewrite Z2Nat.inj_add; [simpl; lia | | lia].
  apply Z.div_pos; lia.
Qed.

Lemma range_loop_spec fuel i stop step :
  0 < step → (stop - Z.of_nat i ≤ Z.of_nat fuel)%Z →
  range_loop fuel i stop step
    = (λ k, i + k * step) <$> seq 0 (range_count i stop step).
Proof.
  intros Hs. revert i. induction fuel as [|fuel IH]; intros i Hf; simpl.
  - rewrite range_count_stop by lia. done.
  - destruct (Z.ltb_spec (Z.of_nat i) stop) as [Hlt|Hge].
    + rewrite range_count_step by done. rewrite IH by lia. simpl.
      f_equal; [lia|]. rewrite <- fmap_S_seq, <- list_fmap_compose.
      apply list_fmap_ext. intros _ k _. simpl. lia.
    + by rewrite range_count_stop.
Qed.

Lemma range_spec stop step :
  0 < step →
  range stop step = Return ((λ k, k * step) <$> seq 0 (range_count 0 stop step)).
Proof.
  intros Hs. unfold range. destruct (Nat.eqb_spec step 0) as [|_]; [lia|].
  rewrite range_loop_spec by lia. done.
Qed.

(** A start is yielded exactly when it lies before [stop]. *)
Lemma range_count_lt k stop step :
  0 < step →
  k < range_count 0 stop step ↔ (Z.of_nat (k * step) < stop)%Z.
Proof.
  intros Hs. unfold range_count.
  change (Z.of_nat 0) with 0%Z. rewrite Z.sub_0_r.
  set (q := ((stop + Z.of_nat step - 1) / Z.of_nat step)%Z).
  assert (Z.of_nat step * q ≤ stop + Z.of_nat step - 1
          < Z.of_nat step * (q + 1))%Z as [Hlo Hhi].
  { pose proof (Z.mul_div_le (stop + Z.of_nat step - 1) (Z.of_nat step)).
    pose proof (Z.mul_succ_div_gt (stop + Z.of_nat step - 1) (Z.of_nat step)).
    unfold q. lia. }
  split; intros Hk; nia.
Qed.

(** The windows count in closed form. *)
Lemma window_count (N L : nat) :
  0 < L →
  range_count 0 (Z.of_nat N - Z.of_nat L - 2) L
    = if N <? L + 3 then 0 else (N - L - 3) / L + 1.
Proof.
  intros HL. destruct (Nat.ltb_spec N (L + 3)) as [Hlt|Hge].
  - apply range_count_stop; lia.
  - unfold range_count.
    replace (Z.of_nat N - Z.of_nat L - 2 - Z.of_nat 0 + Z.of_nat L - 1)%Z
      with (Z.of_nat (N - L - 3) + 1 * Z.of_nat L)%Z by lia.
    rewrite Z.div_add by lia. rewrite <- Nat2Z.inj_div.
    lia.
Qed.

End Windowing.

Section Dataset.
Context (c2i : gmap N nat) (dataset : list N) (max_length : nat).

(** [indices] are the dictionary values of the characters of [txt]. *)
Definition encodes (txt : list N) (indices : list nat) : Prop :=
  Forall2 (λ c i, c2i !! c = Some i) txt indices.

Lemma getitem_Return c i : getitem c2i c = Return i ↔ c2i !! c = Some i.
Proof.
  unfold getitem. destruct (c2i !! c); split; try done; by intros [= ->].
Qed.

Lemma encode_Return txt indices :
  comprehension (getitem c2i) txt = Return indices ↔ encodes txt indices.
Proof.
  rewrite comprehension_Return. unfold encodes.
  split; intros H; (eapply Forall2_impl; [exact H|]);
    intros c i; by rewrite getitem_Return.
Qed.

Lemma encode_known txt :
  (∀ c, c ∈ txt → is_Some (c2i !! c)) →
  encodes txt ((λ c, default 0 (c2i !! c)) <$> txt).
Proof.
  intros H. apply Forall2_fmap_r, Forall_Forall2_diag, Forall_forall.
  intros c Hc. simpl. destruct (H c Hc) as [i Hi]. by rewrite Hi.
Qed.

Lemma LMDataset_body_Return i d d' :
  LMDataset_body c2i dataset max_length i d = Return d' ↔
  ∃ indices, encodes (slice dataset i (i + max_length + 1)) indices
    ∧ d' = mkLMDataset (xs d ++ [all_but_last indices])
                       (ys d ++ [all_but_first indices]).
Proof.
  unfold LMDataset_body. rewrite bind_Return.
  setoid_rewrite encode_Return.
  split; intros (indices & H & E); exists indices; (split; [done|]);
    simpl in *; congruence.
Qed.

Lemma LMDataset_loop_Return starts d d' :
  for_ starts d (LMDataset_body c2i dataset max_length) = Return d' ↔
  ∃ ws, Forall2 (λ i w, encodes (slice dataset i (i + max_length + 1)) w)
                starts ws
    ∧ d' = mkLMDataset (xs d ++ (all_but_last <$> ws))
                       (ys d ++ (all_but_first <$> ws)).
Proof.
  revert d. induction starts as [|i starts IH]; intros d.
  - simpl. split.
    + intros [= <-]. exists []. split; [constructor|].
      destruct d; simpl. by rewrite !app_nil_r.
    + intros (ws & Hws & ->). inversion Hws; subst.
      destruct d; simpl. by rewrite !app_nil_r.
  - change (for_ (i :: starts) d (LMDataset_body c2i dataset max_length))
      with (LMDataset_body c2i dataset max_length i d
              ≫= λ s', for_ starts s' (LMDataset_body c2i dataset max_length)).
    rewrite bind_Return. split.
    + intros (d1 & Hd1 & Hrest).
      apply LMDataset_body_Return in Hd1 as (w & Hw & ->).
      apply IH in Hrest as (ws & Hws & ->). simpl.
      exists (w :: ws). split; [by constructor|].
      simpl. by rewrite <- !app_assoc.
    + intros (ws & Hws & ->).
      inversion Hws as [|? w ? ws' Hw Hws']; subst.
      eexists. split.
      { apply LMDataset_body_Return. by exists w. }
      apply IH. exists ws'. split; [done|].
      simpl. by rewrite <- !app_assoc.
Qed.

(** The start indices of the windows. *)
Definition window_starts : list nat :=
  (λ k, k * max_length)
    <$> seq 0 (range_count 0 (Z.of_nat (length dataset)
                              - Z.of_nat max_length - 2) max_length).

Lemma LMDataset_init_Return d :
  LMDataset_init c2i dataset max_length = Return d ↔
  0 < max_length
  ∧ ∃ ws, Forall2 (λ i w, encodes (slice dataset i (i + max_length + 1)) w)
                  window_starts ws
      ∧ d = mkLMDataset (all_but_last <$> ws) (all_but_first <$> ws).
Proof.
  unfold LMDataset_init. destruct (decide (max_length = 0)) as [->|Hpos].
  - simpl. split; [done | lia].
  - rewrite range_spec by lia. simpl.
    rewrite LMDataset_loop_Return. simpl.
    split; [intros H; split; [lia | done] | by intros [_ H]].
Qed.

Lemma window_starts_lookup k i :
  0 < max_length →
  window_starts !! k = Some i ↔
  i = k * max_length ∧ i + max_length + 2 < length dataset.
Proof.
  intros Hpos. unfold window_starts.
  rewrite list_lookup_fmap, fmap_Some. setoid_rewrite lookup_seq.
  pose proof (range_count_lt k (Z.of_nat (length dataset)
                                - Z.of_nat max_length - 2) max_length Hpos).
  split.
  - intros (k' & [-> Hk] & ->). simpl in *. split; [done | lia].
  - intros [-> Hi]. exists k. simpl. split; [split; [done | lia] | done].
Qed.

Lemma length_window_starts :
  0 < max_length →
  length window_starts
    = if length dataset <? max_length + 3 then 0
      else (length dataset - max_length - 3) / max_length + 1.
Proof.
  intros Hpos. unfold window_starts.
  rewrite length_fmap, length_seq. by apply window_count.
Qed.

(** The shape of one window that fits into the text. *)
Lemma window_split i w :
  i + max_length + 2 < length dataset →
  encodes (slice dataset i (i + max_length + 1)) w →
  encodes (slice dataset i (i + max_length)) (all_but_last w)
  ∧ encodes (slice dataset (i + 1) (i + max_length + 1)) (all_but_first w)
  ∧ length (all_but_last w) = max_length
  ∧ length (all_but_first w) = max_length
  ∧ ∀ j, j + 1 < max_length →
      all_but_first w !! j = all_but_last w !! (j + 1).
Proof.
  intros Hi Hw.
  assert (length w = max_length + 1) as Hlen.
  { rewrite <- (Forall2_length _ _ _ Hw). unfold slice.
    rewrite length_take, length_drop. lia. }
  unfold all_but_last, all_but_first. rewrite Hlen.
  replace (max_length + 1 - 1) with max_length by lia.
  split_and!.
  - replace (slice dataset i (i + max_length))
      with (take max_length (slice dataset i (i + max_length + 1))).
    { by apply Forall2_take. }
    unfold slice. rewrite take_take. f_equal. lia.
  - replace (slice dataset (i + 1) (i + max_length + 1))
      with (drop 1 (slice dataset i (i + max_length + 1))).
    { by apply Forall2_drop. }
    unfold slice.
    replace (i + max_length + 1 - i) with (1 + max_length) by lia.
    replace (i + max_length + 1 - (i + 1)) with max_length by lia.
    rewrite <- take_drop_commute, drop_drop. done.
  - rewrite length_take. lia.
  - rewrite length_drop. lia.
  - intros j Hj. rewrite lookup_drop, lookup_take_lt by lia.
    f_equal. lia.
Qed.

End Dataset.

(** The number of windows as the specification words it: one window per
    start [i] with [i + L + 2 <= N]. *)
Definition claimed_windows (N L : nat) : nat :=
  if N <? L + 2 then 0 else (N - L - 2) / L + 1.

Section DatasetClaims.
Context (c2i : gmap N nat) (dataset : list N) (max_length : nat).

Lemma LMDataset_init_known :
  0 < max_length → (∀ c, c ∈ dataset → is_Some (c2i !! c)) →
  ∃ d, LMDataset_init c2i dataset max_length = Return d.
Proof.
  intros Hpos Hknown. eexists. apply LMDataset_init_Return. split; [done|].
  exists ((λ i, (λ c, default 0 (c2i !! c))
                  <$> slice dataset i (i + max_length + 1))
          <$> window_starts dataset max_length).
  split; [|done].
  apply Forall2_fmap_r, Forall_Forall2_diag, Forall_forall. intros i _.
  apply encode_known. intros c Hc. apply Hknown.
  unfold slice in Hc. by apply subseteq_take, subseteq_drop in Hc.
Qed.

(** C1, as the code has it: the constructor yields one example for every
    start [k * L] with [k * L + L + 2 < N], that is
    [(N - L - 3) / L + 1] examples when [N >= L + 3] and none for a
    shorter text; it returns for a positive window length whenever every
    character of the text is in the mapping. *)
Theorem window_count_code :
  (∀ d, LMDataset_init c2i dataset max_length = Return d →
     LMDataset_len d
       = (if length dataset <? max_length + 3 then 0
          else (length dataset - max_length - 3) / max_length + 1)
     ∧ ∀ k, k < LMDataset_len d
            ↔ k * max_length + max_length + 2 < length dataset)
  ∧ (0 < max_length → (∀ c, c ∈ dataset → is_Some (c2i !! c)) →
     ∃ d, LMDataset_init c2i dataset max_length = Return d).
Proof.
  split; [|apply LMDataset_init_known].
  intros d (Hpos & ws & Hws & ->)%LMDataset_init_Return.
  unfold LMDataset_len. simpl. rewrite length_fmap.
  rewrite <- (Forall2_length _ _ _ Hws). split.
  - by apply length_window_starts.
  - intros k. rewrite <- lookup_lt_is_Some. unfold is_Some.
    setoid_rewrite window_starts_lookup; [|done].
    split; [by intros (i & -> & H) | intros H; by eexists].
Qed.

(** C4: in every example the dataset holds, the input encodes
    [text[i : i+L]] and the target encodes [text[i+1 : i+L+1]] for the
    start [i = k * L] of the window, both have length [L], and the target
    at [j] is the input at [j + 1]. *)
Theorem window_target_shift :
  (∀ d k x y,
     LMDataset_init c2i dataset max_length = Return d →
     LMDataset_getitem d k = Return (x, y) →
     encodes c2i (slice dataset (k * max_length)
                        (k * max_length + max_length)) x
     ∧ encodes c2i (slice dataset (k * max_length + 1)
                          (k * max_length + max_length + 1)) y
     ∧ length x = max_length ∧ length y = max_length
     ∧ ∀ j, j + 1 < max_length → y !! j = x !! (j + 1))
  ∧ (∀ d k,
     LMDataset_init c2i dataset max_length = Return d →
     k < LMDataset_len d → ∃ x y, LMDataset_getitem d k = Return (x, y))
  ∧ (0 < max_length → (∀ c, c ∈ dataset → is_Some (c2i !! c)) →
     ∃ d, LMDataset_init c2i dataset max_length = Return d).
Proof.
  split_and!; [| |apply LMDataset_init_known].
  - intros d k x y (Hpos & ws & Hws & ->)%LMDataset_init_Return Hget.
    unfold LMDataset_getitem, list_getitem in Hget. simpl in Hget.
    rewrite !list_lookup_fmap in Hget.
    destruct (ws !! k) as [w|] eqn:Hw; simpl in Hget; [|done].
    injection Hget as <- <-.
    destruct (Forall2_lookup_r _ _ _ _ _ Hws Hw) as (i & Hi & Henc).
    apply window_starts_lookup in Hi as [-> Hi]; [|done].
    by apply window_split.
  - intros d k (Hpos & ws & Hws & ->)%LMDataset_init_Return Hk.
    unfold LMDataset_len in Hk. simpl in Hk. rewrite length_fmap in Hk.
    apply lookup_lt_is_Some in Hk as [w Hw].
    exists (all_but_last w), (all_but_first w).
    unfold LMDataset_getitem, list_getitem. simpl.
    by rewrite !list_lookup_fmap, Hw.
Qed.

End DatasetClaims.

(** C1 as stated fails: a text of five characters with windows of length
    three holds no example, where the stated count is one. *)
Lemma window_count_claim_fails :
  LMDataset_init (dict_of_enumerate (text_of "abcde")) (text_of "abcde") 3
    = Return (mkLMDataset [] [])
  ∧ LMDataset_len (mkLMDataset [] []) ≠ claimed_windows 5 3.
Proof. split; [by vm_compute | by vm_compute]. Qed.

Example windows_of_nine :
  LMDataset_init (dict_of_enumerate (text_of "abc")) (text_of "abcabcabc") 3
    = Return (mkLMDataset [[0; 1; 2]; [0; 1; 2]] [[1; 2; 0]; [1; 2; 0]]).
Proof. by vm_compute. Qed.

(** ** The sequence model *)

Section Model.
Context {fw : Framework} (m : LstmLM fw).

Lemma Qcdiv_1_r (v : Qc) : (v / 1)%Qc = v.
Proof. field. discriminate. Qed.

Lemma float_div_finite (v t : Qc) : t ≠ 0%Qc → float_div v t = Finite (v / t)%Qc.
Proof. intros Ht. unfold float_div. by destruct (decide (t = 0%Qc)). Qed.

Lemma float_div_1 (v : Qc) : float_div v 1 = Finite v.
Proof. rewrite float_div_finite by discriminate. by rewrite Qcdiv_1_r. Qed.

Lemma finite_row_fmap (qs : list Qc) : finite_row (Finite <$> qs) = Some qs.
Proof.
  induction qs as [|q qs IH]; [done|].
  change (finite_row (Finite <$> q :: qs))
    with ((q ::.) <$> finite_row (Finite <$> qs)).
  by rewrite IH.
Qed.

Lemma finite_row_Some (l : list pyfloat) qs :
  finite_row l = Some qs ↔ l = Finite <$> qs.
Proof.
  split; [|intros ->; apply finite_row_fmap].
  revert qs. induction l as [|[q| | |] l IH]; intros qs; simpl; try done.
  - by intros [= <-].
  - destruct (finite_row l) as [qs'|]; [|done]. intros [= <-].
    simpl. f_equal. by apply IH.
Qed.

Lemma float_softmax_finite (qs : list Qc) :
  float_softmax fw (Finite <$> qs) = Finite <$> softmax fw qs.
Proof. unfold float_softmax. by rewrite finite_row_fmap. Qed.

Lemma div_temperature_1 (o3 : tensor (list Qc)) :
  div_temperature 1 o3 = floats o3.
Proof.
  unfold div_temperature, floats.
  assert (∀ l : list Qc, map (λ v, float_div v 1) l = map Finite l) as Hrow.
  { intros l. apply list_fmap_ext. intros _ v _. apply float_div_1. }
  destruct o3 as [v|b]; simpl; f_equal.
  - apply list_fmap_ext. intros _ l _. apply Hrow.
  - apply list_fmap_ext. intros _ r _. simpl.
    apply list_fmap_ext. intros _ l _. apply Hrow.
Qed.

Lemma tmap_tmap {A B C : Type} (f : A → B) (g : B → C) (t : tensor A) :
  tmap g (tmap f t) = tmap (g ∘ f) t.
Proof.
  destruct t as [v|b]; simpl; f_equal.
  - by rewrite <- list_fmap_compose.
  - rewrite <- list_fmap_compose. apply list_fmap_ext. intros _ r _.
    simpl. by rewrite <- list_fmap_compose.
Qed.

Lemma tmap_ext {A B : Type} (f g : A → B) (t : tensor A) :
  (∀ a, f a = g a) → tmap f t = tmap g t.
Proof.
  intros Hfg. destruct t as [v|b]; simpl; f_equal.
  - apply list_fmap_ext. auto.
  - apply list_fmap_ext. intros _ r _. apply list_fmap_ext. auto.
Qed.

Lemma LstmLM_predict_outputs (x : tensor nat)
    (states : option (list (lstm_state fw))) (temperature : Qc) :
  LstmLM_predict m x states temperature
    = (o1 ← embedding m x ;
       o2 ← lstm m o1 states ;
       Return (tmap (λ h, float_softmax fw ((λ v, float_div v temperature)
                                              <$> linear fw (weights m) h))
                    o2.1,
               o2.2)).
Proof.
  unfold LstmLM_predict.
  destruct (embedding m x) as [o1|e]; [simpl|done].
  destruct (lstm m o1 states) as [[o st]|e]; [simpl|done].
  f_equal. f_equal. unfold fc.
  destruct (decide (temperature = 1%Qc)) as [->|_].
  - rewrite <- (div_temperature_1 (tmap _ o)).
    unfold div_temperature. by rewrite !tmap_tmap.
  - unfold div_temperature. by rewrite !tmap_tmap.
Qed.

Lemma LstmLM_predict_finite (x : tensor nat)
    (states : option (list (lstm_state fw))) (temperature : Qc) :
  temperature ≠ 0%Qc →
  LstmLM_predict m x states temperature
    = (o1 ← embedding m x ;
       o2 ← lstm m o1 states ;
       Return (tmap (λ h, Finite <$> softmax fw ((λ v, v / temperature)%Qc
                                                   <$> linear fw (weights m) h))
                    o2.1,
               o2.2)).
Proof.
  intros Ht. rewrite LstmLM_predict_outputs.
  destruct (embedding m x) as [o1|e]; [simpl|done].
  destruct (lstm m o1 states) as [[o st]|e]; [simpl|done].
  f_equal. f_equal. apply tmap_ext. intros h.
  rewrite <- float_softmax_finite. f_equal.
  rewrite <- list_fmap_compose. apply list_fmap_ext. intros _ v _.
  by apply float_div_finite.
Qed.

Lemma LstmLM_forward_outputs (x : tensor nat) :
  LstmLM_forward m x
    = (o1 ← embedding m x ;
       o2 ← lstm m o1 None ;
       Return (tmap (λ h, log_softmax fw (linear fw (weights m) h)) o2.1)).
Proof.
  unfold LstmLM_forward.
  destruct (embedding m x) as [o1|e]; [simpl|done].
  destruct (lstm m o1 None) as [[o st]|e]; [simpl|done].
  f_equal. unfold fc. by rewrite tmap_tmap.
Qed.

(** C7: [predict] is the softmax of the logits divided by the temperature
    at every position, for every temperature (1 included, where the
    division is skipped), together with the state the recurrent layer
    returns; for a temperature other than zero the quotients are finite and
    the result is the softmax of the framework on them.  [forward] is the
    log-softmax of the logits, from the zero state and with no scaling. *)
Theorem predict_and_forward_outputs (x : tensor nat)
    (states : option (list (lstm_state fw))) (temperature : Qc) :
  LstmLM_predict m x states temperature
    = (o1 ← embedding m x ;
       o2 ← lstm m o1 states ;
       Return (tmap (λ h, float_softmax fw ((λ v, float_div v temperature)
                                              <$> linear fw (weights m) h))
                    o2.1,
               o2.2))
  ∧ (temperature ≠ 0%Qc →
     LstmLM_predict m x states temperature
       = (o1 ← embedding m x ;
          o2 ← lstm m o1 states ;
          Return (tmap (λ h, Finite <$> softmax fw
                               ((λ v, v / temperature)%Qc
                                  <$> linear fw (weights m) h))
                       o2.1,
                  o2.2)))
  ∧ LstmLM_forward m x
    = (o1 ← embedding m x ;
       o2 ← lstm m o1 None ;
       Return (tmap (λ h, log_softmax fw (linear fw (weights m) h)) o2.1)).
Proof.
  split_and!; [apply LstmLM_predict_outputs | apply LstmLM_predict_finite
              | apply LstmLM_forward_outputs].
Qed.

End Model.

(** ** Programs with state *)

Lemma prog_bind_Return {S A B : Type} (m : prog S A) (k : A → prog S B) s b s' :
  (m ≫= k) s = Return (b, s') ↔
  ∃ a s1, m s = Return (a, s1) ∧ k a s1 = Return (b, s').
Proof.
  unfold mbind, prog_bind. destruct (m s) as [[a s1]|e]; split.
  - intros H. by exists a, s1.
  - by intros (a' & s1' & [= -> ->] & H).
  - done.
  - by intros (a' & s1' & H & _).
Qed.

Lemma prog_bind_Raise {S A B : Type} (m : prog S A) (k : A → prog S B) s e :
  m s = Raise e → (m ≫= k) s = Raise e.
Proof. unfold mbind, prog_bind. by intros ->. Qed.

Lemma prog_bind_step {S A B : Type} (m : prog S A) (k : A → prog S B) s a s1 :
  m s = Return (a, s1) → (m ≫= k) s = k a s1.
Proof. unfold mbind, prog_bind. by intros ->. Qed.

Lemma lift_Return {S A : Type} (r : result A) (s : S) a s' :
  lift r s = Return (a, s') ↔ r = Return a ∧ s' = s.
Proof.
  unfold lift. destruct r as [a'|e]; split.
  - by intros [= -> ->].
  - by intros [[= ->] ->].
  - done.
  - by intros [? _].
Qed.

Lemma on_snd_Return {S1 S2 A : Type} (m : prog S2 A) (s : S1 * S2) a s' :
  on_snd m s = Return (a, s') ↔
  ∃ s2, m s.2 = Return (a, s2) ∧ s' = (s.1, s2).
Proof.
  unfold on_snd. destruct (m s.2) as [[a' s2]|e].
  - split; [intros [= -> <-]; by exists s2 | by intros (? & [= -> ->] & ->)].
  - split; [done | by intros (? & ? & _)].
Qed.

Lemma foldM_cons {S A B : Type} (body : B → A → prog S B) acc x l :
  foldM body acc (x :: l) = body acc x ≫= λ acc', foldM body acc' l.
Proof. done. Qed.

Lemma foldM_app {S A B : Type} (body : B → A → prog S B) acc l1 l2 s :
  foldM body acc (l1 ++ l2) s
    = (foldM body acc l1 ≫= λ acc', foldM body acc' l2) s.
Proof.
  revert acc s. induction l1 as [|x l1 IH]; intros acc s; [done|].
  simpl. unfold mbind, prog_bind.
  destruct (body acc x s) as [[a s1]|e]; [|done]. apply IH.
Qed.

(** ** Tensors of the same shape *)

Definition same_shape {A B : Type} (t : tensor A) (u : tensor B) : Prop :=
  match t, u with
  | T1 v, T1 w => length v = length w
  | T2 m, T2 n => Forall2 (λ a b, length a = length b) m n
  | _, _ => False
  end.

Section Shapes.
Context {A B C : Type}.

Lemma zip_same_Return (f : A → B → C) l k r :
  zip_same f l k = Return r ↔ length l = length k ∧ r = zip_with f l k.
Proof.
  revert k r. induction l as [|a l IH]; intros [|b k] r; simpl;
    try (split; [done | by intros [? _]]).
  - split; [by intros [= <-] | by intros [_ ->]].
  - rewrite bind_Return. setoid_rewrite IH. split.
    + intros (r' & [Hlen ->] & [= <-]). by rewrite Hlen.
    + intros [[= Hlen] ->]. by eexists.
Qed.

Lemma zip_rows_Return (f : A → B → C) l k r :
  zip_rows f l k = Return r ↔
  Forall2 (λ a b, length a = length b) l k ∧ r = zip_with (zip_with f) l k.
Proof.
  revert k r. induction l as [|a l IH]; intros [|b k] r; simpl;
    try (split; [done | intros [H _]; inversion H]).
  - split; [intros [= <-]; by split | by intros [_ ->]].
  - rewrite bind_Return. setoid_rewrite bind_Return.
    setoid_rewrite zip_same_Return. setoid_rewrite IH. split.
    + intros (r1 & [Hlen ->] & rs & [Hall ->] & [= <-]).
      split; [by constructor | done].
    + intros [Hall ->]. inversion Hall; subst.
      eexists. split; [done|]. eexists. split; [done|]. done.
Qed.

Lemma concat_zip_rows (f : A → B → C) (l : list (list A)) (k : list (list B)) :
  Forall2 (λ a b, length a = length b) l k →
  concat (zip_with (zip_with f) l k) = zip_with f (concat l) (concat k).
Proof.
  induction 1 as [|a b l k Hlen _ IH]; [done|]. simpl.
  rewrite IH. by rewrite zip_with_app.
Qed.

Lemma same_shape_positions (t : tensor A) (u : tensor B) :
  same_shape t u → length (positions t) = length (positions u).
Proof.
  destruct t as [v|m], u as [w|n]; simpl; try done.
  induction 1 as [|a b l k Hlen _ IH]; [done|].
  simpl. rewrite !length_app. lia.
Qed.

Lemma tzip_Return (f : A → B → C) t u r :
  tzip f t u = Return r →
  same_shape t u ∧ same_shape t r
  ∧ positions r = zip_with f (positions t) (positions u).
Proof.
  destruct t as [v|m], u as [w|n]; simpl; try done.
  - intros (r' & [Hlen ->]%zip_same_Return & [= <-])%bind_Return. simpl.
    split_and!; [done| |done]. rewrite length_zip_with. lia.
  - intros (r' & [Hall ->]%zip_rows_Return & [= <-])%bind_Return. simpl.
    split_and!; [done| |by apply concat_zip_rows].
    clear -Hall. induction Hall as [|a b l k Hlen _ IH]; constructor; [|done].
    rewrite length_zip_with. lia.
Qed.

Lemma tzip_same_shape (f : A → B → C) t u :
  same_shape t u → ∃ r, tzip f t u = Return r.
Proof.
  destruct t as [v|m], u as [w|n]; simpl; try done.
  - intros Hlen. eexists. apply bind_Return. eexists.
    split; [by apply zip_same_Return | done].
  - intros Hall. eexists. apply bind_Return. eexists.
    split; [by apply zip_rows_Return | done].
Qed.

End Shapes.

Lemma same_shape_tmap_l {A A' B : Type} (f : A → A') (t : tensor A) (u : tensor B) :
  same_shape (tmap f t) u ↔ same_shape t u.
Proof.
  destruct t as [v|m], u as [w|n]; simpl; try done.
  - by rewrite length_map.
  - rewrite Forall2_fmap_l.
    split; intros H; (eapply Forall2_impl; [exact H|]); intros a b; simpl;
      by rewrite length_map.
Qed.

Lemma same_shape_sym {A B : Type} (t : tensor A) (u : tensor B) :
  same_shape t u → same_shape u t.
Proof.
  destruct t as [v|m], u as [w|n]; simpl; try done.
  intros H. apply Forall2_flip. eapply Forall2_impl; [exact H|]. done.
Qed.

Lemma same_shape_trans {A B C : Type} (t : tensor A) (u : tensor B) (v : tensor C) :
  same_shape t u → same_shape u v → same_shape t v.
Proof.
  destruct t as [a|m], u as [b|n], v as [c|o]; simpl; try done.
  - congruence.
  - intros H1 H2. eapply Forall2_trans; [|exact H1|exact H2].
    simpl. congruence.
Qed.

Lemma positions_tmap {A B : Type} (f : A → B) (t : tensor A) :
  positions (tmap f t) = f <$> positions t.
Proof.
  destruct t as [v|m]; simpl; [done|].
  induction m as [|r m IH]; [done|]. simpl. by rewrite IH, fmap_app.
Qed.

(** ** Masked counts and sums, as the specification words them *)

(** The number of token indices strictly greater than zero. *)
Definition valid_tokens (tokens : tensor nat) : nat :=
  length (filter (λ i, 0 < i) (positions tokens)).

(** The sum of the per-position losses over the positions whose token index
    is strictly greater than zero. *)
Definition masked_sum (losses : tensor Qc) (tokens : tensor nat) : Qc :=
  Qcsum (zip_with (λ l i, if 0 <? i then l else 0%Qc)
                  (positions losses) (positions tokens)).

(** The number of positions with a token index greater than zero at which
    the most probable class is the target. *)
Definition valid_hits (output : tensor (list Qc)) (tokens target : tensor nat)
  : nat :=
  length (filter (λ p, argmax p.1.1 = p.2 ∧ 0 < p.1.2)
                 (zip (zip (positions output) (positions tokens))
                      (positions target))).

(** What one batch contributes to the three accumulators of [validate]. *)
Definition batch_stats {fw : Framework} (t : Trainer fw)
    (batch : tensor nat * tensor nat) : result (nat * Qc * nat) :=
  output ← LstmLM_forward (model t) batch.1 ;
  losses ← loss_fn t output batch.2 ;
  Return (valid_tokens batch.1, masked_sum losses batch.1,
          valid_hits output batch.1 batch.2).

Section Masking.

Lemma count_true_cons (b : bool) (l : list bool) :
  count_true (b :: l) = (if b then 1 else 0) + count_true l.
Proof.
  unfold count_true. rewrite filter_cons.
  destruct b; case_decide; simpl; congruence.
Qed.

Lemma count_true_gt0 (l : list nat) :
  count_true ((λ i, 0 <? i) <$> l) = length (filter (λ i, 0 < i) l).
Proof.
  induction l as [|i l IH]; [done|].
  rewrite fmap_cons, count_true_cons, filter_cons, IH.
  destruct (Nat.ltb_spec 0 i); case_decide; simpl; lia.
Qed.

Lemma tcount_gt0 (tokens : tensor nat) :
  tcount (gt0 tokens) = Z.of_nat (valid_tokens tokens).
Proof.
  unfold tcount, gt0, valid_tokens. by rewrite positions_tmap, count_true_gt0.
Qed.

Lemma zip_mul_mask (ls : list Qc) (toks : list nat) :
  zip_with mul_mask ls ((λ i, 0 <? i) <$> toks)
    = zip_with (λ l i, if 0 <? i then l else 0%Qc) ls toks.
Proof.
  revert toks. induction ls as [|l ls IH]; intros [|i toks]; simpl; try done.
  rewrite IH. f_equal. unfold mul_mask.
  destruct (0 <? i); [apply Qcmult_1_r | apply Qcmult_0_r].
Qed.

Lemma count_masked_hits (outs : list (list Qc)) (toks tgts : list nat) :
  length outs = length tgts → length outs = length toks →
  count_true (zip_with andb
                (zip_with (λ a b, bool_decide (a = b)) (argmax <$> outs) tgts)
                ((λ i, 0 <? i) <$> toks))
    = length (filter (λ p, argmax p.1.1 = p.2 ∧ 0 < p.1.2)
                     (zip (zip outs toks) tgts)).
Proof.
  revert toks tgts.
  induction outs as [|o outs IH]; intros [|i toks] [|g tgts]; try done.
  intros [= H1] [= H2]. rewrite !fmap_cons. cbn [zip_with].
  rewrite count_true_cons, filter_cons, (IH toks tgts H1 H2). simpl.
  destruct (Nat.ltb_spec 0 i); case_bool_decide; case_decide; simpl;
    try lia; tauto.
Qed.

Lemma valid_hits_le output tokens target :
  length (positions output) = length (positions tokens) →
  valid_hits output tokens target ≤ valid_tokens tokens.
Proof.
  unfold valid_hits, valid_tokens.
  generalize (positions target) as tgts.
  generalize (positions tokens) as toks.
  induction (positions output) as [|o outs IH]; intros toks tgts Hlen.
  - simpl. lia.
  - destruct toks as [|i toks]; [done|]. injection Hlen as Hlen.
    destruct tgts as [|g tgts]; [simpl; lia|].
    specialize (IH toks tgts Hlen). cbn [zip zip_with].
    rewrite !filter_cons. simpl.
    repeat case_decide; simpl; try lia; tauto.
Qed.

Lemma masked_sum_no_valid losses tokens :
  valid_tokens tokens = 0 → masked_sum losses tokens = 0%Qc.
Proof.
  unfold valid_tokens, masked_sum.
  generalize (positions losses). induction (positions tokens) as [|i toks IH];
    intros ls H.
  - by destruct ls.
  - rewrite filter_cons in H. destruct (decide (0 < i)) as [|Hi]; [done|].
    destruct ls as [|l ls]; [done|]. simpl.
    replace (0 <? i) with false by (symmetry; apply Nat.ltb_ge; lia).
    rewrite (IH ls H). ring.
Qed.

End Masking.

(** ** The forward pass on a batch *)

(** The log-probabilities of one sequence read from the zero state. *)
Definition row_log_probs {fw : Framework} (m : LstmLM fw) (row : list nat)
  : list (list Qc) :=
  (λ h, log_softmax fw (linear fw (weights m) h))
    <$> (lstm_seq (weights m) (embedding_row fw (weights m) <$> row)
                  (zero_state fw (weights m))).1.

Section Forward.
Context {fw : Framework} (m : LstmLM fw).

Lemma length_lstm_seq (p : params fw) xs s :
  length (lstm_seq p xs s).1 = length xs.
Proof.
  revert s. induction xs as [|x xs IH]; intros s; [done|]. simpl.
  destruct (lstm_cell fw p x s) as [h s'].
  specialize (IH s'). destruct (lstm_seq p xs s') as [hs s'']. simpl in *.
  by rewrite IH.
Qed.

Lemma length_row_log_probs row : length (row_log_probs m row) = length row.
Proof.
  unfold row_log_probs. by rewrite length_fmap, length_lstm_seq, length_fmap.
Qed.

Lemma embedding_lookup_Return i v :
  embedding_lookup m i = Return v ↔
  i < num_embeddings m ∧ v = embedding_row fw (weights m) i.
Proof.
  unfold embedding_lookup. destruct (Nat.ltb_spec i (num_embeddings m)); split.
  - by intros [= <-].
  - by intros [_ ->].
  - done.
  - intros [? _]. lia.
Qed.

Lemma embedding_row_Return row r :
  comprehension (embedding_lookup m) row = Return r ↔
  Forall (λ i, i < num_embeddings m) row
  ∧ r = embedding_row fw (weights m) <$> row.
Proof.
  rewrite comprehension_Return. revert r.
  induction row as [|i row IH]; intros r.
  - split; [inversion 1; by split | intros [_ ->]; constructor].
  - split.
    + inversion 1 as [|? v ? r' Hv Hr]; subst.
      apply embedding_lookup_Return in Hv as [Hi ->].
      apply IH in Hr as [Hrow ->]. split; [by constructor | done].
    + intros [Hall ->]. inversion Hall; subst. rewrite fmap_cons.
      constructor; [by apply embedding_lookup_Return | by apply IH].
Qed.

Lemma embedding_batch_Return (b : list (list nat))
    (r : list (list (list Qc))) :
  comprehension (comprehension (embedding_lookup m)) b = Return r ↔
  Forall (Forall (λ i, i < num_embeddings m)) b
  ∧ r = (λ row : list nat, embedding_row fw (weights m) <$> row) <$> b.
Proof.
  rewrite comprehension_Return. revert r.
  induction b as [|row b IH]; intros r.
  - split; [inversion 1; by split | intros [_ ->]; constructor].
  - split.
    + inversion 1 as [|? v ? r' Hv Hr]; subst.
      apply embedding_row_Return in Hv as [Hi ->].
      apply IH in Hr as [Hrow ->]. split; [by constructor | done].
    + intros [Hall ->]. inversion Hall; subst. rewrite fmap_cons.
      constructor; [by apply embedding_row_Return | by apply IH].
Qed.

Lemma zip_same_replicate {A B C : Type} (f : A → B → C) (l : list A) (b : B) :
  zip_same f l (replicate (length l) b) = Return ((λ a, f a b) <$> l).
Proof.
  induction l as [|a l IH]; [done|]. simpl. by rewrite IH.
Qed.

Lemma no_step_false {A : Type} (v : list A) : no_step v = false ↔ v ≠ [].
Proof. by destruct v. Qed.

Lemma no_step_fmap {A B : Type} (f : A → B) (v : list A) :
  no_step (f <$> v) = no_step v.
Proof. by destruct v. Qed.

Lemma existsb_no_step {A : Type} (b : list (list A)) :
  existsb no_step b = false ↔ Forall (λ r, r ≠ []) b.
Proof.
  induction b as [|r b IH]; [by split; [constructor|]|]. simpl.
  rewrite orb_false_iff, IH, Forall_cons, no_step_false. done.
Qed.

Lemma existsb_no_step_true {A : Type} (b : list (list A)) :
  existsb no_step b = true ↔ Exists (λ r, r = []) b.
Proof.
  induction b as [|r b IH]; simpl.
  - split; [done | by intros ?%Exists_nil].
  - rewrite orb_true_iff, IH, Exists_cons.
    destruct r; simpl; split; (intros [|]; [by left || done | by right]).
Qed.

Lemma existsb_no_step_fmap {A B : Type} (f : A → B) (b : list (list A)) :
  existsb no_step ((λ r : list A, f <$> r) <$> b) = existsb no_step b.
Proof.
  induction b as [|r b IH]; [done|]. rewrite fmap_cons. cbn [existsb].
  by rewrite no_step_fmap, IH.
Qed.

(** The forward pass of a batch returns exactly when every token index is
    inside the embedding table and no sequence is empty; every sequence is
    then read on its own. *)
Lemma forward_batch_Return (b : list (list nat)) out :
  LstmLM_forward m (T2 b) = Return out ↔
  Forall (Forall (λ i, i < num_embeddings m)) b
  ∧ Forall (λ r, r ≠ []) b
  ∧ out = T2 (row_log_probs m <$> b).
Proof.
  unfold LstmLM_forward, embedding, tmapM.
  rewrite bind_Return.
  assert (∀ e : list (list (list Qc)), existsb no_step e = false →
    lstm m (T2 e) None ≫= (λ o2, Return (tmap (log_softmax fw) (fc m o2.1)))
    = Return (T2 ((λ r, (λ h, log_softmax fw (linear fw (weights m) h))
                   <$> (lstm_seq (weights m) r (zero_state fw (weights m))).1)
                  <$> e))) as Hl.
  { intros e He. unfold lstm. rewrite He. simpl.
    rewrite zip_same_replicate. simpl.
    f_equal. f_equal. rewrite <- !list_fmap_compose.
    apply list_fmap_ext. intros _ r _. simpl.
    by rewrite <- list_fmap_compose. }
  split.
  - intros (o1 & Ho1 & Hf).
    apply bind_Return in Ho1 as (r & [Hall ->]%embedding_batch_Return & Ho1).
    injection Ho1 as <-. split; [done|].
    destruct (existsb no_step b) eqn:Hb.
    { unfold lstm in Hf. by rewrite existsb_no_step_fmap, Hb in Hf. }
    split; [by apply existsb_no_step|].
    rewrite Hl in Hf by (by rewrite existsb_no_step_fmap).
    injection Hf as <-. f_equal.
    by rewrite <- list_fmap_compose.
  - intros (Hall & Hne%existsb_no_step & ->). eexists. split.
    { apply bind_Return. eexists.
      split; [apply embedding_batch_Return; split; [done|reflexivity] | done]. }
    rewrite Hl by (by rewrite existsb_no_step_fmap).
    f_equal. f_equal. by rewrite <- list_fmap_compose.
Qed.

Lemma forward_batch_shape (b : list (list nat)) out :
  LstmLM_forward m (T2 b) = Return out → same_shape (T2 b) out.
Proof.
  intros (_ & _ & ->)%forward_batch_Return. simpl.
  apply Forall2_fmap_r, Forall_Forall2_diag, Forall_forall. intros row _.
  simpl. by rewrite length_row_log_probs.
Qed.

(** The mode of the module changes nothing in what it computes. *)
Lemma LstmLM_forward_set_mode (mode : bool) x :
  LstmLM_forward (LstmLM_set_mode mode m) x = LstmLM_forward m x.
Proof. done. Qed.

Lemma LstmLM_predict_set_mode (mode : bool) x states temperature :
  LstmLM_predict (LstmLM_set_mode mode m) x states temperature
  = LstmLM_predict m x states temperature.
Proof. done. Qed.

End Forward.

(** ** One pass of [validate] over given batches *)

Section ValidateLoop.
Context {fw : Framework} (t : Trainer fw).

Lemma Trainer_loss_Return output target (tokens : tensor nat) l :
  Trainer_loss t output target (gt0 tokens) = Return l ↔
  ∃ losses, loss_fn t output target = Return losses
    ∧ same_shape losses tokens
    ∧ l = masked_sum losses tokens.
Proof.
  unfold Trainer_loss. rewrite bind_Return. split.
  - intros (losses & Hl & Hm). exists losses. split; [done|].
    apply bind_Return in Hm as (ml & Hml & [= <-]).
    apply tzip_Return in Hml as (Hs & _ & Hp).
    split; [by apply same_shape_sym, same_shape_tmap_l, same_shape_sym in Hs|].
    unfold tsum, masked_sum. rewrite Hp. unfold gt0.
    by rewrite positions_tmap, zip_mul_mask.
  - intros (losses & Hl & Hs & ->). exists losses. split; [done|].
    destruct (tzip_same_shape mul_mask losses (gt0 tokens)) as [ml Hml].
    { by apply same_shape_sym, same_shape_tmap_l, same_shape_sym. }
    rewrite Hml. simpl. f_equal.
    apply tzip_Return in Hml as (_ & _ & Hp).
    unfold tsum, masked_sum. rewrite Hp. unfold gt0.
    by rewrite positions_tmap, zip_mul_mask.
Qed.

Lemma validate_step_Return acc b target acc' :
  validate_step t acc (T2 b, target) = Return acc' ↔
  ∃ output losses,
    LstmLM_forward (model t) (T2 b) = Return output
    ∧ loss_fn t output target = Return losses
    ∧ same_shape losses (T2 b)
    ∧ same_shape output target
    ∧ acc' = mkTotals
        (accum_add Z.add (tokens_count acc) (Z.of_nat (valid_tokens (T2 b))))
        (accum_add Qcplus (val_loss acc) (masked_sum losses (T2 b)))
        (accum_add Z.add (correct acc)
                   (Z.of_nat (valid_hits output (T2 b) target))).
Proof.
  unfold validate_step. rewrite bind_Return.
  assert (∀ output hits mh,
    same_shape (T2 b) output →
    tzip (λ a c, bool_decide (a = c)) (tmap argmax output) target = Return hits →
    tzip andb hits (gt0 (T2 b)) = Return mh →
    tcount mh = Z.of_nat (valid_hits output (T2 b) target)) as Hcount.
  { intros output hits mh Hshape Hh Hm.
    apply tzip_Return in Hh as (Hs1 & Hs2 & Hp1).
    apply tzip_Return in Hm as (Hs3 & _ & Hp2).
    unfold tcount, valid_hits. rewrite Hp2, Hp1. unfold gt0.
    rewrite !positions_tmap. f_equal. apply count_masked_hits.
    - apply same_shape_positions in Hs1. by rewrite positions_tmap, length_fmap in Hs1.
    - symmetry. by apply same_shape_positions. }
  split.
  - intros (output & Hf & Hrest). exists output.
    apply bind_Return in Hrest as (l & Hl & Hrest).
    apply Trainer_loss_Return in Hl as (losses & Hl & Hs & ->).
    apply bind_Return in Hrest as (hits & Hh & Hrest).
    apply bind_Return in Hrest as (mh & Hm & [= <-]).
    exists losses. split_and!; try done.
    + apply tzip_Return in Hh as (Hs1 & _). by apply same_shape_tmap_l in Hs1.
    + rewrite <- tcount_gt0.
      rewrite <- (Hcount output hits mh); [done| |done|done].
      by apply forward_batch_shape in Hf.
  - intros (output & losses & Hf & Hl & Hs & Hso & ->).
    exists output. split; [done|].
    assert (same_shape (T2 b) output) as Hbo by by apply forward_batch_shape in Hf.
    apply bind_Return. eexists. split.
    { apply Trainer_loss_Return. by exists losses. }
    destruct (tzip_same_shape (λ a c, bool_decide (a = c))
                (tmap argmax output) target) as [hits Hh].
    { by apply same_shape_tmap_l. }
    destruct (tzip_same_shape andb hits (gt0 (T2 b))) as [mh Hm].
    { pose proof Hh as (_ & Hs2 & _)%tzip_Return.
      apply same_shape_tmap_l in Hs2.
      apply same_shape_sym, same_shape_tmap_l.
      eapply same_shape_trans; [exact Hbo | exact Hs2]. }
    rewrite Hh, bind_Return_l. cbv beta. rewrite Hm, bind_Return_l.
    cbv beta. f_equal.
    rewrite <- tcount_gt0. by rewrite <- (Hcount output hits mh).
Qed.

(** Adding a list of contributions to an accumulator, one [+=] each. *)
Definition accum_adds {A : Type} (add : A → A → A) (acc : accum A) (l : list A)
  : accum A :=
  fold_left (accum_add add) l acc.

Lemma validate_totals_loop (batches : list (list (list nat) * tensor nat)) acc acc' :
  for_ ((λ b, (T2 b.1, b.2)) <$> batches) acc (λ b a, validate_step t a b)
    = Return acc' →
  ∃ stats,
    Forall2 (λ b s, batch_stats t (T2 b.1, b.2) = Return s
                    ∧ s.2 ≤ s.1.1
                    ∧ (s.1.1 = 0 → s.1.2 = 0%Qc)) batches stats
    ∧ tokens_count acc'
      = accum_adds Z.add (tokens_count acc) ((λ s, Z.of_nat s.1.1) <$> stats)
    ∧ val_loss acc' = accum_adds Qcplus (val_loss acc) ((λ s, s.1.2) <$> stats)
    ∧ correct acc'
      = accum_adds Z.add (correct acc) ((λ s, Z.of_nat s.2) <$> stats).
Proof.
  revert acc. induction batches as [|[b target] batches IH]; intros acc.
  - intros [= <-]. exists []. by split; [constructor|].
  - rewrite fmap_cons. simpl.
    intros (acc1 & Hstep & Hrest)%bind_Return.
    apply validate_step_Return in Hstep
      as (output & losses & Hf & Hl & Hs & Hso & ->).
    apply IH in Hrest as (stats & Hstats & Htc & Hvl & Hc). simpl in *.
    exists ((valid_tokens (T2 b), masked_sum losses (T2 b),
             valid_hits output (T2 b) target) :: stats).
    split_and!; try done.
    constructor; [|done]. simpl. split_and!.
    + unfold batch_stats. simpl. rewrite Hf. simpl. by rewrite Hl.
    + apply valid_hits_le. symmetry.
      apply same_shape_positions. by apply forward_batch_shape in Hf.
    + apply masked_sum_no_valid.
Qed.

End ValidateLoop.

(** ** One pass over a loader *)

Section Loader.

Lemma omap_lookup_seq {A : Type} (pre l : list A) :
  omap (λ i, (pre ++ l) !! i) (seq (length pre) (length l)) = l.
Proof.
  revert pre. induction l as [|x l IH]; intros pre; [done|].
  simpl. rewrite list_lookup_middle by done. f_equal.
  specialize (IH (pre ++ [x])). rewrite <- app_assoc in IH. simpl in IH.
  rewrite length_app in IH. simpl in IH.
  by replace (length pre + 1) with (S (length pre)) in IH by lia.
Qed.

Lemma Forall2_lookup_omap {A : Type} (l : list A) perm es :
  Forall2 (λ i e, l !! i = Some e) perm es → es = omap (λ i, l !! i) perm.
Proof.
  induction 1 as [|i e perm es Hi _ IH]; [done|].
  simpl. rewrite Hi. simpl. by rewrite IH.
Qed.

Lemma lookups_of_permutation {A : Type} (l : list A) perm es :
  perm ≡ₚ seq 0 (length l) →
  Forall2 (λ i e, l !! i = Some e) perm es → es ≡ₚ l.
Proof.
  intros Hperm ->%Forall2_lookup_omap.
  rewrite Hperm. pose proof (omap_lookup_seq [] l) as H.
  simpl in H. by rewrite H.
Qed.

Lemma concat_batched {A : Type} (fuel bs : nat) (l : list A) :
  0 < bs → length l ≤ fuel → concat (batched fuel bs l) = l.
Proof.
  intros Hbs. revert l. induction fuel as [|fuel IH]; intros l Hl.
  - destruct l; [done | simpl in Hl; lia].
  - destruct l as [|x l]; [done|].
    cbn [batched concat]. rewrite IH.
    + apply take_drop.
    + rewrite length_drop. simpl in *. lia.
Qed.

Lemma batched_nonempty {A : Type} (fuel bs : nat) (l : list A) :
  0 < fuel → batched fuel bs l = [] ↔ l = [].
Proof. destruct fuel; [lia|]. intros _. by destruct l. Qed.

Lemma LMDataset_getitem_Return d i e :
  LMDataset_getitem d i = Return e ↔ zip (xs d) (ys d) !! i = Some e.
Proof.
  destruct e as [x y]. rewrite lookup_zip_Some.
  unfold LMDataset_getitem, list_getitem.
  destruct (xs d !! i) as [x'|], (ys d !! i) as [y'|]; simpl;
    split; try done; try by intros [? ?].
  - by intros [= -> ->].
  - by intros [[= ->] [= ->]].
Qed.

Context {fw : Framework} (laws : FrameworkLaws fw).

(** A pass returns the examples of the dataset, each once, in the order of
    the permutation that was drawn, grouped by [batch_size]. *)
Lemma DataLoader_iter_Return (dl : DataLoader) (w : world fw) batches w' :
  DataLoader_iter dl w = Return (batches, w') →
  ∃ examples,
    examples ≡ₚ zip (xs (dl_dataset dl)) (ys (dl_dataset dl))
    ∧ length (xs (dl_dataset dl)) ≤ length (ys (dl_dataset dl))
    ∧ batches = collate <$> batched (length examples) (dl_batch_size dl) examples
    ∧ w' = mkWorld (randperm fw (LMDataset_len (dl_dataset dl)) (gen w)).2
                   (files w) (written w).
Proof.
  unfold DataLoader_iter.
  intros (perm & w1 & Hdraw & Hrest)%prog_bind_Return.
  apply prog_bind_Return in Hrest as (examples & w2 & Hex & Hret).
  apply lift_Return in Hex as [Hex ->].
  injection Hret as <- <-.
  unfold draw in Hdraw.
  pose proof (randperm_perm fw laws (LMDataset_len (dl_dataset dl)) (gen w))
    as Hperm.
  destruct (randperm fw (LMDataset_len (dl_dataset dl)) (gen w)) as [perm' g].
  injection Hdraw as Hp <-. subst perm'. simpl in *.
  apply comprehension_Return in Hex.
  assert (Forall2 (λ i e, zip (xs (dl_dataset dl)) (ys (dl_dataset dl)) !! i
                          = Some e) perm examples) as Hzip.
  { eapply Forall2_impl; [exact Hex|]. intros i e.
    apply LMDataset_getitem_Return. }
  assert (length (xs (dl_dataset dl)) ≤ length (ys (dl_dataset dl))) as Hlen.
  { unfold LMDataset_len in Hperm.
    destruct (decide (length (xs (dl_dataset dl)) = 0)) as [->|Hn]; [lia|].
    assert (length (xs (dl_dataset dl)) - 1 ∈ perm) as Hin.
    { rewrite Hperm, elem_of_seq. lia. }
    apply list_elem_of_lookup in Hin as [j Hj].
    destruct (Forall2_lookup_l _ _ _ _ _ Hzip Hj) as (e & _ & He).
    apply lookup_lt_Some in He. rewrite length_zip_with in He. lia. }
  exists examples. split_and!; try done.
  eapply lookups_of_permutation; [|exact Hzip].
  rewrite length_zip_with. unfold LMDataset_len in Hperm.
  by replace (length (xs (dl_dataset dl)) `min` length (ys (dl_dataset dl)))
    with (length (xs (dl_dataset dl))) by lia.
Qed.

Lemma DataLoader_iter_total (dl : DataLoader) (w : world fw) :
  length (xs (dl_dataset dl)) = length (ys (dl_dataset dl)) →
  ∃ batches w', DataLoader_iter dl w = Return (batches, w').
Proof.
  intros Hlen. unfold DataLoader_iter.
  pose proof (randperm_perm fw laws (LMDataset_len (dl_dataset dl)) (gen w))
    as Hperm.
  destruct (randperm fw (LMDataset_len (dl_dataset dl)) (gen w))
    as [perm g] eqn:Hr. simpl in Hperm.
  assert (∃ examples,
    comprehension (LMDataset_getitem (dl_dataset dl)) perm = Return examples)
    as [examples Hex].
  { exists ((λ i, default ([], []) (zip (xs (dl_dataset dl))
                                        (ys (dl_dataset dl)) !! i)) <$> perm).
    apply comprehension_total. intros i Hi.
    rewrite Hperm, elem_of_seq in Hi. unfold LMDataset_len in Hi.
    destruct (lookup_lt_is_Some_2 (zip (xs (dl_dataset dl)) (ys (dl_dataset dl))) i)
      as [e He].
    { rewrite length_zip_with. lia. }
    rewrite He. simpl. by apply LMDataset_getitem_Return. }
  eexists _, _. erewrite prog_bind_step; [|unfold draw; by rewrite Hr].
  erewrite prog_bind_step; [|apply lift_Return; by split].
  done.
Qed.

End Loader.

(** ** Sums over the batches of one pass *)

Definition Zsum (l : list Z) : Z := foldr Z.add 0%Z l.

Section Sums.

Lemma fold_left_Zadd (l : list Z) (a : Z) : fold_left Z.add l a = (a + Zsum l)%Z.
Proof.
  revert a. induction l as [|x l IH]; intros a; simpl; [lia|].
  rewrite IH. lia.
Qed.

Lemma fold_left_Qcplus (l : list Qc) (a : Qc) :
  fold_left Qcplus l a = (a + Qcsum l)%Qc.
Proof.
  revert a. induction l as [|x l IH]; intros a; simpl; [ring|].
  rewrite IH. ring.
Qed.

Lemma accum_adds_Tensor0 {A : Type} (add : A → A → A) (a : A) (l : list A) :
  accum_adds add (Tensor0 a) l = Tensor0 (fold_left add l a).
Proof.
  revert a. induction l as [|x l IH]; intros a; [done|]. simpl. apply IH.
Qed.

Lemma accum_adds_Z (l : list Z) :
  accum_adds Z.add PyZero l
    = match l with [] => PyZero | _ :: _ => Tensor0 (Zsum l) end.
Proof.
  destruct l as [|x l]; [done|]. simpl.
  by rewrite accum_adds_Tensor0, fold_left_Zadd.
Qed.

Lemma accum_adds_Qc (l : list Qc) :
  accum_adds Qcplus PyZero l
    = match l with [] => PyZero | _ :: _ => Tensor0 (Qcsum l) end.
Proof.
  destruct l as [|x l]; [done|]. simpl.
  by rewrite accum_adds_Tensor0, fold_left_Qcplus.
Qed.

Lemma Zsum_of_nat (l : list nat) : Zsum (Z.of_nat <$> l) = Z.of_nat (list_sum l).
Proof.
  induction l as [|x l IH]; [done|].
  rewrite fmap_cons. change (list_sum (x :: l)) with (x + list_sum l).
  change (Zsum (Z.of_nat x :: (Z.of_nat <$> l)))
    with (Z.of_nat x + Zsum (Z.of_nat <$> l))%Z.
  rewrite IH. lia.
Qed.

Lemma Zsum_of_nat_fmap {A : Type} (f : A → nat) (l : list A) :
  Zsum ((λ a, Z.of_nat (f a)) <$> l) = Z.of_nat (list_sum (f <$> l)).
Proof. by rewrite <- Zsum_of_nat, <- list_fmap_compose. Qed.

Lemma Zsum_nonneg_le (l k : list nat) :
  Forall2 (λ a b, a ≤ b) l k → list_sum l ≤ list_sum k.
Proof. induction 1; simpl; lia. Qed.

Lemma Qcsum_zeros (l : list Qc) : Forall (λ q, q = 0%Qc) l → Qcsum l = 0%Qc.
Proof.
  induction 1 as [|q l -> _ IH]; [done|]. simpl. rewrite IH. ring.
Qed.

Lemma list_sum_zero (l : list nat) : list_sum l = 0 → Forall (λ n, n = 0) l.
Proof.
  induction l as [|x l IH]; simpl; intros H; constructor; [lia|].
  apply IH. lia.
Qed.

(** The valid tokens of a list of examples. *)
Definition count_valid (examples : list (list nat * list nat)) : nat :=
  valid_tokens (T2 (examples.*1)).

Lemma count_valid_app l1 l2 :
  count_valid (l1 ++ l2) = count_valid l1 + count_valid l2.
Proof.
  unfold count_valid, valid_tokens. simpl.
  by rewrite fmap_app, concat_app, filter_app, length_app.
Qed.

Lemma count_valid_Permutation l1 l2 :
  l1 ≡ₚ l2 → count_valid l1 = count_valid l2.
Proof.
  induction 1 as [|x l1 l2 _ IH|x y l|l1 l2 l3 _ IH1 _ IH2]; [done| | |congruence].
  - change (x :: l1) with ([x] ++ l1). change (x :: l2) with ([x] ++ l2).
    rewrite !count_valid_app. lia.
  - change (y :: x :: l) with ([y] ++ [x] ++ l).
    change (x :: y :: l) with ([x] ++ [y] ++ l).
    rewrite !count_valid_app. lia.
Qed.

Lemma count_valid_batches (bs : list (list (list nat * list nat))) :
  list_sum (count_valid <$> bs) = count_valid (concat bs).
Proof.
  induction bs as [|b bs IH]; [done|].
  rewrite fmap_cons.
  change (list_sum (count_valid b :: (count_valid <$> bs)))
    with (count_valid b + list_sum (count_valid <$> bs)).
  change (concat (b :: bs)) with (b ++ concat bs).
  by rewrite count_valid_app, IH.
Qed.

Lemma count_valid_zip (x y : list (list nat)) :
  length x ≤ length y → count_valid (zip x y) = valid_tokens (T2 x).
Proof. intros H. unfold count_valid. by rewrite fst_zip. Qed.

End Sums.

(** ** Quotients of counts *)

Section Quotients.

Definition Qc_of_Z (z : Z) : Qc := Q2Qc (inject_Z z).




Lemma tensor_div_pos (x : Qc) (n : Z) :
  (0 < n)%Z → tensor_div x n = Finite (x / Qc_of_Z n).
Proof.
  intros H. unfold tensor_div. by destruct (Z.eqb_spec n 0) as [|_]; [lia|].
Qed.

Lemma tensor_div_zero : tensor_div 0 0 = NaN.
Proof. done. Qed.

End Quotients.

Lemma accum_div_loss (ls : list Qc) (ns : list Z) r :
  length ls = length ns →
  accum_div (accum_adds Qcplus PyZero ls) (accum_adds Z.add PyZero ns)
    = Return r →
  ns ≠ [] ∧ r = tensor_div (Qcsum ls) (Zsum ns).
Proof.
  rewrite accum_adds_Z, accum_adds_Qc.
  destruct ls as [|l ls], ns as [|n ns]; try done.
  intros _ [= <-]. by split.
Qed.

Lemma accum_div_accuracy (cs ns : list Z) r :
  length cs = length ns →
  accum_div (accum_Qc (accum_adds Z.add PyZero cs)) (accum_adds Z.add PyZero ns)
    = Return r →
  r = tensor_div (Qc_of_Z (Zsum cs)) (Zsum ns).
Proof.
  rewrite !accum_adds_Z.
  destruct cs as [|c cs], ns as [|n ns]; try done.
  by intros _ [= <-].
Qed.

(** ** [validate] *)

(** The examples of one batch, stacked as the loader does. *)
Definition val_data {fw : Framework} (t : Trainer fw) : LMDataset :=
  dl_dataset (val_loader (datasets t)).

(** The trainer after [self.model.eval()] and after [self.model.train()]. *)
Definition Trainer_eval {fw : Framework} (t : Trainer fw) : Trainer fw :=
  Trainer_set_model t (LstmLM_eval (model t)).
Definition Trainer_train_mode {fw : Framework} (t : Trainer fw) : Trainer fw :=
  Trainer_set_model t (LstmLM_train (model t)).

Section Modes.
Context {fw : Framework} (t : Trainer fw).

Lemma validate_totals_eval batches :
  validate_totals (Trainer_eval t) batches = validate_totals t batches.
Proof. done. Qed.

(** [validate] is one pass of the trainer in evaluation mode. *)
Lemma Trainer_validate_eq (w : world fw) :
  Trainer_validate (t, w)
  = (batches ← on_snd (DataLoader_iter (val_loader (datasets t))) ;
     acc ← lift (validate_totals t batches) ;
     loss ← lift (accum_div (val_loss acc) (tokens_count acc)) ;
     accuracy ← lift (accum_div (accum_Qc (correct acc)) (tokens_count acc)) ;
     mret (loss, accuracy)) (Trainer_eval t, w).
Proof. done. Qed.

(** [train_epoch] is one pass of the trainer in training mode. *)
Lemma Trainer_train_epoch_eq (w : world fw) :
  Trainer_train_epoch (t, w)
  = (batches ← on_snd (DataLoader_iter (train_loader (datasets t))) ;
     foldM train_step [] batches) (Trainer_train_mode t, w).
Proof. done. Qed.

End Modes.

Section Validate.
Context {fw : Framework} (laws : FrameworkLaws fw).
Context (t : Trainer fw) (w : world fw).

Lemma collate_fmap (l : list (list (list nat * list nat))) :
  collate <$> l = (λ b, (T2 b.1, b.2)) <$> ((λ ex, (ex.*1, T2 (ex.*2))) <$> l).
Proof. by rewrite <- list_fmap_compose. Qed.

(** What [validate] returns, in terms of the batches of its pass. *)
Lemma Trainer_validate_Return loss accuracy s' :
  0 < dl_batch_size (val_loader (datasets t)) →
  Trainer_validate (t, w) = Return ((loss, accuracy), s') →
  ∃ batches stats,
    (∃ w0, DataLoader_iter (val_loader (datasets t)) w = Return (batches, w0)
           ∧ s' = (Trainer_eval t, w0))
    ∧ Forall2 (λ b s, batch_stats t b = Return s ∧ s.2 ≤ s.1.1
                      ∧ (s.1.1 = 0 → s.1.2 = 0%Qc)) batches stats
    ∧ batches ≠ []
    ∧ list_sum ((λ s, s.1.1) <$> stats) = valid_tokens (T2 (xs (val_data t)))
    ∧ loss = tensor_div (Qcsum ((λ s, s.1.2) <$> stats))
                        (Z.of_nat (list_sum ((λ s, s.1.1) <$> stats)))
    ∧ accuracy = tensor_div (Qc_of_Z (Z.of_nat (list_sum ((λ s, s.2) <$> stats))))
                            (Z.of_nat (list_sum ((λ s, s.1.1) <$> stats))).
Proof.
  intros Hbs. rewrite Trainer_validate_eq.
  intros (batches & s2 & Hit & Hrest)%prog_bind_Return.
  apply on_snd_Return in Hit as (w0 & Hit & ->). simpl in Hit.
  apply prog_bind_Return in Hrest as (acc & s3 & [Hacc ->]%lift_Return & Hrest).
  apply prog_bind_Return in Hrest as (l & s4 & [Hl ->]%lift_Return & Hrest).
  apply prog_bind_Return in Hrest as (a & s5 & [Ha ->]%lift_Return & Hrest).
  injection Hrest as <- <- <-.
  exists batches.
  pose proof Hit as (examples & Hperm & Hlen & Hb & _)%DataLoader_iter_Return;
    [|done].
  unfold validate_totals in Hacc. rewrite Hb, collate_fmap in Hacc.
  apply validate_totals_loop in Hacc as (stats & Hstats & Htc & Hvl & Hc).
  simpl in Htc, Hvl, Hc.
  exists stats.
  assert (Forall2 (λ b s, batch_stats t b = Return s ∧ s.2 ≤ s.1.1
                          ∧ (s.1.1 = 0 → s.1.2 = 0%Qc)) batches stats) as Hst.
  { rewrite Hb, collate_fmap. apply Forall2_fmap_l.
    eapply Forall2_impl; [exact Hstats|]. done. }
  assert (list_sum ((λ s, s.1.1) <$> stats)
          = valid_tokens (T2 (xs (val_data t)))) as Hsum.
  { unfold val_data. rewrite <- (count_valid_zip _ _ Hlen).
    rewrite <- (count_valid_Permutation _ _ Hperm).
    transitivity (count_valid (concat (batched (length examples)
                    (dl_batch_size (val_loader (datasets t))) examples)));
      [|by rewrite concat_batched].
    rewrite <- count_valid_batches. f_equal.
    clear -Hstats. apply Forall2_fmap_l in Hstats.
    induction Hstats as [|b s bs ss (Hs & _) _ IH]; [done|].
    rewrite !fmap_cons, IH. f_equal.
    unfold batch_stats in Hs. simpl in Hs.
    apply bind_Return in Hs as (o & _ & Hs).
    apply bind_Return in Hs as (ls & _ & Hs). by injection Hs as <-. }
  rewrite Htc, Hvl in Hl. rewrite Htc, Hc in Ha.
  apply accum_div_loss in Hl as [Hns ->]; [|by rewrite !length_fmap].
  apply accum_div_accuracy in Ha as ->; [|by rewrite !length_fmap].
  rewrite !Zsum_of_nat_fmap.
  split_and!; try done.
  - by exists w0.
  - intros ->. inversion Hst; subst. done.
Qed.

End Validate.

(** ** Trainers on which every step returns *)

(** Rows of indices below a bound. *)
Definition rows_ok (bound : nat) (rows : list (list nat)) : Prop :=
  Forall (Forall (λ i, i < bound)) rows.

(** Inputs and targets of the same lengths, inside the embedding table and
    the classes, and no input without a token. *)
Definition examples_ok (E C : nat) (examples : list (list nat * list nat))
  : Prop :=
  Forall (λ e, length e.1 = length e.2
               ∧ Forall (λ i, i < E) e.1 ∧ Forall (λ i, i < C) e.2
               ∧ e.1 ≠ []) examples.

Definition dataset_ok (E C : nat) (d : LMDataset) : Prop :=
  length (xs d) = length (ys d) ∧ examples_ok E C (zip (xs d) (ys d)).

(** A trainer as [train()] sets it up: the loss is [NLLLoss], the model has
    the shapes it was built with, and the datasets fit the model. *)
Definition trainer_ok {fw : Framework} (t : Trainer fw) : Prop :=
  loss_fn t = NLLLoss_none
  ∧ params_dims fw (weights (model t)) = LstmLM_dims (model t)
  ∧ dataset_ok (num_embeddings (model t)) (num_classes (model t))
               (dl_dataset (train_loader (datasets t)))
  ∧ dataset_ok (num_embeddings (model t)) (num_classes (model t))
               (dl_dataset (val_loader (datasets t)))
  ∧ 0 < dl_batch_size (train_loader (datasets t))
  ∧ 0 < dl_batch_size (val_loader (datasets t)).

Section Totality.

Lemma for_total {A S : Type} (body : A → S → result S) (l : list A) (s : S) :
  (∀ x s, x ∈ l → ∃ s', body x s = Return s') →
  ∃ s', for_ l s body = Return s'.
Proof.
  revert s. induction l as [|x l IH]; intros s H; [by eexists|].
  destruct (H x s) as [s1 Hs1]; [by left|].
  destruct (IH s1) as [s' Hs'].
  { intros y s2 Hy. apply H. by right. }
  exists s'. simpl. by rewrite Hs1.
Qed.

Lemma foldM_invariant {S A B : Type} (I : S → Prop)
    (body : B → A → prog S B) (l : list A) (acc : B) (s : S) :
  (∀ acc x s, x ∈ l → I s → ∃ acc' s', body acc x s = Return (acc', s') ∧ I s') →
  I s → ∃ acc' s', foldM body acc l s = Return (acc', s') ∧ I s'.
Proof.
  revert acc s. induction l as [|x l IH]; intros acc s H Hs.
  - by exists acc, s.
  - destruct (H acc x s) as (acc1 & s1 & Hb & Hs1); [by left | done |].
    destruct (IH acc1 s1) as (acc' & s' & Hf & Hs'); [|done|].
    { intros a y s2 Hy. apply H. by right. }
    exists acc', s'. split; [|done].
    rewrite foldM_cons. by rewrite (prog_bind_step _ _ _ _ _ Hb).
Qed.

Lemma elem_of_batched {A : Type} (fuel bs : nat) (l b : list A) :
  b ∈ batched fuel bs l → b ⊆ l.
Proof.
  revert l. induction fuel as [|fuel IH]; intros l Hb; [by apply elem_of_nil in Hb|].
  destruct l as [|x l]; [by apply elem_of_nil in Hb|].
  cbn [batched] in Hb. apply elem_of_cons in Hb as [->|Hb].
  - apply subseteq_take.
  - apply IH in Hb. etrans; [exact Hb|]. apply subseteq_drop.
Qed.

Lemma examples_ok_subseteq E C l k :
  k ⊆ l → examples_ok E C l → examples_ok E C k.
Proof.
  unfold examples_ok. rewrite !Forall_forall. intros Hsub H e He.
  apply H, Hsub, He.
Qed.

Lemma examples_ok_Permutation E C l k :
  k ≡ₚ l → examples_ok E C l → examples_ok E C k.
Proof. unfold examples_ok. by intros ->. Qed.

Lemma examples_ok_shape E C examples :
  examples_ok E C examples →
  Forall2 (λ a b : list nat, length a = length b) (examples.*1) (examples.*2)
  ∧ rows_ok E (examples.*1) ∧ rows_ok C (examples.*2)
  ∧ Forall (λ r, r ≠ []) (examples.*1).
Proof.
  unfold rows_ok.
  induction 1 as [|[x y] l (Hlen & Hx & Hy & Hne) _ (IH1 & IH2 & IH3 & IH4)].
  - by split_and!; constructor.
  - rewrite !fmap_cons. simpl in *. by split_and!; constructor.
Qed.

Lemma nll_row_total (outs : list (list Qc)) (tgts : list nat) :
  length outs = length tgts →
  Forall2 (λ o g, g < length o) outs tgts →
  ∃ r, comprehension nll (zip_with pair outs tgts) = Return r
       ∧ length r = length outs.
Proof.
  intros _. induction 1 as [|o g outs tgts Hg _ (r & Hr & Hlen)].
  - by exists [].
  - apply lookup_lt_is_Some_2 in Hg as [v Hv].
    exists ((- v)%Qc :: r). split; [|simpl; lia].
    cbn [zip_with]. rewrite comprehension_cons.
    assert (nll (o, g) = Return (- v)%Qc) as -> by (unfold nll; simpl; by rewrite Hv).
    by rewrite bind_Return_l, Hr.
Qed.

End Totality.

Section StepsReturn.
Context {fw : Framework} (laws : FrameworkLaws fw).

Lemma row_log_probs_classes (m : LstmLM fw) row o :
  params_dims fw (weights m) = LstmLM_dims m →
  o ∈ row_log_probs m row → length o = num_classes m.
Proof.
  intros Hd (h & -> & _)%list_elem_of_fmap.
  rewrite (log_softmax_length fw laws), (linear_length fw laws), Hd. done.
Qed.

Lemma nll_rows_total (m : LstmLM fw) (x y : list (list nat)) :
  params_dims fw (weights m) = LstmLM_dims m →
  Forall2 (λ a b : list nat, length a = length b) x y →
  rows_ok (num_classes m) y →
  ∃ r, comprehension (comprehension nll)
         (zip_with (zip_with pair) (row_log_probs m <$> x) y) = Return r
       ∧ Forall2 (λ (a : list Qc) (b : list nat), length a = length b) r x.
Proof.
  intros Hd Hxy. unfold rows_ok.
  induction Hxy as [|row tgts x y Hlen _ IH]; intros Hy.
  - exists []. by split; [|constructor].
  - apply Forall_cons in Hy as [Htg Hy].
    destruct (IH Hy) as (r & Hr & Hshape).
    destruct (nll_row_total (row_log_probs m row) tgts) as (r0 & Hr0 & Hl0).
    { by rewrite length_row_log_probs. }
    { apply Forall2_same_length_lookup_2.
      - by rewrite length_row_log_probs.
      - intros i o g Ho Hg.
        rewrite (row_log_probs_classes m row o Hd);
          [|by eapply list_elem_of_lookup_2].
        rewrite Forall_forall in Htg. apply Htg.
        by eapply list_elem_of_lookup_2. }
    exists (r0 :: r). split.
    + rewrite fmap_cons. cbn [zip_with]. rewrite comprehension_cons.
      by rewrite Hr0, bind_Return_l, Hr.
    + constructor; [|done]. by rewrite Hl0, length_row_log_probs.
Qed.

(** A batch of well-formed examples passes through the loop body of
    [validate]. *)
Lemma validate_step_total (t : Trainer fw) acc examples :
  trainer_ok t →
  examples_ok (num_embeddings (model t)) (num_classes (model t)) examples →
  ∃ acc', validate_step t acc (collate examples) = Return acc'.
Proof.
  intros (Hloss & Hd & _) (Hshape & Hx & Hy & Hne)%examples_ok_shape.
  unfold collate.
  destruct (nll_rows_total (model t) (examples.*1) (examples.*2) Hd Hshape Hy)
    as (r & Hr & Hrs).
  eexists. apply validate_step_Return.
  exists (T2 (row_log_probs (model t) <$> examples.*1)), (T2 r).
  split_and!; try done.
  - by apply forward_batch_Return.
  - rewrite Hloss. unfold NLLLoss_none, tzip.
    assert (zip_rows pair (row_log_probs (model t) <$> examples.*1) (examples.*2)
            = Return (zip_with (zip_with pair)
                        (row_log_probs (model t) <$> examples.*1) (examples.*2)))
      as ->.
    { apply zip_rows_Return. split; [|done]. apply Forall2_fmap_l.
      eapply Forall2_impl; [exact Hshape|]. intros a b Hab. simpl.
      by rewrite length_row_log_probs. }
    rewrite !bind_Return_l. unfold tmapM. by rewrite Hr.
  - simpl. apply Forall2_fmap_l.
    eapply Forall2_impl; [exact Hshape|]. intros a b Hab. simpl.
    by rewrite length_row_log_probs.
Qed.

Lemma loader_batches_ok (dl : DataLoader) (w : world fw) E C batches w' :
  dataset_ok E C (dl_dataset dl) →
  DataLoader_iter dl w = Return (batches, w') →
  ∃ bs, batches = collate <$> bs ∧ Forall (examples_ok E C) bs
        ∧ (dl_dataset dl ≠ mkLMDataset [] [] → bs ≠ []).
Proof.
  intros [Hlen Hok] (examples & Hperm & _ & -> & _)%DataLoader_iter_Return;
    [|done].
  eexists. split; [done|]. split.
  - apply Forall_forall. intros b Hb%elem_of_batched.
    eapply examples_ok_subseteq; [exact Hb|].
    by eapply examples_ok_Permutation.
  - intros Hne Hb.
    destruct examples as [|e examples]; [|done].
    apply Permutation_nil_l in Hperm.
    destruct (dl_dataset dl) as [[|x xs'] [|y ys']]; simpl in *; done.
Qed.

(** [validate] returns on a well-formed trainer with a non-empty
    validation dataset, and leaves the trainer as it is but for the mode of
    the model. *)
Lemma Trainer_validate_total (t : Trainer fw) (w : world fw) :
  trainer_ok t → val_data t ≠ mkLMDataset [] [] →
  ∃ loss accuracy w',
    Trainer_validate (t, w) = Return ((loss, accuracy), (Trainer_eval t, w')).
Proof.
  intros Hok Hne. pose proof Hok as (_ & _ & _ & [Hlen Hval] & _).
  destruct (DataLoader_iter_total laws (val_loader (datasets t)) w Hlen)
    as (batches & w' & Hit).
  destruct (loader_batches_ok _ _ _ _ _ _ (conj Hlen Hval) Hit)
    as (bs & -> & Hbs & Hnonempty).
  specialize (Hnonempty Hne).
  destruct (for_total (λ b a, validate_step t a b) (collate <$> bs)
              (mkTotals PyZero PyZero PyZero)) as [acc Hacc].
  { intros b a (ex & -> & Hex)%list_elem_of_fmap.
    apply validate_step_total; [done|].
    rewrite Forall_forall in Hbs. by apply Hbs. }
  pose proof Hacc as Hacc'. rewrite collate_fmap in Hacc'.
  apply validate_totals_loop in Hacc' as (stats & Hstats & Htc & Hvl & Hc).
  simpl in Htc, Hvl, Hc.
  rewrite accum_adds_Z in Htc, Hc. rewrite accum_adds_Qc in Hvl.
  destruct stats as [|s0 stats].
  { apply Forall2_nil_inv_r in Hstats. apply fmap_nil_inv in Hstats. done. }
  simpl in Htc, Hvl, Hc.
  eexists _, _, w'. rewrite Trainer_validate_eq.
  erewrite prog_bind_step; [|apply on_snd_Return; eexists; split; [exact Hit|done]].
  erewrite prog_bind_step; [|apply lift_Return; split; [exact Hacc|done]].
  rewrite Htc, Hvl, Hc. simpl. reflexivity.
Qed.

End StepsReturn.

(** ** The concrete framework satisfies the laws *)

Lemma argmax_from_lt (l : list Qc) best bestv i :
  best < i → argmax_from best bestv i l < i + length l.
Proof.
  revert best bestv i. induction l as [|x l IH]; intros best bestv i Hb; simpl.
  - lia.
  - destruct (Qclt_le_dec bestv x).
    + specialize (IH i x (S i)). lia.
    + specialize (IH best bestv (S i)). lia.
Qed.

Lemma argmax_lt (l : list Qc) : l ≠ [] → argmax l < length l.
Proof.
  destruct l as [|x l]; [done|]. intros _. simpl.
  pose proof (argmax_from_lt l 0 x 1). lia.
Qed.

Lemma toy_laws : FrameworkLaws toy.
Proof.
  constructor; simpl; try done.
  - intros p h. unfold toy_linear. by rewrite length_fmap, length_seq.
  - intros d g. apply argmax_lt.
  - intros n g. apply reverse_Permutation.
Qed.

Definition toy_corpus : list N :=
  text_of "abcabcabcabcabcabcabcabcabcabcabcabcabcabcabcabcabcabcabcabc".

Definition toy_datasets : Datasets :=
  match Datasets_init toy_corpus 2 3 with
  | Return d => d
  | Raise _ => mkDatasets (mkDataLoader (mkLMDataset [] []) 1)
                          (mkDataLoader (mkLMDataset [] []) 1)
  end.

Definition toy_trainer : Trainer toy :=
  mkTrainer toy_datasets (LstmLM_init toy 3 3 50 50 (0 : rng toy)).1
            (0 : opt_state toy) NLLLoss_none ["results"] None.

(** [predict] on the concrete model at temperature 1/2: the quotients are
    finite, and the rows are the softmax of the framework on them. *)
Lemma predict_and_forward_outputs_witness :
  Q2Qc (1 # 2) ≠ 0%Qc
  ∧ LstmLM_predict (model toy_trainer) (T2 [[0; 1]; [2; 0]]) None (Q2Qc (1 # 2))
    = (o1 ← embedding (model toy_trainer) (T2 [[0; 1]; [2; 0]]) ;
       o2 ← lstm (model toy_trainer) o1 None ;
       Return (tmap (λ h, Finite <$> softmax toy
                            ((λ v, v / Q2Qc (1 # 2))%Qc
                               <$> linear toy (weights (model toy_trainer)) h))
                    o2.1,
               o2.2)).
Proof.
  split; [done|].
  apply (predict_and_forward_outputs (model toy_trainer)
           (T2 [[0; 1]; [2; 0]]) None (Q2Qc (1 # 2))).
  done.
Defined.

(** ** Claims on [validate] *)

Section ValidateClaims.
Context {fw : Framework} (laws : FrameworkLaws fw).
Context (t : Trainer fw) (w : world fw).


End ValidateClaims.

(** ** The trainer that [train()] sets up is well-formed *)

Section Setup.

Lemma encodes_lt text txt indices :
  encodes (char2idx text) txt indices →
  Forall (λ i, i < vocab_size text) indices.
Proof.
  induction 1 as [|c i txt indices Hc _ IH]; constructor; [|done].
  by eapply char2idx_lt.
Qed.

Lemma LMDataset_init_ok text dataset max_length d :
  LMDataset_init (char2idx text) dataset max_length = Return d →
  dataset_ok (vocab_size text) (vocab_size text) d.
Proof.
  intros (Hpos & ws & Hws & ->)%LMDataset_init_Return.
  split; simpl; [by rewrite !length_fmap|].
  unfold examples_ok. apply Forall_forall. intros [x y] Hxy.
  apply list_elem_of_lookup in Hxy as [k Hk].
  apply lookup_zip_Some in Hk as [Hx Hy].
  rewrite list_lookup_fmap in Hx, Hy.
  destruct (ws !! k) as [wk|] eqn:Hw; [|done].
  injection Hx as <-. injection Hy as <-.
  destruct (Forall2_lookup_r _ _ _ _ _ Hws Hw) as (i & Hi & Henc).
  apply window_starts_lookup in Hi as [-> Hi]; [|done].
  destruct (window_split _ _ _ _ _ Hi Henc) as (Hx & Hy & Hlx & Hly & _).
  simpl. split_and!.
  - by rewrite Hlx, Hly.
  - by eapply encodes_lt.
  - by eapply encodes_lt.
  - intros Hnil. rewrite Hnil in Hlx. simpl in Hlx. lia.
Qed.

Lemma DataLoader_init_Return d bs dl :
  DataLoader_init d bs = Return dl ↔
  0 < LMDataset_len d ∧ 0 < bs ∧ dl = mkDataLoader d bs.
Proof.
  unfold DataLoader_init.
  destruct (Nat.eqb_spec (LMDataset_len d) 0), (Nat.eqb_spec bs 0); split;
    try done; try (intros (? & ? & _); lia).
  - intros [= <-]. split_and!; [lia | lia | done].
  - by intros (_ & _ & ->).
Qed.

Context {fw : Framework} (laws : FrameworkLaws fw).

Lemma make_trainer_ok text batch_size max_length E H o (w : world fw) t w' :
  make_trainer text batch_size max_length E H o w = Return (t, w') →
  trainer_ok t.
Proof.
  unfold make_trainer.
  intros (ds & w1 & [Hds ->]%lift_Return & Hrest)%prog_bind_Return.
  apply prog_bind_Return in Hrest as (m & w2 & Hm & [= <- <-]).
  unfold Datasets_init in Hds.
  apply bind_Return in Hds as (td & Htd & Hds).
  apply bind_Return in Hds
    as (tl & (_ & Hb1 & ->)%DataLoader_init_Return & Hds).
  apply bind_Return in Hds as (vd & Hvd & Hds).
  apply bind_Return in Hds
    as (vl & (_ & Hb2 & ->)%DataLoader_init_Return & [= <-]).
  unfold draw, LstmLM_init in Hm.
  pose proof (init_params_dims fw laws
    (mkDims (length (vocab text)) (length (vocab text)) E H) (gen w)) as Hd.
  destruct (init_params fw _ (gen w)) as [p g].
  injection Hm as <- <-. simpl in *.
  unfold trainer_ok. simpl. split_and!; try done.
  - by eapply LMDataset_init_ok.
  - by eapply LMDataset_init_ok.
Qed.

End Setup.

Lemma toy_trainer_ok : trainer_ok toy_trainer.
Proof.
  apply (make_trainer_ok toy_laws toy_corpus 2 3 50 50 (0 : opt_state toy)
           toy_world toy_trainer (mkWorld (1 : rng toy) ∅ [])).
  by vm_compute.
Qed.


Section ValidateDivision.

Lemma valid_tokens_pos (rows : list (list nat)) :
  0 < valid_tokens (T2 rows) ↔ ∃ row i, row ∈ rows ∧ i ∈ row ∧ 0 < i.
Proof.
  unfold valid_tokens. simpl. induction rows as [|r rows IH]; simpl.
  - split; [lia | by intros (row & i & ?%elem_of_nil & _)].
  - rewrite filter_app, length_app. split.
    + intros Hpos.
      destruct (filter (λ i, 0 < i) r) as [|i l] eqn:Hf.
      * simpl in Hpos. apply IH in Hpos as (row & i & Hrow & Hi).
        exists row, i. split; [by right | done].
      * assert (i ∈ filter (λ i, 0 < i) r) as Hi by (rewrite Hf; by left).
        apply list_elem_of_filter in Hi as [Hpos' Hi].
        exists r, i. split; [by left | done].
    + intros (row & i & Hrow & Hi & Hpos).
      apply elem_of_cons in Hrow as [->|Hrow].
      * assert (i ∈ filter (λ i, 0 < i) r) as Hf
          by by apply list_elem_of_filter.
        destruct (filter (λ i, 0 < i) r); [by apply elem_of_nil in Hf|].
        simpl. lia.
      * assert (0 < length (filter (λ i, 0 < i) (concat rows))); [|lia].
        apply IH. by exists row, i.
Qed.

Context {fw : Framework} (laws : FrameworkLaws fw).
Context (t : Trainer fw) (w : world fw).

Lemma Trainer_validate_empty :
  xs (val_data t) = [] → Trainer_validate (t, w) = Raise ZeroDivisionError.
Proof.
  intros Hxs. rewrite Trainer_validate_eq.
  assert (DataLoader_iter (val_loader (datasets t)) w
          = Return ([], mkWorld (randperm fw 0 (gen w)).2 (files w) (written w)))
    as Hit.
  { unfold DataLoader_iter, draw, LMDataset_len. fold (val_data t).
    rewrite Hxs. simpl.
    pose proof (randperm_perm fw laws 0 (gen w)) as Hperm.
    unfold mbind, prog_bind.
    destruct (randperm fw 0 (gen w)) as [perm g]. simpl in *.
    apply Permutation_nil_r in Hperm as ->. done. }
  erewrite prog_bind_step; [|apply on_snd_Return; eexists; split; [exact Hit|done]].
  done.
Qed.

(** C10: [validate] divides by [tokens_count] whatever its value.  The
    divisor is positive exactly when some token index of the validation
    dataset is greater than zero, and both results are then finite; when
    every token index is zero both quotients are 0/0, not a number; with
    no validation example at all the quotient of the two Python integers
    raises [ZeroDivisionError]. *)
Theorem validate_division :
  0 < dl_batch_size (val_loader (datasets t)) →
  (0 < valid_tokens (T2 (xs (val_data t)))
   ↔ ∃ row i, row ∈ xs (val_data t) ∧ i ∈ row ∧ 0 < i)
  ∧ (∀ loss accuracy s',
     Trainer_validate (t, w) = Return ((loss, accuracy), s') →
     if decide (0 < valid_tokens (T2 (xs (val_data t))))
     then ∃ q1 q2, loss = Finite q1 ∧ accuracy = Finite q2
     else loss = NaN ∧ accuracy = NaN)
  ∧ (xs (val_data t) = [] → Trainer_validate (t, w) = Raise ZeroDivisionError)
  ∧ (trainer_ok t → val_data t ≠ mkLMDataset [] [] →
     ∃ loss accuracy w',
       Trainer_validate (t, w)
       = Return ((loss, accuracy), (Trainer_eval t, w'))).
Proof.
  intros Hbs. split_and!.
  - apply valid_tokens_pos.
  - intros loss accuracy s' Hv.
    apply (Trainer_validate_Return laws) in Hv
      as (batches & stats & _ & Hstats & _ & Hsum & -> & ->); [|done].
    rewrite <- Hsum. case_decide as Hpos.
    + eexists _, _. split; apply tensor_div_pos; lia.
    + assert (list_sum ((λ s, s.1.1) <$> stats) = 0) as H0 by lia.
      rewrite H0.
      assert (Forall (λ s : nat * Qc * nat, s.1.1 = 0) stats) as Hz.
      { apply list_sum_zero in H0. by apply Forall_fmap in H0. }
      assert (Forall (λ s : nat * Qc * nat,
                        s.2 ≤ s.1.1 ∧ (s.1.1 = 0 → s.1.2 = 0%Qc)) stats) as Hall.
      { eapply Forall2_Forall_r; [exact Hstats|].
        apply Forall_forall. by intros b _ s (_ & ? & ?). }
      assert (Qcsum ((λ s, s.1.2) <$> stats) = 0%Qc) as ->.
      { apply Qcsum_zeros, Forall_fmap.
        rewrite Forall_forall in Hall, Hz |- *. intros s Hs. simpl.
        by apply Hall, Hz. }
      assert (list_sum ((λ s, s.2) <$> stats) = 0) as ->.
      { assert (list_sum ((λ s, s.2) <$> stats)
                ≤ list_sum ((λ s, s.1.1) <$> stats)); [|lia].
        apply Zsum_nonneg_le, Forall2_fmap, Forall_Forall2_diag.
        eapply Forall_impl; [exact Hall|]. by intros s [? _]. }
      done.
  - apply Trainer_validate_empty.
  - by apply Trainer_validate_total.
Qed.

End ValidateDivision.

Lemma validate_division_witness :
  0 < dl_batch_size (val_loader (datasets toy_trainer))
  ∧ (0 < valid_tokens (T2 (xs (val_data toy_trainer)))
     ↔ ∃ row i, row ∈ xs (val_data toy_trainer) ∧ i ∈ row ∧ 0 < i).
Proof.
  assert (0 < dl_batch_size (val_loader (datasets toy_trainer))) as Hbs
    by (vm_compute; lia).
  split; [exact Hbs|].
  exact (proj1 (validate_division toy_laws toy_trainer toy_world Hbs)).
Defined.

(** The value a program returns, without its final state. *)
Definition value {A S : Type} (r : result (A * S)) : result A :=
  match r with
  | Return (a, _) => Return a
  | Raise e => Raise e
  end.

(** A corpus of a single character: every token index is 0. *)
Definition flat_trainer : Trainer toy :=
  match make_trainer (fw := toy) (text_of "aaaaaaaaaaaaaaaaaaaaaaaaaaaaaa")
          2 3 50 50 (0 : opt_state toy) toy_world with
  | Return (t, _) => t
  | Raise _ => toy_trainer
  end.

(** A validation loader without any example; [Datasets] refuses to build
    one, so the loader is put in place by hand. *)
Definition short_trainer : Trainer toy :=
  mkTrainer (mkDatasets (train_loader toy_datasets)
                        (mkDataLoader (mkLMDataset [] []) 4))
            (model toy_trainer) (0 : opt_state toy) NLLLoss_none
            ["results"] None.

Example validate_toy :
  ∃ loss accuracy,
    value (Trainer_validate (toy_trainer, toy_world)) = Return (loss, accuracy)
    ∧ loss = Finite (-1)%Qc ∧ accuracy = Finite 1%Qc.
Proof.
  eexists _, _. split; [vm_compute; reflexivity|].
  split; f_equal; by apply Qc_is_canon.
Qed.

Example validate_all_zero :
  xs (val_data flat_trainer) = [[0; 0; 0]; [0; 0; 0]]
  ∧ value (Trainer_validate (flat_trainer, toy_world)) = Return (NaN, NaN).
Proof. split; vm_compute; reflexivity. Qed.

Example validate_no_example :
  xs (val_data short_trainer) = []
  ∧ value (Trainer_validate (short_trainer, toy_world))
    = Raise ZeroDivisionError.
Proof. split; vm_compute; reflexivity. Qed.

(** ** [train_epoch] *)

(** What a training step leaves untouched in the trainer. *)
Definition same_setup {fw : Framework} (t t' : Trainer fw) : Prop :=
  datasets t' = datasets t ∧ loss_fn t' = loss_fn t
  ∧ results_path t' = results_path t ∧ train_df t' = train_df t
  ∧ LstmLM_dims (model t') = LstmLM_dims (model t).

(** The number of batches of [n] examples in groups of [bs]. *)
Definition num_batches (n bs : nat) : nat := (n + bs - 1) / bs.

Section TrainEpoch.
Context {fw : Framework} (laws : FrameworkLaws fw).

Lemma same_setup_refl (t : Trainer fw) : same_setup t t.
Proof. by unfold same_setup. Qed.

Lemma same_setup_trans (t1 t2 t3 : Trainer fw) :
  same_setup t1 t2 → same_setup t2 t3 → same_setup t1 t3.
Proof. unfold same_setup. intros (?&?&?&?&?) (?&?&?&?&?). split_and!; congruence. Qed.

Lemma same_setup_set_mode (t : Trainer fw) mode :
  same_setup t (Trainer_set_model t (LstmLM_set_mode mode (model t))).
Proof. by unfold same_setup. Qed.

Lemma length_batched {A : Type} (fuel bs : nat) (l : list A) :
  0 < bs → length l ≤ fuel →
  length (batched fuel bs l) = num_batches (length l) bs.
Proof.
  intros Hbs. unfold num_batches. revert l.
  induction fuel as [|fuel IH]; intros l Hl.
  - destruct l; [|simpl in Hl; lia]. simpl. symmetry. apply Nat.div_small. lia.
  - destruct l as [|x l].
    { simpl. symmetry. apply Nat.div_small. lia. }
    cbn [batched length]. rewrite IH by (rewrite length_drop; simpl in *; lia).
    rewrite length_drop. cbn [length].
    destruct (decide (bs ≤ S (length l))) as [Hle|Hgt].
    + replace (S (length l) + bs - 1) with
        ((S (length l) - bs + bs - 1) + 1 * bs) by lia.
      rewrite Nat.div_add by lia. lia.
    + replace (S (length l) - bs) with 0 by lia.
      rewrite (Nat.div_small (0 + bs - 1)) by lia.
      assert (bs * 1 ≤ S (length l) + bs - 1) as H1 by lia.
      apply Nat.div_le_lower_bound in H1; [|lia].
      assert ((S (length l) + bs - 1) / bs < 2); [|lia].
      apply Nat.Div0.div_lt_upper_bound. lia.
Qed.

Lemma loader_num_batches (dl : DataLoader) (w : world fw) batches w' :
  0 < dl_batch_size dl →
  DataLoader_iter dl w = Return (batches, w') →
  length batches = num_batches (LMDataset_len (dl_dataset dl)) (dl_batch_size dl)
  ∧ files w' = files w ∧ written w' = written w.
Proof.
  intros Hbs (examples & Hperm & Hlen & -> & ->)%DataLoader_iter_Return;
    [|done].
  split; [|done].
  rewrite length_fmap, length_batched by (done || lia).
  rewrite Hperm, length_zip_with. unfold LMDataset_len. f_equal. lia.
Qed.

Lemma train_step_Return losses batch (t : Trainer fw) w r s' :
  train_step losses batch (t, w) = Return (r, s') →
  ∃ loss t', r = losses ++ [loss] ∧ s' = (t', w) ∧ same_setup t t'
    ∧ weights (model t')
      = (optimizer_step fw (optimizer t) (weights (model t)) batch.1 batch.2).2.
Proof.
  destruct batch as [tokens target]. unfold train_step.
  intros (t0 & s0 & [= <- <-] & Hrest)%prog_bind_Return.
  apply prog_bind_Return in Hrest as (output & s1 & [Hf ->]%lift_Return & Hrest).
  apply prog_bind_Return in Hrest as (bl & s2 & [Hl ->]%lift_Return & Hrest).
  simpl. destruct (optimizer_step fw _ _ tokens target) as [o p].
  apply prog_bind_Return in Hrest as ([] & s3 & [= <-] & [= <- <-]).
  eexists _, _. split; [done|]. split; [done|]. by split.
Qed.

Lemma train_loop_Return batches losses (t : Trainer fw) w r s' :
  foldM train_step losses batches (t, w) = Return (r, s') →
  ∃ new t', r = losses ++ new ∧ length new = length batches
    ∧ s' = (t', w) ∧ same_setup t t'.
Proof.
  revert losses t. induction batches as [|b batches IH]; intros losses t.
  - intros [= <- <-]. exists [], t. rewrite app_nil_r.
    by split_and!.
  - rewrite foldM_cons.
    intros (l1 & s1 & Hstep & Hrest)%prog_bind_Return.
    apply train_step_Return in Hstep as (loss & t1 & -> & -> & Hs1 & _).
    apply IH in Hrest as (new & t' & -> & Hlen & -> & Hs2).
    exists (loss :: new), t'. rewrite <- app_assoc. simpl.
    split_and!; try done; [lia|]. by eapply same_setup_trans.
Qed.

(** One epoch returns one loss per batch of the training loader, writes no
    file and keeps the set-up of the trainer. *)
Lemma Trainer_train_epoch_Return (t : Trainer fw) w losses s' :
  0 < dl_batch_size (train_loader (datasets t)) →
  Trainer_train_epoch (t, w) = Return (losses, s') →
  length losses
    = num_batches (LMDataset_len (dl_dataset (train_loader (datasets t))))
                  (dl_batch_size (train_loader (datasets t)))
  ∧ ∃ t' w', s' = (t', w') ∧ same_setup t t'
             ∧ files w' = files w ∧ written w' = written w.
Proof.
  intros Hbs. rewrite Trainer_train_epoch_eq.
  intros (batches & s1 & Hit & Hrest)%prog_bind_Return.
  apply on_snd_Return in Hit as (w0 & Hit & ->). simpl in Hit.
  apply loader_num_batches in Hit as (Hn & Hf & Hw); [|done].
  apply train_loop_Return in Hrest as (new & t' & -> & Hlen & -> & Hs).
  simpl. split; [lia|]. exists t', w0. split; [done|]. split; [|done].
  eapply same_setup_trans; [apply (same_setup_set_mode t true) | exact Hs].
Qed.

End TrainEpoch.

Section TrainEpochReturns.
Context {fw : Framework} (laws : FrameworkLaws fw).

Lemma same_setup_ok (t t' : Trainer fw) :
  same_setup t t' →
  params_dims fw (weights (model t')) = params_dims fw (weights (model t)) →
  trainer_ok t → trainer_ok t'.
Proof.
  intros (Hd & Hl & _ & _ & Hm) Hp (Hloss & Hdims & Htr & Hva & Hb1 & Hb2).
  assert (num_embeddings (model t') = num_embeddings (model t)
          ∧ num_classes (model t') = num_classes (model t)) as [He Hc].
  { unfold LstmLM_dims in Hm. by injection Hm as -> -> _ _. }
  unfold trainer_ok. rewrite Hl, Hd, Hp, Hm, He, Hc. by split_and!.
Qed.

Lemma trainer_ok_set_mode (t : Trainer fw) mode :
  trainer_ok t →
  trainer_ok (Trainer_set_model t (LstmLM_set_mode mode (model t))).
Proof. done. Qed.

Lemma forward_and_loss_total (t : Trainer fw) examples :
  trainer_ok t →
  examples_ok (num_embeddings (model t)) (num_classes (model t)) examples →
  ∃ output l,
    LstmLM_forward (model t) (T2 (examples.*1)) = Return output
    ∧ Trainer_loss t output (T2 (examples.*2)) (gt0 (T2 (examples.*1)))
      = Return l.
Proof.
  intros Hok Hex.
  destruct (validate_step_total laws t (mkTotals PyZero PyZero PyZero)
              examples Hok Hex) as [acc Hacc].
  apply validate_step_Return in Hacc as (output & losses & Hf & Hl & Hs & _).
  exists output, (masked_sum losses (T2 (examples.*1))).
  split; [done|]. apply Trainer_loss_Return. by exists losses.
Qed.

Lemma train_step_total losses examples (t : Trainer fw) w :
  trainer_ok t →
  examples_ok (num_embeddings (model t)) (num_classes (model t)) examples →
  ∃ r t', train_step losses (collate examples) (t, w) = Return (r, (t', w))
          ∧ trainer_ok t' ∧ same_setup t t'.
Proof.
  intros Hok Hex.
  destruct (forward_and_loss_total t examples Hok Hex) as (output & l & Hf & Hl).
  unfold train_step, collate.
  erewrite prog_bind_step; [|reflexivity].
  erewrite prog_bind_step; [|apply lift_Return; split; [exact Hf|done]].
  erewrite prog_bind_step; [|apply lift_Return; split; [exact Hl|done]].
  pose proof (optimizer_step_dims fw laws (optimizer t) (weights (model t))
                (T2 (examples.*1)) (T2 (examples.*2))) as Hd.
  destruct (optimizer_step fw _ _ _ _) as [o p]. simpl in Hd.
  eexists _, _. split; [reflexivity|].
  assert (same_setup t
    (mkTrainer (datasets t) (LstmLM_set_weights (model t) p)
       o (loss_fn t) (results_path t) (train_df t))) as Hs by done.
  split; [|done]. by eapply same_setup_ok.
Qed.

Lemma Trainer_train_epoch_total (t : Trainer fw) w :
  trainer_ok t →
  ∃ losses t' w', Trainer_train_epoch (t, w) = Return (losses, (t', w'))
                  ∧ trainer_ok t' ∧ same_setup t t'.
Proof.
  intros Hok. pose proof Hok as (_ & _ & [Hlen Htr] & _).
  destruct (DataLoader_iter_total laws (train_loader (datasets t)) w Hlen)
    as (batches & w' & Hit).
  destruct (loader_batches_ok laws _ _ _ _ _ _ (conj Hlen Htr) Hit)
    as (bs & -> & Hbs & _).
  destruct (foldM_invariant
              (λ s : run fw, s.2 = w' ∧ trainer_ok s.1 ∧ same_setup t s.1)
              train_step (collate <$> bs) [] (Trainer_train_mode t, w'))
    as (losses & [t' w''] & Hf & Hw & Hok' & Hs).
  - intros acc b [t1 w1] (ex & -> & Hex)%list_elem_of_fmap (Hw1 & Hok1 & Hs1).
    simpl in *. subst w1.
    destruct (train_step_total acc ex t1 w') as (r & t2 & Hr & Hok2 & Hs2);
      [done| |].
    { destruct Hs1 as (_ & _ & _ & _ & Hm).
      assert (num_embeddings (model t1) = num_embeddings (model t)
              ∧ num_classes (model t1) = num_classes (model t)) as [-> ->].
      { unfold LstmLM_dims in Hm. by injection Hm as -> -> _ _. }
      rewrite Forall_forall in Hbs. by apply Hbs. }
    exists r, (t2, w'). split; [done|]. simpl. split_and!; try done.
    by eapply same_setup_trans.
  - simpl. split_and!; try done.
  - simpl in *. subst w''. exists losses, t', w'. split; [|done].
    rewrite Trainer_train_epoch_eq.
    erewrite prog_bind_step;
      [|apply on_snd_Return; eexists; split; [exact Hit|done]].
    done.
Qed.

End TrainEpochReturns.

(** ** [train] and the metrics log *)

(** The rows that [n] epochs add to the log, as the specification words
    them: for each epoch in order, one training row per batch loss in batch
    order and then one validation row. *)
Fixpoint epochs_log {fw : Framework} (n : nat) : prog (run fw) (list row) :=
  match n with
  | O => mret []
  | S n' =>
      train_losses ← Trainer_train_epoch ;
      '(val_loss, accuracy) ← Trainer_validate ;
      rest ← epochs_log n' ;
      mret ((train_row <$> train_losses) ++ [val_row val_loss accuracy] ++ rest)
  end.

(** The kind of a row, by the columns it fills. *)
Inductive row_kind : Type := TrainRow | ValRow | OtherRow.

Definition kind_of (r : row) : row_kind :=
  match r with
  | (Some _, None, None) => TrainRow
  | (None, Some _, Some _) => ValRow
  | _ => OtherRow
  end.

Section TrainLog.
Context {fw : Framework} (laws : FrameworkLaws fw).

Lemma train_body_Return vars epoch (s s' : run fw) vars' :
  train_body vars epoch s = Return (vars', s') ↔
  ∃ train_losses s1 val_loss accuracy,
    Trainer_train_epoch s = Return (train_losses, s1)
    ∧ Trainer_validate s1 = Return ((val_loss, accuracy), s')
    ∧ vars' = (val_loss, accuracy,
               (vars.2 ++ (train_row <$> train_losses))
                 ++ [val_row val_loss accuracy]).
Proof.
  destruct vars as [[v a] log]. unfold train_body. rewrite prog_bind_Return.
  split.
  - intros (losses & s1 & Hte & Hrest).
    apply prog_bind_Return in Hrest as ([v' a'] & s2 & Hv & [= <- <-]).
    by exists losses, s1, v', a'.
  - intros (losses & s1 & v' & a' & Hte & Hv & ->).
    exists losses, s1. split; [done|]. apply prog_bind_Return.
    by exists (v', a'), s'.
Qed.

(** The loop of [train] appends to the log exactly the rows of its epochs. *)
Lemma train_loop_log n k vars (s s' : run fw) vars' :
  foldM train_body vars (seq k n) s = Return (vars', s') →
  ∃ rest, epochs_log n s = Return (rest, s') ∧ vars'.2 = vars.2 ++ rest.
Proof.
  revert k vars s. induction n as [|n IH]; intros k vars s.
  - intros [= <- <-]. exists []. by rewrite app_nil_r.
  - cbn [seq]. rewrite foldM_cons.
    intros (vars1 & s1 & Hbody & Hrest)%prog_bind_Return.
    apply train_body_Return in Hbody as (losses & s0 & v & a & Hte & Hv & ->).
    apply IH in Hrest as (rest & Hrest & Hlog). simpl in Hlog.
    exists ((train_row <$> losses) ++ [val_row v a] ++ rest).
    split; [|by rewrite Hlog, <- !app_assoc].
    cbn [epochs_log].
    rewrite (prog_bind_step _ _ _ _ _ Hte), (prog_bind_step _ _ _ _ _ Hv).
    by rewrite (prog_bind_step _ _ _ _ _ Hrest).
Qed.

Lemma train_loop_of_log n k vars (s s' : run fw) rest :
  epochs_log n s = Return (rest, s') →
  ∃ vars', foldM train_body vars (seq k n) s = Return (vars', s')
           ∧ vars'.2 = vars.2 ++ rest.
Proof.
  revert k vars s rest. induction n as [|n IH]; intros k vars s rest.
  - intros [= <- <-]. exists vars. by rewrite app_nil_r.
  - cbn [epochs_log].
    intros (losses & s0 & Hte & Hrest)%prog_bind_Return.
    apply prog_bind_Return in Hrest as ([v a] & s1 & Hv & Hrest).
    apply prog_bind_Return in Hrest as (rest' & s2 & Hlog & [= <- <-]).
    destruct (IH (S k) (v, a, (vars.2 ++ (train_row <$> losses))
                                ++ [val_row v a]) s1 rest' Hlog)
      as (vars' & Hf & Hvars).
    exists vars'. split; [|by rewrite Hvars; simpl; rewrite <- !app_assoc].
    cbn [seq]. rewrite foldM_cons.
    erewrite prog_bind_step; [exact Hf|].
    apply train_body_Return. by exists losses, s0, v, a.
Qed.

Lemma Trainer_validate_state (t : Trainer fw) w r s' :
  Trainer_validate (t, w) = Return (r, s') →
  ∃ w', s' = (Trainer_eval t, w') ∧ files w' = files w
        ∧ written w' = written w.
Proof.
  rewrite Trainer_validate_eq.
  intros (batches & s2 & Hit & Hrest)%prog_bind_Return.
  apply on_snd_Return in Hit as (w0 & Hit & ->). simpl in Hit.
  apply prog_bind_Return in Hrest as (acc & s3 & [Hacc ->]%lift_Return & Hrest).
  apply prog_bind_Return in Hrest as (l & s4 & [Hl ->]%lift_Return & Hrest).
  apply prog_bind_Return in Hrest as (a & s5 & [Ha ->]%lift_Return & Hrest).
  injection Hrest as <- <-.
  apply DataLoader_iter_Return in Hit as (ex & _ & _ & _ & ->); [|done].
  by eexists.
Qed.

Lemma train_rows_kinds (losses : list pyfloat) :
  kind_of <$> (train_row <$> losses) = replicate (length losses) TrainRow.
Proof.
  induction losses as [|l losses IH]; [done|].
  rewrite !fmap_cons, IH. done.
Qed.

(** The rows of [n] epochs: per epoch, as many training rows as the
    training loader has batches, then one validation row; no file is
    written and the set-up of the trainer is kept. *)
Lemma epochs_log_kinds n (t : Trainer fw) w rest s' :
  0 < dl_batch_size (train_loader (datasets t)) →
  epochs_log n (t, w) = Return (rest, s') →
  kind_of <$> rest
    = concat (replicate n
        (replicate (num_batches
                      (LMDataset_len (dl_dataset (train_loader (datasets t))))
                      (dl_batch_size (train_loader (datasets t))))
                   TrainRow ++ [ValRow]))
  ∧ ∃ t' w', s' = (t', w') ∧ same_setup t t'
             ∧ files w' = files w ∧ written w' = written w.
Proof.
  intros Hbs. revert t w rest Hbs. induction n as [|n IH]; intros t w rest Hbs.
  - intros [= <- <-]. split; [done|]. by exists t, w.
  - cbn [epochs_log].
    intros (losses & s0 & Hte & Hrest)%prog_bind_Return.
    apply prog_bind_Return in Hrest as ([v a] & s1 & Hv & Hrest).
    apply prog_bind_Return in Hrest as (rest' & s2 & Hlog & [= <- <-]).
    apply (Trainer_train_epoch_Return laws) in Hte
      as (Hlen & t1 & w1 & -> & Hs1 & Hf1 & Hw1); [|done].
    apply Trainer_validate_state in Hv as (w2 & -> & Hf2 & Hw2).
    pose proof Hs1 as (Hd & _).
    apply IH in Hlog as (Hkinds & t' & w' & -> & Hs2 & Hf3 & Hw3);
      [|cbn [Trainer_eval Trainer_set_model datasets]; by rewrite Hd].
    change (datasets (Trainer_eval t1)) with (datasets t1) in Hkinds.
    split.
    + rewrite fmap_app. change ([val_row v a] ++ rest') with (val_row v a :: rest').
      rewrite fmap_cons, Hkinds, Hd. cbn [replicate concat].
      rewrite <- app_assoc. f_equal.
      by rewrite <- Hlen, train_rows_kinds.
    + exists t', w'. split_and!; try congruence.
      eapply same_setup_trans; [exact Hs1|].
      eapply same_setup_trans; [apply (same_setup_set_mode t1 false)|exact Hs2].
Qed.

End TrainLog.

Definition artifacts (dir : path) : list path :=
  [path_join dir "model.pth"; path_join dir "vocab.json";
   path_join dir "train.csv"].

(** ** The file system *)

(** The files after [mkdir] has returned. *)
Definition files_mkdir {fw : Framework} (f : gmap path (content fw))
    (dir : path) : gmap path (content fw) :=
  if is_dir f dir then f else <[dir := Directory]> f.

(** A directory in which the run can leave its artifacts: it is there or
    can be made, and no artifact is in the way as a directory. *)
Definition can_save {fw : Framework} (w : world fw) (dir : path) : Prop :=
  is_dir (files w) (parent dir) = true
  ∧ (is_dir (files w) dir = true ∨ files w !! dir = None)
  ∧ ∀ p, p ∈ artifacts dir → is_dir (files w) p = false.

(** What stands between [save_model] and its two files: the directory
    is there or can be made, and neither file is in the way as a
    directory. *)
Definition can_save_model {fw : Framework} (w : world fw) (dir : path)
  : Prop :=
  is_dir (files w) (parent dir) = true
  ∧ (is_dir (files w) dir = true ∨ files w !! dir = None)
  ∧ is_dir (files w) (path_join dir "model.pth") = false
  ∧ is_dir (files w) (path_join dir "vocab.json") = false.

Section Files.
Context {fw : Framework}.
Implicit Types f : gmap path (content fw).

Lemma can_save_can_save_model (w : world fw) dir :
  can_save w dir → can_save_model w dir.
Proof.
  intros (Hpar & Hdir & Hart). unfold can_save_model.
  split_and!; try done; apply Hart; unfold artifacts;
    [by left | right; by left].
Qed.

Lemma parent_path_join (dir : path) name : parent (path_join dir name) = dir.
Proof.
  unfold parent, path_join. rewrite length_app. simpl.
  replace (length dir + 1 - 1) with (length dir) by lia.
  by rewrite take_app_length.
Qed.

Lemma path_join_inj dir a b : path_join dir a = path_join dir b → a = b.
Proof. unfold path_join. by intros [= ->]%app_inv_head. Qed.

Lemma path_join_ne dir name : path_join dir name ≠ dir.
Proof.
  unfold path_join. intros H%(f_equal length).
  rewrite length_app in H. simpl in H. lia.
Qed.

Lemma path_join_not_nil (dir : path) name : path_join dir name ≠ [].
Proof. unfold path_join. by destruct dir. Qed.

Lemma is_dir_true f p :
  is_dir f p = true ↔ p = [] ∨ f !! p = Some Directory.
Proof.
  unfold is_dir. destruct p as [|x p]; [by split; [left|]|].
  destruct (f !! (x :: p)) as [c|]; [destruct c|]; split;
    first [ done | by intros [|] | by intros; right ].
Qed.

Lemma is_dir_false f p :
  is_dir f p = false ↔ p ≠ [] ∧ f !! p ≠ Some Directory.
Proof.
  rewrite <- not_true_iff_false, is_dir_true. split.
  - intros H. split; intros ?; apply H; [by left | by right].
  - intros [? ?] [|]; done.
Qed.

(** A file put at another path changes nothing in what is a directory. *)
Lemma is_dir_insert f q c p : p ≠ q → is_dir (<[q := c]> f) p = is_dir f p.
Proof.
  intros Hne. unfold is_dir. destruct p; [done|].
  by rewrite lookup_insert_ne.
Qed.

Lemma is_dir_insert_dir f q : is_dir (<[q := Directory]> f) q = true.
Proof. unfold is_dir. rewrite lookup_insert_eq. by destruct q. Qed.

(** Where [mkdir] has returned there is a directory. *)
Lemma is_dir_files_mkdir f p : is_dir (files_mkdir f p) p = true.
Proof.
  unfold files_mkdir. destruct (is_dir f p) eqn:Hp; [done|].
  apply is_dir_insert_dir.
Qed.

Lemma files_mkdir_lookup_ne f p q :
  q ≠ p → files_mkdir f p !! q = f !! q.
Proof.
  intros Hne. unfold files_mkdir. destruct (is_dir f p); [done|].
  by rewrite lookup_insert_ne.
Qed.

Lemma is_dir_files_mkdir_ne f p q :
  q ≠ p → is_dir (files_mkdir f p) q = is_dir f q.
Proof.
  intros Hne. unfold is_dir. destruct q; [done|].
  by rewrite files_mkdir_lookup_ne.
Qed.

Lemma mkdir_Return (p : path) (w : world fw) u w' :
  mkdir p w = Return (u, w') ↔
  is_dir (files w) (parent p) = true
  ∧ (is_dir (files w) p = true ∨ files w !! p = None)
  ∧ w' = mkWorld (gen w) (files_mkdir (files w) p) (written w).
Proof.
  unfold mkdir, files_mkdir. destruct u.
  destruct (is_dir (files w) (parent p)) eqn:Hpar;
    [|by split; [|intros [? _]]].
  destruct (is_dir (files w) p) eqn:Hp.
  - split; [intros [= <-]; split_and!; [done|by left|by destruct w] |].
    intros (_ & _ & ->). by destruct w.
  - destruct (files w !! p) as [c|] eqn:Hf; split; try done.
    + by intros (_ & [|] & _).
    + intros [= <-]. split_and!; [done | by right | done].
    + by intros (_ & _ & ->).
Qed.

Lemma write_file_Return (p : path) (c : content fw) (w : world fw) u w' :
  write_file p c w = Return (u, w') ↔
  is_dir (files w) (parent p) = true ∧ is_dir (files w) p = false
  ∧ w' = mkWorld (gen w) (<[p := c]> (files w)) (written w ++ [p]).
Proof.
  unfold write_file, open_w. destruct u.
  destruct (is_dir (files w) (parent p)); [|by split; [|intros [? _]]].
  destruct (is_dir (files w) p); split; try done.
  - by intros (_ & ? & _).
  - by intros [= <-].
  - by intros (_ & _ & ->).
Qed.

Lemma torch_save_Return (p : path) (sd : params fw) (w : world fw) u w' :
  torch_save p sd w = Return (u, w') ↔
  is_dir (files w) (parent p) = true ∧ is_dir (files w) p = false
  ∧ w' = mkWorld (gen w) (<[p := StateDict sd]> (files w)) (written w ++ [p]).
Proof.
  rewrite <- write_file_Return. unfold torch_save.
  by destruct (write_file p (StateDict sd) w) as [[[] ?]|].
Qed.

(** What [torch.save] fails with. *)
Lemma torch_save_Raise (p : path) (sd : params fw) (w : world fw) e :
  torch_save p sd w = Raise e → e = RuntimeError.
Proof.
  unfold torch_save.
  destruct (write_file p (StateDict sd) w) as [[[] ?]|]; [done|].
  by intros [= <-].
Qed.

End Files.

Section SaveModel.
Context {fw : Framework} (text : list N).

(** The files after [save_model] has returned. *)
Definition files_saved (t : Trainer fw) (f : gmap path (content fw))
  : gmap path (content fw) :=
  <[path_join (results_path t) "vocab.json" := Json (vocab text)]>
    (<[path_join (results_path t) "model.pth"
       := StateDict (weights (model t))]>
       (files_mkdir f (results_path t))).

Lemma Trainer_save_model_Return (t : Trainer fw) (w : world fw) u s' :
  Trainer_save_model text (t, w) = Return (u, s') ↔
  is_dir (files w) (parent (results_path t)) = true
  ∧ (is_dir (files w) (results_path t) = true
     ∨ files w !! results_path t = None)
  ∧ is_dir (files w) (path_join (results_path t) "model.pth") = false
  ∧ is_dir (files w) (path_join (results_path t) "vocab.json") = false
  ∧ s' = (t, mkWorld (gen w) (files_saved t (files w))
                     ((written w ++ [path_join (results_path t) "model.pth"])
                      ++ [path_join (results_path t) "vocab.json"])).
Proof.
  unfold Trainer_save_model. rewrite prog_bind_Return. destruct u. split.
  - intros (t0 & s0 & [= <- <-] & Hrest).
    apply prog_bind_Return in Hrest as ([] & s1 & Hmk & Hrest).
    apply on_snd_Return in Hmk as (w1 & (Hpar & Hdir & ->)%mkdir_Return & ->).
    apply prog_bind_Return in Hrest as ([] & s2 & Hsave & Hrest).
    apply on_snd_Return in Hsave
      as (w2 & (_ & Hm & ->)%torch_save_Return & ->).
    apply on_snd_Return in Hrest
      as (w3 & (_ & Hv & ->)%write_file_Return & ->).
    simpl in *.
    rewrite is_dir_files_mkdir_ne in Hm by apply path_join_ne.
    rewrite is_dir_insert in Hv by (intros [=]%path_join_inj).
    rewrite is_dir_files_mkdir_ne in Hv by apply path_join_ne.
    done.
  - intros (Hpar & Hdir & Hm & Hv & ->). exists t, (t, w). split; [done|].
    apply prog_bind_Return. eexists tt, (t, _). split.
    { apply on_snd_Return. eexists. split; [|done].
      apply mkdir_Return. by split_and!. }
    apply prog_bind_Return. eexists tt, (t, _). split.
    { apply on_snd_Return. eexists. split; [|done]. simpl.
      apply torch_save_Return. simpl. split_and!; [| |done].
      - rewrite parent_path_join. apply is_dir_files_mkdir.
      - by rewrite is_dir_files_mkdir_ne by apply path_join_ne. }
    apply on_snd_Return. eexists. split; [|done]. simpl.
    apply write_file_Return. simpl. split_and!; [| |done].
    + rewrite parent_path_join.
      rewrite is_dir_insert by (apply not_eq_sym, path_join_ne).
      apply is_dir_files_mkdir.
    + rewrite is_dir_insert by (intros [=]%path_join_inj).
      by rewrite is_dir_files_mkdir_ne by apply path_join_ne.
Qed.

(** [save_model] returns where the artifacts can be saved. *)
Lemma Trainer_save_model_total (t : Trainer fw) (w : world fw) :
  can_save_model w (results_path t) →
  Trainer_save_model text (t, w)
  = Return (tt, (t, mkWorld (gen w) (files_saved t (files w))
                      ((written w ++ [path_join (results_path t) "model.pth"])
                       ++ [path_join (results_path t) "vocab.json"]))).
Proof.
  intros (Hpar & Hdir & Hm & Hv). apply Trainer_save_model_Return.
  by split_and!.
Qed.

Lemma is_dir_files_saved (t : Trainer fw) f p :
  p ≠ path_join (results_path t) "vocab.json" →
  p ≠ path_join (results_path t) "model.pth" →
  is_dir (files_saved t f) p = is_dir (files_mkdir f (results_path t)) p.
Proof.
  intros H1 H2. unfold files_saved. by rewrite !is_dir_insert.
Qed.

End SaveModel.

Section TrainClaims.
Context {fw : Framework} (laws : FrameworkLaws fw).
Context (text : list N) (num_epoch : nat) (t : Trainer fw) (w : world fw).

(** The files after [train] has returned. *)
Definition files_trained (t1 : Trainer fw) (f : gmap path (content fw))
    (log : list row) : gmap path (content fw) :=
  <[path_join (results_path t1) "train.csv" := Csv columns log]>
    (files_saved text t1 f).

Lemma train_finish (t1 : Trainer fw) (w1 : world fw) (log : list row) u s' :
  (Trainer_save_model text ≫= λ _,
   self ≫= λ t2,
   set_self (mkTrainer (datasets t2) (model t2) (optimizer t2) (loss_fn t2)
                       (results_path t2) (Some (columns, log))) ≫= λ _,
   on_snd (write_file (path_join (results_path t2) "train.csv")
                      (Csv (columns, log).1 (columns, log).2))) (t1, w1)
  = Return (u, s') ↔
  can_save w1 (results_path t1)
  ∧ s' = (mkTrainer (datasets t1) (model t1) (optimizer t1) (loss_fn t1)
                    (results_path t1) (Some (columns, log)),
          mkWorld (gen w1) (files_trained t1 (files w1) log)
                  (written w1 ++ artifacts (results_path t1))).
Proof.
  rewrite prog_bind_Return. destruct u.
  assert (is_dir (files_saved text t1 (files w1))
                 (path_join (results_path t1) "train.csv")
          = is_dir (files w1) (path_join (results_path t1) "train.csv"))
    as Hsame.
  { rewrite is_dir_files_saved by (by intros ?%path_join_inj).
    by rewrite is_dir_files_mkdir_ne by apply path_join_ne. }
  assert (is_dir (files_saved text t1 (files w1)) (results_path t1) = true)
    as Hdir'.
  { rewrite is_dir_files_saved by (apply not_eq_sym, path_join_ne).
    apply is_dir_files_mkdir. }
  split.
  - intros ([] & s0 & (Hpar & Hdir & Hm & Hv & ->)%Trainer_save_model_Return
            & Hrest).
    apply prog_bind_Return in Hrest as (t2 & s1 & [= <- <-] & Hrest).
    apply prog_bind_Return in Hrest as ([] & s2 & [= <-] & Hrest).
    apply on_snd_Return in Hrest as (w3 & (_ & Hc & ->)%write_file_Return & ->).
    simpl in *. rewrite Hsame in Hc. split.
    + split_and!; try done. intros p Hp. unfold artifacts in Hp.
      repeat (apply elem_of_cons in Hp as [->|Hp]); try done.
      by apply elem_of_nil in Hp.
    + unfold artifacts, files_trained. by rewrite <- !app_assoc.
  - intros [Hcan ->]. pose proof Hcan as (Hpar & Hdir & Hart).
    eexists tt, _.
    split; [by apply Trainer_save_model_total, can_save_can_save_model|].
    apply prog_bind_Return. eexists _, _. split; [done|].
    apply prog_bind_Return. eexists tt, _. split; [done|].
    apply on_snd_Return. eexists. split.
    + apply write_file_Return. simpl. split_and!; [| |done].
      * by rewrite parent_path_join.
      * rewrite Hsame. apply Hart. unfold artifacts. do 2 right. by left.
    + simpl. unfold artifacts, files_trained. by rewrite <- !app_assoc.
Qed.

Lemma Trainer_train_Return u s' :
  Trainer_train text num_epoch (t, w) = Return (u, s') →
  ∃ v0 a0 w0 vars t1 w1,
    Trainer_validate (t, w) = Return ((v0, a0), (Trainer_eval t, w0))
    ∧ files w0 = files w ∧ written w0 = written w
    ∧ foldM train_body (v0, a0, [val_row v0 a0]) (seq 0 num_epoch)
            (Trainer_eval t, w0)
      = Return (vars, (t1, w1))
    ∧ can_save w1 (results_path t1)
    ∧ s' = (mkTrainer (datasets t1) (model t1) (optimizer t1) (loss_fn t1)
                      (results_path t1) (Some (columns, vars.2)),
            mkWorld (gen w1) (files_trained t1 (files w1) vars.2)
              (written w1 ++ artifacts (results_path t1))).
Proof.
  unfold Trainer_train.
  intros ([v0 a0] & s0 & Hv & Hrest)%prog_bind_Return.
  pose proof Hv as (w0 & -> & Hf0 & Hw0)%Trainer_validate_state; [|done].
  apply prog_bind_Return in Hrest as ([[v a] log] & [t1 w1] & Hloop & Hrest).
  apply train_finish in Hrest as [Hcan ->].
  by exists v0, a0, w0, (v, a, log), t1, w1.
Qed.

Lemma Trainer_train_of_loop v0 a0 w0 vars t1 w1 :
  Trainer_validate (t, w) = Return ((v0, a0), (Trainer_eval t, w0)) →
  foldM train_body (v0, a0, [val_row v0 a0]) (seq 0 num_epoch)
        (Trainer_eval t, w0)
    = Return (vars, (t1, w1)) →
  can_save w1 (results_path t1) →
  ∃ s', Trainer_train text num_epoch (t, w) = Return (tt, s').
Proof.
  intros Hv Hloop Hcan. unfold Trainer_train.
  rewrite (prog_bind_step _ _ _ _ _ Hv).
  rewrite (prog_bind_step _ _ _ _ _ Hloop).
  destruct vars as [[v a] log]. eexists.
  apply train_finish. split; [done|reflexivity].
Qed.

(** C8: a run of [train] that completes leaves a log that starts with one
    validation row and continues, epoch after epoch, with one training row
    per batch of the training loader and then one validation row; the rows
    are those of the epochs in order; the log after the first [k] epochs is
    a prefix of the final one; the log is written to [train.csv] with the
    three columns, as the last of exactly three files written by the run.
    The run completes on a well-formed trainer with validation data. *)
Theorem train_metrics_log :
  0 < dl_batch_size (train_loader (datasets t)) →
  (∀ t' w',
     Trainer_train text num_epoch (t, w) = Return (tt, (t', w')) →
     ∃ val_loss accuracy s0 rest s1,
       Trainer_validate (t, w) = Return ((val_loss, accuracy), s0)
       ∧ epochs_log num_epoch s0 = Return (rest, s1)
       ∧ let log := val_row val_loss accuracy :: rest in
         kind_of <$> log
           = ValRow :: concat (replicate num_epoch
               (replicate
                  (num_batches
                     (LMDataset_len (dl_dataset (train_loader (datasets t))))
                     (dl_batch_size (train_loader (datasets t))))
                  TrainRow ++ [ValRow]))
         ∧ train_df t' = Some (columns, log)
         ∧ files w' !! path_join (results_path t) "train.csv"
           = Some (Csv columns log)
         ∧ written w' = written w ++ artifacts (results_path t)
         ∧ ∀ k vars s,
             k ≤ num_epoch →
             foldM train_body (val_loss, accuracy, [val_row val_loss accuracy])
                   (seq 0 k) s0 = Return (vars, s) →
             vars.2 `prefix_of` log)
  ∧ (trainer_ok t → val_data t ≠ mkLMDataset [] [] →
     can_save w (results_path t) →
     ∃ t' w', Trainer_train text num_epoch (t, w) = Return (tt, (t', w'))).
Proof.
  intros Hbs. split.
  - intros t' w' (v0 & a0 & w0 & vars & t1 & w1 & Hv & Hf0 & Hw0 & Hloop
                  & _ & Hs')%Trainer_train_Return.
    injection Hs' as -> ->.
    pose proof Hloop as (rest & Hlog & Hvars)%train_loop_log.
    simpl in Hvars.
    pose proof Hlog as (Hkinds & t2 & w2 & [= <- <-] & Hs & Hf & Hw)
      %(epochs_log_kinds laws); [|done].
    destruct Hs as (_ & _ & Hpath & _).
    exists v0, a0, (Trainer_eval t, w0), rest, (t1, w1).
    split; [done|]. split; [done|].
    simpl. rewrite Hvars. simpl in Hpath. rewrite Hpath. split_and!.
    + f_equal. exact Hkinds.
    + done.
    + unfold files_trained. rewrite Hpath. by rewrite lookup_insert_eq.
    + by rewrite Hw, Hw0.
    + intros k vars' s Hk Hpre.
      replace num_epoch with (k + (num_epoch - k)) in Hloop by lia.
      rewrite seq_app, foldM_app in Hloop.
      rewrite (prog_bind_step _ _ _ _ _ Hpre) in Hloop.
      apply train_loop_log in Hloop as (rest' & _ & Hvars').
      exists rest'. by rewrite <- Hvars, Hvars'.
  - intros Hok Hne Hcan.
    destruct (Trainer_validate_total laws t w Hok Hne) as (v0 & a0 & w0 & Hv).
    pose proof Hv as (w0' & [= <-] & Hf0 & _)%(Trainer_validate_state laws).
    destruct (foldM_invariant
                (λ s : run fw, trainer_ok s.1 ∧ same_setup t s.1
                               ∧ files s.2 = files w)
                train_body (seq 0 num_epoch) (v0, a0, [val_row v0 a0])
                (Trainer_eval t, w0))
      as (vars & [t1 w1] & Hloop & _ & Hs1 & Hf1).
    + intros acc e [t2 w2] _ (Hok2 & Hs2 & Hf2). simpl in *.
      destruct (Trainer_train_epoch_total laws t2 w2 Hok2)
        as (losses & t3 & w3 & Hte & Hok3 & Hs3).
      destruct (Trainer_validate_total laws t3 w3 Hok3)
        as (v & a & w4 & Hv3).
      { destruct Hs2 as (E2 & _), Hs3 as (E3 & _).
        unfold val_data in *. by rewrite E3, E2. }
      pose proof Hv3
        as (w4' & [= <-] & Hf4 & _)%(Trainer_validate_state laws).
      pose proof Hok2 as (_ & _ & _ & _ & Hb2 & _).
      pose proof (Trainer_train_epoch_Return laws _ _ _ _ Hb2 Hte)
        as (_ & t3' & w3' & [= <- <-] & _ & Hf3 & _).
      eexists _, (Trainer_eval t3, w4). split.
      { apply train_body_Return. by exists losses, (t3, w3), v, a. }
      simpl. split; [|split].
      * by apply trainer_ok_set_mode.
      * eapply same_setup_trans; [exact Hs2|].
        eapply same_setup_trans; [exact Hs3|].
        apply (same_setup_set_mode t3 false).
      * by rewrite Hf4, Hf3, Hf2.
    + simpl. split; [by apply trainer_ok_set_mode|]. split; [|done].
      apply (same_setup_set_mode t false).
    + simpl in *.
      destruct (Trainer_train_of_loop _ _ _ _ _ _ Hv Hloop) as [[t' w'] Hs].
      { destruct Hs1 as (_ & _ & Hpath & _). unfold can_save.
        by rewrite Hpath, Hf1. }
      by exists t', w'.
Qed.

End TrainClaims.


Lemma train_metrics_log_witness :
  0 < dl_batch_size (train_loader (datasets toy_trainer))
  ∧ ∃ t' w',
      Trainer_train toy_corpus 2 (toy_trainer, toy_world) = Return (tt, (t', w')).
Proof.
  assert (0 < dl_batch_size (train_loader (datasets toy_trainer))) as Hbs
    by (vm_compute; lia).
  split; [exact Hbs|].
  apply (proj2 (train_metrics_log toy_laws toy_corpus 2 toy_trainer toy_world
                  Hbs)).
  - apply toy_trainer_ok.
  - by vm_compute.
  - split_and!; [done | by right |].
    intros p Hp. apply is_dir_false. split; [|done].
    unfold artifacts in Hp.
    repeat (apply elem_of_cons in Hp as [->|Hp]); try done.
    by apply elem_of_nil in Hp.
Defined.

(** The kinds of the rows of the log and the files written, after a run. *)
Definition run_summary {fw : Framework} (r : result (unit * run fw))
  : result (option (list row_kind) * list path) :=
  match r with
  | Return (_, (t', w')) =>
      Return ((λ df : list string * list row, kind_of <$> df.2) <$> train_df t',
              written w')
  | Raise e => Raise e
  end.

Example train_toy :
  run_summary (Trainer_train toy_corpus 2 (toy_trainer, toy_world))
    = Return (Some ([ValRow] ++ replicate 7 TrainRow ++ [ValRow]
                    ++ replicate 7 TrainRow ++ [ValRow]),
              [["results"; "model.pth"]; ["results"; "vocab.json"];
               ["results"; "train.csv"]]).
Proof. vm_compute. reflexivity. Qed.
(** ** The sampler *)

(** A generation session as the specification words it: the first step
    reads the given tokens from the given state; every later step reads
    the one token just sampled, from the state the previous step returned. *)
Fixpoint generate {fw : Framework} (text : list N) (p : Predictor fw)
    (temperature : Qc) (n : nat) (tokens : list nat)
    (states : option (list (lstm_state fw))) : prog (world fw) (list N) :=
  match n with
  | O => mret []
  | S n' =>
      '(output, states') ←
        lift (LstmLM_predict (p_model p) (T1 tokens) states temperature) ;
      predicted_idx ← sample_last output ;
      predicted_char ← lift (list_getitem (vocab text) predicted_idx) ;
      rest ← generate text p temperature n' [predicted_idx] (Some states') ;
      mret (predicted_char :: rest)
  end.


Lemma prog_bind_assoc {S A B C : Type} (m : prog S A) (f : A → prog S B)
    (g : B → prog S C) s :
  ((m ≫= f) ≫= g) s = (m ≫= λ a, f a ≫= g) s.
Proof.
  unfold mbind, prog_bind. by destruct (m s) as [[a s1]|e].
Qed.

Lemma prog_bind_ext {S A B : Type} (m : prog S A) (f g : A → prog S B) s :
  (∀ a s', f a s' = g a s') → (m ≫= f) s = (m ≫= g) s.
Proof.
  intros H. unfold mbind, prog_bind. by destruct (m s) as [[a s1]|e].
Qed.

Lemma prog_ret_bind {S A B : Type} (a : A) (f : A → prog S B) s :
  (mret a ≫= f) s = f a s.
Proof. done. Qed.

(** The loop body and the whole of [predict] for a given predictor, as
    programs of the world alone: what [predict] computes does not depend on
    the mode it puts the model in. *)
Definition step_with {fw : Framework} (text : list N) (p : Predictor fw)
    (temperature : Qc) (s : session fw) (_ : nat)
  : prog (world fw) (session fw) :=
  '(output, states) ←
    lift (LstmLM_predict (p_model p) (s_tokens s) (s_states s) temperature) ;
  predicted_idx ← sample_last output ;
  predicted_char ← lift (list_getitem (vocab text) predicted_idx) ;
  mret (mkSession (T1 [predicted_idx]) (Some states)
                  (s_generated s ++ [predicted_char])).

Definition predict_with {fw : Framework} (text : list N)
    (p : Predictor fw) (seed : list N) (max_length : nat) (temperature : Qc)
  : prog (world fw) (list N) :=
  tokens ← lift (comprehension (getitem (char2idx text)) seed) ;
  s ← foldM (step_with text p temperature)
            (mkSession (T1 tokens) None []) (seq 0 max_length) ;
  mret (s_generated s).

(** The predictor after [self.model.eval()]. *)
Definition Predictor_eval {fw : Framework} (p : Predictor fw) : Predictor fw :=
  mkPredictor (LstmLM_eval (p_model p)).

(** A program of the world run beside an object that it leaves alone. *)
Definition beside {O W A : Type} (o : O) (r : result (A * W))
  : result (A * (O * W)) :=
  match r with
  | Return (a, w) => Return (a, (o, w))
  | Raise e => Raise e
  end.

Section PredictWith.
Context {fw : Framework}.
Context (text : list N) (temperature : Qc).

Lemma predict_step_with (p : Predictor fw) s k (w : world fw) :
  predict_step text temperature s k (p, w)
  = beside p (step_with text p temperature s k w).
Proof.
  unfold predict_step, step_with, mbind, prog_bind, self, lift, on_snd.
  simpl.
  destruct (LstmLM_predict _ _ _ _) as [[output states]|e]; [|reflexivity].
  simpl.
  destruct (sample_last output w) as [[idx w1]|e]; [|reflexivity]. simpl.
  destruct (list_getitem (vocab text) idx); reflexivity.
Qed.

Lemma predict_loop_with (p : Predictor fw) l s (w : world fw) :
  foldM (predict_step text temperature) s l (p, w)
  = beside p (foldM (step_with text p temperature) s l w).
Proof.
  revert s w. induction l as [|k l IH]; intros s w; [reflexivity|].
  rewrite !foldM_cons.
  change ((predict_step text temperature s k
             ≫= λ acc', foldM (predict_step text temperature) acc' l) (p, w))
    with (match predict_step text temperature s k (p, w) with
          | Return (s1, st) => foldM (predict_step text temperature) s1 l st
          | Raise e => Raise e
          end).
  change ((step_with text p temperature s k
             ≫= λ acc', foldM (step_with text p temperature) acc' l) w)
    with (match step_with text p temperature s k w with
          | Return (s1, st) => foldM (step_with text p temperature) s1 l st
          | Raise e => Raise e
          end).
  rewrite predict_step_with.
  destruct (step_with text p temperature s k w) as [[s1 w1]|e];
    [|reflexivity].
  apply IH.
Qed.

Lemma step_with_eval (p : Predictor fw) :
  step_with text (Predictor_eval p) temperature = step_with text p temperature.
Proof. reflexivity. Qed.

(** [predict] puts the model in evaluation mode and computes what it
    computes in any mode. *)
Lemma Predictor_predict_with (p : Predictor fw) seed max_length (w : world fw) :
  Predictor_predict text seed max_length temperature (p, w)
  = beside (Predictor_eval p) (predict_with text p seed max_length temperature w).
Proof.
  unfold Predictor_predict, predict_with.
  assert (∀ {S A B : Type} (r : result A) (k : A → prog S B) (st : S),
            (lift r ≫= k) st
            = match r with Return a => k a st | Raise e => Raise e end)
    as Hlift by (by intros S A B [a|e] k st).
  rewrite !Hlift.
  destruct (comprehension (getitem (char2idx text)) seed) as [tokens|e];
    [|reflexivity].
  change ((self ≫= λ p0 : Predictor fw,
             set_self (mkPredictor (LstmLM_eval (p_model p0))) ≫= λ _,
             foldM (predict_step text temperature)
                   (mkSession (T1 tokens) None []) (seq 0 max_length)
             ≫= λ s, mret (s_generated s)) (p, w))
    with (match foldM (predict_step text temperature)
                      (mkSession (T1 tokens) None []) (seq 0 max_length)
                      (Predictor_eval p, w) with
          | Return (s, st) => Return (s_generated s, st)
          | Raise e => Raise e
          end).
  rewrite predict_loop_with, step_with_eval.
  unfold mbind, prog_bind.
  destruct (foldM _ _ _ w) as [[s1 w1]|e]; reflexivity.
Qed.

Lemma Predictor_predict_Return_with (p : Predictor fw) seed n (w : world fw)
    g s' :
  Predictor_predict text seed n temperature (p, w) = Return (g, s') ↔
  ∃ w', predict_with text p seed n temperature w = Return (g, w')
        ∧ s' = (Predictor_eval p, w').
Proof.
  rewrite Predictor_predict_with.
  destruct (predict_with text p seed n temperature w) as [[g1 w1]|e]; simpl.
  - split; [intros [= <- <-]; by exists w1 | by intros (w' & [= <- <-] & ->)].
  - split; [done | by intros (w' & ? & _)].
Qed.

Lemma Predictor_predict_Raise_with (p : Predictor fw) seed n (w : world fw) e :
  Predictor_predict text seed n temperature (p, w) = Raise e ↔
  predict_with text p seed n temperature w = Raise e.
Proof.
  rewrite Predictor_predict_with.
  destruct (predict_with text p seed n temperature w) as [[g1 w1]|e1];
    simpl; [done|]. split; by intros [= <-].
Qed.

End PredictWith.

Section Sampler.
Context {fw : Framework}.
Context (text : list N) (p : Predictor fw) (temperature : Qc).

Lemma step_with_Return s k (w w' : world fw) s' :
  step_with text p temperature s k w = Return (s', w') ↔
  ∃ output states idx c,
    LstmLM_predict (p_model p) (s_tokens s) (s_states s) temperature
      = Return (output, states)
    ∧ sample_last output w = Return (idx, w')
    ∧ list_getitem (vocab text) idx = Return c
    ∧ s' = mkSession (T1 [idx]) (Some states) (s_generated s ++ [c]).
Proof.
  unfold step_with. rewrite prog_bind_Return. split.
  - intros ([output states] & w1 & [Hp ->]%lift_Return & Hrest).
    apply prog_bind_Return in Hrest as (idx & w2 & Hs & Hrest).
    apply prog_bind_Return in Hrest as (c & w3 & [Hc ->]%lift_Return & Hrest).
    injection Hrest as <- <-. by exists output, states, idx, c.
  - intros (output & states & idx & c & Hp & Hs & Hc & ->).
    exists (output, states), w. split; [by apply lift_Return|].
    rewrite (prog_bind_step _ _ _ _ _ Hs).
    erewrite prog_bind_step; [|apply lift_Return; split; [exact Hc|done]].
    done.
Qed.

Lemma step_with_eq s k :
  step_with text p temperature s k
  = (lift (LstmLM_predict (p_model p) (s_tokens s) (s_states s) temperature)
     ≫= λ '(output, states),
       sample_last output ≫= λ predicted_idx,
       lift (list_getitem (vocab text) predicted_idx) ≫= λ predicted_char,
       mret (mkSession (T1 [predicted_idx]) (Some states)
                       (s_generated s ++ [predicted_char]))).
Proof. done. Qed.

(** The loop of [predict], started in the middle of a session, is the rest
    of the session appended to what was generated so far. *)
Lemma predict_loop_generate n k tokens states generated (w : world fw) :
  (foldM (step_with text p temperature)
         (mkSession (T1 tokens) states generated) (seq k n)
   ≫= λ s, mret (s_generated s)) w
  = (generate text p temperature n tokens states
     ≫= λ rest, mret (generated ++ rest)) w.
Proof.
  revert k tokens states generated w.
  induction n as [|n IH]; intros k tokens states generated w.
  - cbn [seq foldM generate]. rewrite !prog_ret_bind. cbn [s_generated].
    by rewrite app_nil_r.
  - cbn [seq generate]. rewrite foldM_cons.
    rewrite step_with_eq. cbn [s_tokens s_states s_generated].
    rewrite !prog_bind_assoc. apply prog_bind_ext. intros [output st] w1.
    cbv beta iota.
    rewrite !prog_bind_assoc. apply prog_bind_ext. intros idx w2.
    rewrite !prog_bind_assoc. apply prog_bind_ext. intros c w3.
    rewrite prog_ret_bind, IH, prog_bind_assoc.
    apply prog_bind_ext. intros rest w4.
    by rewrite prog_ret_bind, <- app_assoc.
Qed.

Lemma prog_bind_ret_r {S A : Type} (m : prog S A) s :
  (m ≫= λ a, mret a) s = m s.
Proof. unfold mbind, prog_bind. by destruct (m s) as [[a s1]|e]. Qed.

(** [predict] is: encode the seed with the module-level mapping, then run a
    session from the encoded seed and no state. *)
Lemma predict_with_generate seed max_length (w : world fw) :
  predict_with text p seed max_length temperature w
  = (lift (comprehension (getitem (char2idx text)) seed)
     ≫= λ tokens, generate text p temperature max_length tokens None) w.
Proof.
  unfold predict_with. apply prog_bind_ext. intros tokens w1.
  rewrite predict_loop_generate. by rewrite prog_bind_ret_r.
Qed.

End Sampler.

(** ** Which exceptions a session can raise *)

Definition exn_of {A : Type} (r : result A) : option exn :=
  match r with
  | Return _ => None
  | Raise e => Some e
  end.

Definition no_KeyError {A : Type} (r : result A) : Prop :=
  ∀ c, exn_of r ≠ Some (KeyError c).

Section Exceptions.

Lemma bind_no_KeyError {A B : Type} (m : result A) (k : A → result B) :
  no_KeyError m → (∀ a, no_KeyError (k a)) → no_KeyError (m ≫= k).
Proof.
  intros Hm Hk c. destruct m as [a|e]; simpl; [apply Hk | apply (Hm c)].
Qed.

Lemma prog_bind_no_KeyError {S A B : Type} (m : prog S A) (k : A → prog S B) s :
  no_KeyError (m s) → (∀ a s', no_KeyError (k a s')) →
  no_KeyError ((m ≫= k) s).
Proof.
  intros Hm Hk c. unfold mbind, prog_bind.
  destruct (m s) as [[a s1]|e]; [apply Hk | apply (Hm c)].
Qed.

Lemma lift_no_KeyError {S A : Type} (r : result A) (s : S) :
  no_KeyError r → no_KeyError (lift r s).
Proof. intros Hr c. unfold lift. destruct r; [done | apply (Hr c)]. Qed.

Lemma comprehension_no_KeyError {A B : Type} (f : A → result B) l :
  (∀ a, no_KeyError (f a)) → no_KeyError (comprehension f l).
Proof.
  intros Hf. induction l as [|x l IH]; [done|].
  rewrite comprehension_cons. apply bind_no_KeyError; [apply Hf|].
  intros y. by apply bind_no_KeyError.
Qed.

Lemma zip_same_no_KeyError {A B C : Type} (f : A → B → C) l k :
  no_KeyError (zip_same f l k).
Proof.
  revert k. induction l as [|a l IH]; intros [|b k]; simpl; try done.
  by apply bind_no_KeyError.
Qed.

Context {fw : Framework}.

Lemma LstmLM_predict_no_KeyError (m : LstmLM fw) x states temperature :
  no_KeyError (LstmLM_predict m x states temperature).
Proof.
  unfold LstmLM_predict. apply bind_no_KeyError.
  - unfold embedding, tmapM.
    assert (∀ i, no_KeyError (embedding_lookup m i)) as Hl.
    { intros i c. unfold embedding_lookup. by destruct (i <? num_embeddings m). }
    destruct x as [v|b]; apply bind_no_KeyError; try done.
    + by apply comprehension_no_KeyError.
    + apply comprehension_no_KeyError. intros row.
      by apply comprehension_no_KeyError.
  - intros o1. apply bind_no_KeyError; [|done].
    unfold lstm. destruct o1 as [v|b].
    + destruct (no_step v); [done|]. apply bind_no_KeyError.
      * by destruct states as [[|s [|s' ss]]|].
      * intros s0. by destruct (lstm_seq (weights m) v s0).
    + destruct (existsb no_step b); [done|].
      apply bind_no_KeyError; [by destruct states|].
      intros ss. apply bind_no_KeyError; [apply zip_same_no_KeyError | done].
Qed.

Lemma sample_last_no_KeyError (output : tensor (list pyfloat)) (w : world fw) :
  no_KeyError (sample_last output w).
Proof.
  unfold sample_last. apply prog_bind_no_KeyError.
  - apply lift_no_KeyError. unfold tlast.
    destruct output as [v|b]; [by destruct (list.last v) | by destruct (list.last b)].
  - intros [|d [|d' r]] w1; try done.
    intros c. unfold multinomial_1. destruct (finite_row d) as [probs|]; [|done].
    unfold draw. by destruct (multinomial fw probs (gen w1)).
Qed.

Lemma generate_no_KeyError text (p : Predictor fw) temperature n tokens states
    (w : world fw) :
  no_KeyError (generate text p temperature n tokens states w).
Proof.
  revert tokens states w. induction n as [|n IH]; intros tokens states w; [done|].
  cbn [generate]. apply prog_bind_no_KeyError.
  { apply lift_no_KeyError, LstmLM_predict_no_KeyError. }
  intros [output st] w1. apply prog_bind_no_KeyError.
  { apply sample_last_no_KeyError. }
  intros idx w2. apply prog_bind_no_KeyError.
  { apply lift_no_KeyError. unfold list_getitem.
    by destruct (vocab text !! idx). }
  intros ch w3. apply prog_bind_no_KeyError; [apply IH | done].
Qed.

End Exceptions.

(** ** Sessions return *)

Section SessionReturns.
Context {fw : Framework} (laws : FrameworkLaws fw).
Context (text : list N) (p : Predictor fw) (temperature : Qc).

Lemma last_fmap_length {A B : Type} (f : A → B) (l : list A) :
  l ≠ [] → ∃ a, list.last (f <$> l) = Some (f a).
Proof.
  intros Hl. destruct (list.last l) as [a|] eqn:Ha.
  - exists a. by rewrite fmap_last, Ha.
  - by apply last_None in Ha.
Qed.








End SessionReturns.

(** ** Encoding the seed *)

Section Encoding.
Context (c2i : gmap N nat).

Lemma encode_cases (seed : list N) :
  (∃ tokens, comprehension (getitem c2i) seed = Return tokens)
  ∨ (∃ c, c ∈ seed ∧ c2i !! c = None
          ∧ comprehension (getitem c2i) seed = Raise (KeyError c)).
Proof.
  induction seed as [|x seed IH]; [left; by exists []|].
  rewrite comprehension_cons.
  destruct (c2i !! x) as [i|] eqn:Hx.
  - assert (getitem c2i x = Return i) as ->
      by (unfold getitem; by rewrite Hx).
    rewrite bind_Return_l. destruct IH as [[tokens ->]|(c & Hc & Hn & ->)].
    + left. by eexists.
    + right. exists c. split; [by right | done].
  - assert (getitem c2i x = Raise (KeyError x)) as ->
      by (unfold getitem; by rewrite Hx).
    right. exists x. split; [by left | done].
Qed.

Lemma encode_exn (seed : list N) c :
  exn_of (comprehension (getitem c2i) seed) = Some (KeyError c) →
  c ∈ seed ∧ c2i !! c = None.
Proof.
  destruct (encode_cases seed) as [[tokens ->]|(c' & Hc & Hn & ->)]; [done|].
  by intros [= <-].
Qed.

End Encoding.

(** A method called on a local object, which is dropped afterwards. *)
Definition call {O W A : Type} (o : O) (m : prog (O * W) A) : prog W A :=
  λ w, match m (o, w) with
       | Return (a, (_, w')) => Return (a, w')
       | Raise e => Raise e
       end.

(** The script's [predict()] (lines 258-261), for any directory, seed,
    length and temperature. *)
Definition predict_from {fw : Framework} (text : list N) (model_dir : path)
    (seed : list N) (max_length : nat) (temperature : Qc)
  : prog (world fw) (list N) :=
  predictor ← Predictor_init model_dir ;
  call predictor (Predictor_predict text seed max_length temperature).


Section PredictClaims.
Context {fw : Framework} (laws : FrameworkLaws fw).
Context (text : list N) (p : Predictor fw).

Lemma char2idx_None c : char2idx text !! c = None ↔ c ∉ vocab text.
Proof.
  rewrite elem_of_vocab, <- char2idx_is_Some, eq_None_not_Some. done.
Qed.

Lemma exn_of_beside {O W A : Type} (o : O) (r : result (A * W)) :
  exn_of (beside o r) = exn_of r.
Proof. by destruct r as [[a w]|e]. Qed.

(** C2, as the code has it: [predict] encodes the seed with the
    module-level [char2idx], built from the training split of the corpus
    read at import; it raises [KeyError] exactly when the seed holds a
    character that is not in the module-level vocabulary, and otherwise
    puts the model in evaluation mode and starts the session from the
    positions of the seed characters in that vocabulary.  The vocabulary
    that [save_model] persists is the module-level one. *)
Theorem predict_encodes_seed (seed : list N) (max_length : nat)
    (temperature : Qc) (w : world fw) :
  ((∃ c, exn_of (Predictor_predict text seed max_length temperature (p, w))
         = Some (KeyError c))
   ↔ ∃ c, c ∈ seed ∧ c ∉ vocab text)
  ∧ ((∀ c, c ∈ seed → c ∈ vocab text) →
     ∃ tokens,
       comprehension (getitem (char2idx text)) seed = Return tokens
       ∧ Forall2 (λ c i, vocab text !! i = Some c) seed tokens
       ∧ Predictor_predict text seed max_length temperature (p, w)
         = beside (Predictor_eval p)
                  (generate text p temperature max_length tokens None w))
  ∧ (∀ (t : Trainer fw) (w0 : world fw) u s1,
     Trainer_save_model text (t, w0) = Return (u, s1) →
     files s1.2 !! path_join (results_path t) "vocab.json"
       = Some (Json (vocab text))).
Proof.
  rewrite Predictor_predict_with.
  split_and!.
  - split.
    + intros [c Hc]. rewrite exn_of_beside, predict_with_generate in Hc.
      destruct (encode_cases (char2idx text) seed)
        as [[tokens Ht]|(c' & Hin & Hn & Hr)].
      * exfalso. revert Hc. unfold mbind, prog_bind, lift. rewrite Ht.
        apply generate_no_KeyError.
      * exists c'. split; [done | by apply char2idx_None].
    + intros (c & Hin & Hn%char2idx_None).
      destruct (encode_cases (char2idx text) seed)
        as [[tokens Ht]|(c' & _ & _ & Hr)].
      * apply encode_Return in Ht.
        apply list_elem_of_lookup in Hin as [j Hj].
        destruct (Forall2_lookup_l _ _ _ _ _ Ht Hj) as (i & _ & Hi).
        congruence.
      * exists c'. rewrite exn_of_beside, predict_with_generate.
        unfold mbind, prog_bind, lift. by rewrite Hr.
  - intros Hknown.
    destruct (encode_cases (char2idx text) seed)
      as [[tokens Ht]|(c' & Hin & Hn%char2idx_None & _)];
      [|by specialize (Hknown c' Hin)].
    exists tokens. split; [done|]. split.
    + apply encode_Return in Ht.
      eapply Forall2_impl; [exact Ht|]. intros c i. apply char2idx_lookup.
    + rewrite predict_with_generate.
      unfold mbind, prog_bind, lift. by rewrite Ht.
  - intros t w0 u s1 (_ & _ & _ & _ & ->)%Trainer_save_model_Return.
    simpl. unfold files_saved. apply lookup_insert_eq.
Qed.


End PredictClaims.

(** Artifacts of an earlier run on a corpus over the characters [a] and
    [b], found by a module whose corpus now holds the character [a] only. *)
Definition stale_world : world toy :=
  mkWorld (0 : rng toy)
    (<[["results"; "vocab.json"] := Json (text_of "ab")]>
     (<[["results"; "model.pth"]
        := StateDict (mkDims 2 2 50 50 : params toy)]>
      (<[["results"] := Directory]> ∅)))
    [].

Definition flat_corpus : list N := text_of "aaaaaaaaaa".

(** C2 as stated fails: the character [b] is in the persisted vocabulary,
    and encoding the seed raises [KeyError] on it all the same. *)
Lemma predict_ignores_persisted_vocabulary :
  files stale_world !! ["results"; "vocab.json"] = Some (Json (text_of "ab"))
  ∧ text_of "b" ⊆ text_of "ab"
  ∧ exn_of (predict_from flat_corpus ["results"] (text_of "b") 1 1%Qc stale_world)
    = Some (KeyError 98%N).
Proof.
  split_and!.
  - by vm_compute.
  - intros c ->%list_elem_of_singleton. by right; left.
  - by vm_compute.
Qed.

Definition toy_predictor : Predictor toy := mkPredictor (model toy_trainer).



Example predict_toy :
  value (Predictor_predict toy_corpus (text_of "a") 5 (Q2Qc (1 # 2))
           (toy_predictor, toy_world))
    = Return (text_of "bcabc").
Proof. by vm_compute. Qed.

(** At temperature zero the division gives infinities and the draw is
    refused. *)
Example predict_toy_zero :
  value (Predictor_predict toy_corpus (text_of "a") 5 0%Qc
           (toy_predictor, toy_world))
    = Raise RuntimeError.
Proof. by vm_compute. Qed.

(** ** Persisting and reloading *)

(** [save_model()] followed by [Predictor(results_path)]. *)
Definition save_and_reload {fw : Framework} (text : list N)
  : prog (run fw) (Predictor fw) :=
  Trainer_save_model text ;;
  t ← self ;
  on_snd (Predictor_init (results_path t)).



Section GenOnly.
Context {fw : Framework}.









End GenOnly.

Section Reload.
Context {fw : Framework} (laws : FrameworkLaws fw).
Context (text : list N).


(** What [Predictor(model_dir)] finds after [save_model]. *)
Lemma Predictor_init_saved dir sd (w : world fw) :
  files w !! path_join dir "vocab.json" = Some (Json (vocab text)) →
  files w !! path_join dir "model.pth" = Some (StateDict sd) →
  Predictor_init dir w
  = match decide (params_dims fw sd
                  = mkDims (vocab_size text) (vocab_size text) 50 50) with
    | left _ =>
        Return (mkPredictor (mkLstmLM (vocab_size text) (vocab_size text)
                                      50 50 true sd),
                mkWorld (init_params fw
                           (mkDims (vocab_size text) (vocab_size text) 50 50)
                           (gen w)).2
                        (files w) (written w))
    | right _ => Raise RuntimeError
    end.
Proof.
  intros Hv Hm. unfold Predictor_init, json_load, torch_load, read_file,
    draw, LstmLM_init, load_state_dict, mbind, prog_bind, lift,
    mret, prog_ret.
  rewrite Hv. change (length (vocab text)) with (vocab_size text).
  destruct (init_params fw _ (gen w)) as [p0 g] eqn:Hi.
  cbn [files gen written].
  rewrite Hm. unfold LstmLM_dims, LstmLM_set_weights.
  cbn [num_classes num_embeddings embedding_dim hidden_size training snd].
  by destruct (decide (params_dims fw sd
                       = mkDims (vocab_size text) (vocab_size text) 50 50)).
Qed.






End Reload.



(** An empty file system, where [results] can be made. *)
Lemma toy_world_can_save : can_save toy_world ["results"].
Proof.
  split_and!; [done | by right |].
  intros p Hp. apply is_dir_false. split; [|done].
  unfold artifacts in Hp.
  repeat (apply elem_of_cons in Hp as [->|Hp]); try done.
  by apply elem_of_nil in Hp.
Qed.


Example reload_toy :
  value (save_and_reload toy_corpus (toy_trainer, toy_world))
    = Return toy_predictor.
Proof. by vm_compute. Qed.

(** A results directory below a directory that does not exist. *)
Example reload_no_parent :
  value (save_and_reload toy_corpus
           (mkTrainer (datasets toy_trainer) (model toy_trainer)
                      (optimizer toy_trainer) (loss_fn toy_trainer)
                      ["missing"; "results"] None,
            toy_world))
    = Raise FileNotFoundError.
Proof. by vm_compute. Qed.

(** * Further properties of the code *)

(** ** Exceptions of the dataset constructor *)

Section Raises.
Context {A B : Type}.

Lemma comprehension_Raise (f : A → result B) l e :
  comprehension f l = Raise e → ∃ x, x ∈ l ∧ f x = Raise e.
Proof.
  induction l as [|x l IH]; [done|]. rewrite comprehension_cons.
  destruct (f x) as [y|e'] eqn:Hx.
  - rewrite bind_Return_l.
    destruct (comprehension f l) as [ys|e'] eqn:Hl; [done|].
    intros [= ->]. destruct IH as (x' & Hin & Hx'); [done|].
    exists x'. split; [by right | done].
  - intros [= ->]. exists x. split; [by left | done].
Qed.

Lemma comprehension_cases (f : A → result B) l :
  (∃ r, comprehension f l = Return r)
  ∨ (∃ e, comprehension f l = Raise e).
Proof. destruct (comprehension f l); [left | right]; by eexists. Qed.

Lemma for_Raise {S : Type} (body : A → S → result S) l s e :
  for_ l s body = Raise e → ∃ x s0, x ∈ l ∧ body x s0 = Raise e.
Proof.
  revert s. induction l as [|x l IH]; intros s; [done|]. cbn [for_].
  destruct (body x s) as [s1|e'] eqn:Hx.
  - rewrite bind_Return_l. intros (x' & s0 & Hin & Hx')%IH.
    exists x', s0. split; [by right | done].
  - intros [= ->]. exists x, s. split; [by left | done].
Qed.

End Raises.

Section DatasetErrors.
Context (c2i : gmap N nat) (dataset : list N) (max_length : nat).

Lemma getitem_Raise c e :
  getitem c2i c = Raise e → e = KeyError c ∧ c2i !! c = None.
Proof.
  unfold getitem. destruct (c2i !! c); [done|]. by intros [= <-].
Qed.

Lemma LMDataset_body_Raise i d e :
  LMDataset_body c2i dataset max_length i d = Raise e →
  ∃ c, e = KeyError c ∧ c ∈ slice dataset i (i + max_length + 1)
       ∧ c2i !! c = None.
Proof.
  unfold LMDataset_body.
  destruct (comprehension (getitem c2i) _) as [r|e'] eqn:Hc; [done|].
  intros [= ->]. apply comprehension_Raise in Hc as (c & Hin & Hc).
  apply getitem_Raise in Hc as [-> Hn]. by exists c.
Qed.

Lemma LMDataset_init_Raise e :
  LMDataset_init c2i dataset max_length = Raise e →
  (max_length = 0 ∧ e = ValueError)
  ∨ (0 < max_length
     ∧ ∃ c i, e = KeyError c ∧ i ∈ window_starts dataset max_length
              ∧ c ∈ slice dataset i (i + max_length + 1)
              ∧ c2i !! c = None).
Proof.
  unfold LMDataset_init. destruct (decide (max_length = 0)) as [->|Hpos].
  - intros [= <-]. by left.
  - rewrite range_spec by lia. rewrite bind_Return_l.
    intros (i & d & Hi & Hb)%for_Raise. right. split; [lia|].
    apply LMDataset_body_Raise in Hb as (c & -> & Hc & Hn).
    by exists c, i.
Qed.

Lemma LMDataset_init_unknown i c :
  0 < max_length → i ∈ window_starts dataset max_length →
  c ∈ slice dataset i (i + max_length + 1) → c2i !! c = None →
  ∃ c', LMDataset_init c2i dataset max_length = Raise (KeyError c').
Proof.
  intros Hpos Hi Hc Hn.
  destruct (LMDataset_init c2i dataset max_length) as [d|e] eqn:Hd.
  - exfalso. apply LMDataset_init_Return in Hd as (_ & ws & Hws & _).
    apply list_elem_of_lookup in Hi as [k Hk].
    destruct (Forall2_lookup_l _ _ _ _ _ Hws Hk) as (w & _ & Hw).
    apply list_elem_of_lookup in Hc as [j Hj].
    destruct (Forall2_lookup_l _ _ _ _ _ Hw Hj) as (v & _ & Hv).
    congruence.
  - apply LMDataset_init_Raise in Hd as [[-> _]|(_ & c' & _ & -> & _)];
      [lia | by exists c'].
Qed.

(** X1: the only exceptions of [LMDataset(dataset, max_length)].  A window
    length of zero raises [ValueError] (the step of [range]); for a positive
    window length the constructor raises exactly when some window holds a
    character that is not a key of the mapping, and what it raises is the
    [KeyError] of such a character. *)
Theorem LMDataset_init_errors :
  (max_length = 0 → LMDataset_init c2i dataset max_length = Raise ValueError)
  ∧ (∀ e, LMDataset_init c2i dataset max_length = Raise e →
       (max_length = 0 ∧ e = ValueError)
       ∨ (0 < max_length
          ∧ ∃ c i, e = KeyError c ∧ i ∈ window_starts dataset max_length
                   ∧ c ∈ slice dataset i (i + max_length + 1)
                   ∧ c2i !! c = None))
  ∧ (∀ i c,
       0 < max_length → i ∈ window_starts dataset max_length →
       c ∈ slice dataset i (i + max_length + 1) → c2i !! c = None →
       ∃ c', LMDataset_init c2i dataset max_length = Raise (KeyError c')).
Proof.
  split_and!.
  - intros ->. done.
  - apply LMDataset_init_Raise.
  - apply LMDataset_init_unknown.
Qed.

End DatasetErrors.

Lemma LMDataset_init_errors_witness :
  LMDataset_init (dict_of_enumerate (text_of "abc")) (text_of "abcabcabc") 0
    = Raise ValueError
  ∧ ∃ c', LMDataset_init (dict_of_enumerate (text_of "abc"))
            (text_of "abcabxabc") 3 = Raise (KeyError c').
Proof.
  split.
  - exact (proj1 (LMDataset_init_errors (dict_of_enumerate (text_of "abc"))
                    (text_of "abcabcabc") 0) eq_refl).
  - apply (proj2 (proj2 (LMDataset_init_errors
                    (dict_of_enumerate (text_of "abc"))
                    (text_of "abcabxabc") 3)) 3 120%N).
    + lia.
    + apply list_elem_of_lookup. exists 1. by vm_compute.
    + apply list_elem_of_lookup. exists 2. by vm_compute.
    + by vm_compute.
Defined.

(** ** The windows tile the text *)

Section Tiling.
Context {A : Type}.

Lemma concat_slices (l : list A) (L n : nat) :
  concat ((λ k, slice l (k * L) (k * L + L)) <$> seq 0 n) = take (n * L) l.
Proof.
  induction n as [|n IH]; [done|].
  rewrite seq_S, fmap_app, concat_app, IH. simpl. rewrite app_nil_r.
  unfold slice. replace (n * L + L - n * L) with L by lia.
  rewrite take_take_drop. f_equal. lia.
Qed.

Lemma concat_slices_shifted (l : list A) (L n : nat) :
  concat ((λ k, slice l (k * L + 1) (k * L + L + 1)) <$> seq 0 n)
  = slice l 1 (n * L + 1).
Proof.
  unfold slice at 2. replace (n * L + 1 - 1) with (n * L) by lia.
  rewrite <- (concat_slices (drop 1 l) L n). f_equal.
  apply list_fmap_ext. intros _ k _. unfold slice.
  rewrite drop_drop. f_equal; [lia | f_equal; lia].
Qed.

End Tiling.

Section DatasetTiling.
Context (c2i : gmap N nat) (dataset : list N) (max_length : nat).

Lemma window_starts_seq :
  window_starts dataset max_length
  = (λ k, k * max_length) <$> seq 0 (length (window_starts dataset max_length)).
Proof. unfold window_starts. by rewrite length_fmap, length_seq. Qed.

Lemma encodes_concat (txts : list (list N)) (ws : list (list nat)) :
  Forall2 (encodes c2i) txts ws → encodes c2i (concat txts) (concat ws).
Proof.
  unfold encodes. induction 1 as [|t w txts ws Hw _ IH]; [constructor|].
  simpl. by apply Forall2_app.
Qed.

Lemma windows_tile d :
  LMDataset_init c2i dataset max_length = Return d →
  encodes c2i (take (LMDataset_len d * max_length) dataset) (concat (xs d))
  ∧ encodes c2i (slice dataset 1 (LMDataset_len d * max_length + 1))
                (concat (ys d)).
Proof.
  intros (Hpos & ws & Hws & ->)%LMDataset_init_Return.
  unfold LMDataset_len. simpl. rewrite length_fmap.
  assert (Forall2 (λ i w,
            encodes c2i (slice dataset i (i + max_length)) (all_but_last w)
            ∧ encodes c2i (slice dataset (i + 1) (i + max_length + 1))
                      (all_but_first w))
            (window_starts dataset max_length) ws) as Hsplit.
  { apply Forall2_same_length_lookup. split; [by eapply Forall2_length|].
    intros k i w Hi Hw.
    pose proof (Forall2_lookup_lr _ _ _ _ _ _ Hws Hi Hw) as Henc.
    apply window_starts_lookup in Hi as [-> Hi]; [|done].
    destruct (window_split _ _ _ _ _ Hi Henc) as (Hx & Hy & _). done. }
  rewrite <- (Forall2_length _ _ _ Hws).
  rewrite <- concat_slices, <- concat_slices_shifted.
  rewrite window_starts_seq in Hsplit.
  split; apply encodes_concat.
  - apply Forall2_fmap. apply Forall2_fmap_l in Hsplit.
    eapply Forall2_impl; [exact Hsplit|]. by intros k w [H _].
  - apply Forall2_fmap. apply Forall2_fmap_l in Hsplit.
    eapply Forall2_impl; [exact Hsplit|]. by intros k w [_ H].
Qed.

Lemma windows_leave_tail d :
  LMDataset_init c2i dataset max_length = Return d →
  0 < LMDataset_len d →
  LMDataset_len d * max_length + 3 ≤ length dataset
  ∧ length dataset ≤ LMDataset_len d * max_length + max_length + 2.
Proof.
  intros (Hpos & ws & Hws & ->)%LMDataset_init_Return.
  unfold LMDataset_len. simpl. rewrite length_fmap.
  rewrite <- (Forall2_length _ _ _ Hws). intros Hn.
  set (n := length (window_starts dataset max_length)) in *.
  split.
  - destruct (lookup_lt_is_Some_2 (window_starts dataset max_length) (n - 1))
      as [i Hi]; [lia|].
    apply window_starts_lookup in Hi as [-> Hi]; [|done].
    replace (n * max_length) with ((n - 1) * max_length + max_length) by nia.
    lia.
  - destruct (decide (length dataset ≤ n * max_length + max_length + 2))
      as [|Hgt]; [done|].
    assert (window_starts dataset max_length !! n = Some (n * max_length))
      as Hl by (apply window_starts_lookup; [done | lia]).
    apply lookup_lt_Some in Hl. lia.
Qed.

(** X2: the examples tile the text.  Read one after the other, the inputs
    of a dataset of [n] examples encode the first [n * L] characters of the
    text and the targets encode the [n * L] characters from position 1 on:
    consecutive windows neither overlap nor leave a gap.  When there is an
    example, between 3 and [L + 2] characters at the end of the text are in
    no input. *)
Theorem windows_tile_text d :
  LMDataset_init c2i dataset max_length = Return d →
  encodes c2i (take (LMDataset_len d * max_length) dataset) (concat (xs d))
  ∧ encodes c2i (slice dataset 1 (LMDataset_len d * max_length + 1))
                (concat (ys d))
  ∧ (0 < LMDataset_len d →
     LMDataset_len d * max_length + 3 ≤ length dataset
     ∧ length dataset ≤ LMDataset_len d * max_length + max_length + 2).
Proof.
  intros Hd. destruct (windows_tile d Hd) as [Hx Hy].
  split_and!; [done | done |]. by apply windows_leave_tail.
Qed.

(** X3: [dataset[idx]] is in bounds exactly below [len(dataset)]: an index
    at or beyond the number of examples raises [IndexError], and nothing
    else is ever raised. *)
Theorem LMDataset_getitem_bounds d :
  LMDataset_init c2i dataset max_length = Return d →
  ∀ idx,
    (LMDataset_len d ≤ idx ↔ LMDataset_getitem d idx = Raise IndexError)
    ∧ (idx < LMDataset_len d
       ↔ ∃ x y, LMDataset_getitem d idx = Return (x, y)
                ∧ xs d !! idx = Some x ∧ ys d !! idx = Some y).
Proof.
  intros (Hpos & ws & Hws & ->)%LMDataset_init_Return idx.
  unfold LMDataset_len, LMDataset_getitem, list_getitem. simpl.
  rewrite length_fmap, !list_lookup_fmap.
  destruct (ws !! idx) as [w|] eqn:Hw; simpl.
  - apply lookup_lt_Some in Hw as Hlt. split.
    + split; [lia | done].
    + split; [by eexists _, _ | done].
  - apply lookup_ge_None in Hw as Hge. split.
    + done.
    + split; [lia | by intros (x & y & H & _)].
Qed.

End DatasetTiling.

Lemma windows_tile_text_witness :
  encodes (dict_of_enumerate (text_of "abc"))
          (take (2 * 3) (text_of "abcabcabc")) (concat [[0; 1; 2]; [0; 1; 2]])
  ∧ encodes (dict_of_enumerate (text_of "abc"))
            (slice (text_of "abcabcabc") 1 (2 * 3 + 1))
            (concat [[1; 2; 0]; [1; 2; 0]])
  ∧ (0 < 2 → 2 * 3 + 3 ≤ 9 ∧ 9 ≤ 2 * 3 + 3 + 2).
Proof.
  exact (windows_tile_text (dict_of_enumerate (text_of "abc"))
           (text_of "abcabcabc") 3
           (mkLMDataset [[0; 1; 2]; [0; 1; 2]] [[1; 2; 0]; [1; 2; 0]])
           eq_refl).
Defined.

Lemma LMDataset_getitem_bounds_witness :
  (2 ≤ 2 ↔ LMDataset_getitem
             (mkLMDataset [[0; 1; 2]; [0; 1; 2]] [[1; 2; 0]; [1; 2; 0]]) 2
           = Raise IndexError)
  ∧ (2 < 2
     ↔ ∃ x y, LMDataset_getitem
                (mkLMDataset [[0; 1; 2]; [0; 1; 2]] [[1; 2; 0]; [1; 2; 0]]) 2
              = Return (x, y)
              ∧ [[0; 1; 2]; [0; 1; 2]] !! 2 = Some x
              ∧ [[1; 2; 0]; [1; 2; 0]] !! 2 = Some y).
Proof.
  exact (LMDataset_getitem_bounds (dict_of_enumerate (text_of "abc"))
           (text_of "abcabcabc") 3
           (mkLMDataset [[0; 1; 2]; [0; 1; 2]] [[1; 2; 0]; [1; 2; 0]])
           eq_refl 2).
Defined.

(** ** The two splits and the vocabulary *)

Section Splits.
Context (text : list N).

Lemma elem_of_slice {A : Type} (l : list A) i j x : x ∈ slice l i j → x ∈ l.
Proof. unfold slice. by intros ?%subseteq_take%subseteq_drop. Qed.

Lemma train_set_known c : c ∈ train_set text → is_Some (char2idx text !! c).
Proof. apply char2idx_is_Some. Qed.

Lemma train_split_Return max_length :
  0 < max_length →
  ∃ d, LMDataset_init (char2idx text) (train_set text) max_length = Return d
       ∧ dataset_ok (vocab_size text) (vocab_size text) d.
Proof.
  intros Hpos.
  destruct (LMDataset_init_known (char2idx text) (train_set text) max_length)
    as [d Hd]; [done | apply train_set_known |].
  exists d. split; [done|]. by eapply LMDataset_init_ok.
Qed.

(** X4: the training split always encodes.  The vocabulary is built from
    the training split, so for every corpus and every positive window
    length the training dataset is built without a [KeyError], its inputs
    and targets come in pairs of equal length, and every index in it is
    below [vocab_size], the size [train()] gives the embedding table and
    the output layer. *)
Theorem train_split_encodes (max_length : nat) :
  0 < max_length →
  ∃ d, LMDataset_init (char2idx text) (train_set text) max_length = Return d
       ∧ dataset_ok (vocab_size text) (vocab_size text) d.
Proof. apply train_split_Return. Qed.

(** A loader refuses with [ValueError] only. *)
Lemma DataLoader_init_Raise d bs e :
  DataLoader_init d bs = Raise e → e = ValueError.
Proof.
  unfold DataLoader_init.
  destruct (LMDataset_len d =? 0); [by intros [= <-]|].
  destruct (bs =? 0); [by intros [= <-] | done].
Qed.

(** The training split is the longer one: where the validation split has
    room for a window, the training split has too. *)
Lemma val_window_train_window max_length :
  max_length + 2 < length (val_set text) →
  max_length + 2 < length (train_set text).
Proof.
  unfold val_set, train_set, train_size.
  rewrite length_drop, length_take.
  pose proof (Nat.div_mod_eq (length text * 7) 10) as Hdiv.
  pose proof (Nat.mod_upper_bound (length text * 7) 10) as Hmod.
  lia.
Qed.

(** A dataset over a text with room for a window has an example. *)
Lemma LMDataset_len_pos c2i dataset max_length d :
  LMDataset_init c2i dataset max_length = Return d →
  max_length + 2 < length dataset → 0 < LMDataset_len d.
Proof.
  intros (Hpos & ws & Hws & ->)%LMDataset_init_Return Hlen.
  unfold LMDataset_len. simpl. rewrite length_fmap.
  rewrite <- (Forall2_length _ _ _ Hws).
  assert (window_starts dataset max_length !! 0 = Some 0) as H0.
  { apply window_starts_lookup; [done|]. split; [done | lia]. }
  apply lookup_lt_Some in H0. lia.
Qed.

Lemma Datasets_init_Raise_KeyError batch_size max_length c :
  Datasets_init text batch_size max_length = Raise (KeyError c) →
  c ∈ val_set text ∧ c ∉ train_set text.
Proof.
  unfold Datasets_init.
  destruct (LMDataset_init (char2idx text) (train_set text) max_length)
    as [td|e] eqn:Htd.
  - rewrite bind_Return_l.
    destruct (DataLoader_init td batch_size) as [tl|e] eqn:Htl; last first.
    { apply DataLoader_init_Raise in Htl as ->. intros [=]. }
    rewrite bind_Return_l.
    destruct (LMDataset_init (char2idx text) (val_set text) max_length)
      as [vd|e] eqn:Hvd.
    + rewrite bind_Return_l.
      destruct (DataLoader_init vd (batch_size * 2)) as [vl|e] eqn:Hvl;
        [done|].
      apply DataLoader_init_Raise in Hvl as ->. intros [=].
    + intros [= ->].
      apply LMDataset_init_Raise in Hvd as [[_ ?]|(_ & c' & i & Hc & _ & Hin & Hn)];
        [done|].
      injection Hc as <-. apply elem_of_slice in Hin. split; [done|].
      intros [j Hj]%train_set_known. congruence.
  - intros [= ->]. exfalso.
    apply LMDataset_init_Raise in Htd as [[_ ?]|(_ & c' & i & Hc & _ & Hin & Hn)];
      [done|].
    apply elem_of_slice, train_set_known in Hin as [j Hj]. congruence.
Qed.

Lemma Datasets_init_unseen batch_size max_length i c :
  0 < max_length → 0 < batch_size →
  i ∈ window_starts (val_set text) max_length →
  c ∈ slice (val_set text) i (i + max_length + 1) → c ∉ train_set text →
  ∃ c', Datasets_init text batch_size max_length = Raise (KeyError c').
Proof.
  intros Hpos Hbs Hi Hc Hn. unfold Datasets_init.
  destruct (train_split_Return max_length Hpos) as (td & Htd & _).
  rewrite Htd, bind_Return_l.
  assert (0 < LMDataset_len td) as Hlen.
  { eapply LMDataset_len_pos; [exact Htd|].
    apply val_window_train_window.
    apply list_elem_of_lookup in Hi as [k Hk].
    apply window_starts_lookup in Hk as [_ Hk]; [lia | done]. }
  rewrite (proj2 (DataLoader_init_Return td batch_size _)
             (conj Hlen (conj Hbs eq_refl))).
  rewrite bind_Return_l.
  destruct (LMDataset_init_unknown (char2idx text) (val_set text) max_length
              i c) as [c' ->]; try done.
  - apply eq_None_not_Some. by rewrite char2idx_is_Some.
  - by exists c'.
Qed.

Lemma Datasets_init_ValueError batch_size max_length :
  max_length = 0 ∨ batch_size = 0 →
  Datasets_init text batch_size max_length = Raise ValueError.
Proof.
  unfold Datasets_init. destruct (decide (max_length = 0)) as [->|Hpos].
  - done.
  - intros [?| ->]; [done|].
    destruct (train_split_Return max_length) as (td & -> & _); [lia|].
    rewrite bind_Return_l. unfold DataLoader_init.
    by destruct (LMDataset_len td =? 0).
Qed.

(** X5: what [Datasets(batch_size, max_length)] raises.  A window length
    or a batch size of zero raises [ValueError].  A [KeyError] can only
    name a character of the validation split that does not occur in the
    training split, and with positive sizes one is raised as soon as a
    window of the validation split holds such a character. *)
Theorem Datasets_init_errors (batch_size max_length : nat) :
  (max_length = 0 ∨ batch_size = 0 →
   Datasets_init text batch_size max_length = Raise ValueError)
  ∧ (∀ c, Datasets_init text batch_size max_length = Raise (KeyError c) →
       c ∈ val_set text ∧ c ∉ train_set text)
  ∧ (∀ i c,
       0 < max_length → 0 < batch_size →
       i ∈ window_starts (val_set text) max_length →
       c ∈ slice (val_set text) i (i + max_length + 1) →
       c ∉ train_set text →
       ∃ c', Datasets_init text batch_size max_length = Raise (KeyError c')).
Proof.
  split_and!.
  - apply Datasets_init_ValueError.
  - apply Datasets_init_Raise_KeyError.
  - apply Datasets_init_unseen.
Qed.

End Splits.

Lemma train_split_encodes_witness :
  ∃ d, LMDataset_init (char2idx toy_corpus) (train_set toy_corpus) 3 = Return d
       ∧ dataset_ok (vocab_size toy_corpus) (vocab_size toy_corpus) d.
Proof. apply (train_split_encodes toy_corpus 3). lia. Defined.

(** A corpus whose validation split starts with a character the training
    split does not have. *)
Definition unseen_corpus : list N := text_of "aaaaaaaaaaaaaabaaaaa".

Lemma Datasets_init_errors_witness :
  Datasets_init unseen_corpus 0 2 = Raise ValueError
  ∧ (98%N ∈ val_set unseen_corpus ∧ 98%N ∉ train_set unseen_corpus).
Proof.
  split.
  - apply (proj1 (Datasets_init_errors unseen_corpus 0 2)). by right.
  - apply (proj1 (proj2 (Datasets_init_errors unseen_corpus 1 2))).
    by vm_compute.
Defined.

(** ** A pass over a loader *)

Section Batches.
Context {A : Type}.

Lemma batched_lookup_length (fuel bs : nat) (l : list A) i g :
  0 < bs → length l ≤ fuel → batched fuel bs l !! i = Some g →
  0 < length g ∧ length g ≤ bs
  ∧ (S i < length (batched fuel bs l) → length g = bs).
Proof.
  intros Hbs. revert l i.
  induction fuel as [|fuel IH]; intros l i Hl Hg; [done|].
  destruct l as [|x l]; [done|]. cbn [batched] in *.
  destruct i as [|i].
  - injection Hg as <-. rewrite length_take. cbn [length].
    split; [lia|]. split; [lia|].
    intros Hlen.
    destruct (decide (bs ≤ S (length l))) as [|Hgt]; [lia|].
    exfalso. rewrite drop_ge in Hlen by (simpl; lia).
    destruct fuel; simpl in Hlen; lia.
  - cbn [lookup list_lookup] in Hg.
    destruct (IH (drop bs (x :: l)) i) as (H1 & H2 & H3); [|done|].
    { rewrite length_drop. simpl in *. lia. }
    split; [done|]. split; [done|]. intros Hlen. apply H3. simpl in Hlen. lia.
Qed.

End Batches.

Section LoaderPass.
Context {fw : Framework} (laws : FrameworkLaws fw).

Lemma DataLoader_iter_groups (dl : DataLoader) (w : world fw) :
  0 < dl_batch_size dl →
  length (xs (dl_dataset dl)) = length (ys (dl_dataset dl)) →
  ∃ groups w',
    DataLoader_iter dl w = Return (collate <$> groups, w')
    ∧ concat groups ≡ₚ zip (xs (dl_dataset dl)) (ys (dl_dataset dl))
    ∧ length groups
      = num_batches (LMDataset_len (dl_dataset dl)) (dl_batch_size dl)
    ∧ (∀ i g, groups !! i = Some g →
         0 < length g ∧ length g ≤ dl_batch_size dl
         ∧ (S i < length groups → length g = dl_batch_size dl))
    ∧ files w' = files w ∧ written w' = written w.
Proof.
  intros Hbs Hlen.
  destruct (DataLoader_iter_total laws dl w Hlen) as (batches & w' & Hit).
  pose proof Hit as (examples & Hperm & _ & -> & ->)%DataLoader_iter_Return;
    [|done].
  exists (batched (length examples) (dl_batch_size dl) examples). eexists.
  split; [exact Hit|]. split_and!; try done.
  - by rewrite concat_batched.
  - rewrite length_batched by (done || lia).
    rewrite Hperm, length_zip_with. unfold LMDataset_len. f_equal. lia.
  - intros i g Hg. by eapply batched_lookup_length.
Qed.

(** X6: one pass over a loader.  With a positive batch size, iterating a
    loader returns batches that hold every example of the dataset exactly
    once, in some order: [ceil(n / batch_size)] batches, none empty and all
    but the last of exactly [batch_size] examples.  The pass reads and
    writes no file. *)
Theorem loader_pass_covers_dataset (dl : DataLoader) (w : world fw) :
  0 < dl_batch_size dl →
  length (xs (dl_dataset dl)) = length (ys (dl_dataset dl)) →
  ∃ groups w',
    DataLoader_iter dl w = Return (collate <$> groups, w')
    ∧ concat groups ≡ₚ zip (xs (dl_dataset dl)) (ys (dl_dataset dl))
    ∧ length groups
      = num_batches (LMDataset_len (dl_dataset dl)) (dl_batch_size dl)
    ∧ (∀ i g, groups !! i = Some g →
         0 < length g ∧ length g ≤ dl_batch_size dl
         ∧ (S i < length groups → length g = dl_batch_size dl))
    ∧ files w' = files w ∧ written w' = written w.
Proof. apply DataLoader_iter_groups. Qed.

End LoaderPass.

Lemma loader_pass_covers_dataset_witness :
  ∃ groups w',
    DataLoader_iter (train_loader toy_datasets) toy_world
      = Return (collate <$> groups, w')
    ∧ concat groups ≡ₚ zip (xs (dl_dataset (train_loader toy_datasets)))
                           (ys (dl_dataset (train_loader toy_datasets)))
    ∧ length groups
      = num_batches (LMDataset_len (dl_dataset (train_loader toy_datasets)))
                    (dl_batch_size (train_loader toy_datasets))
    ∧ (∀ i g, groups !! i = Some g →
         0 < length g ∧ length g ≤ dl_batch_size (train_loader toy_datasets)
         ∧ (S i < length groups
            → length g = dl_batch_size (train_loader toy_datasets)))
    ∧ files w' = files toy_world ∧ written w' = written toy_world.
Proof.
  apply (loader_pass_covers_dataset toy_laws (train_loader toy_datasets)
           toy_world).
  - vm_compute. lia.
  - by vm_compute.
Defined.

(** ** The model on sequences and on batches *)

Section Rows.
Context {A : Type}.

Lemma elem_of_concat_rows (x : A) (ls : list (list A)) :
  x ∈ concat ls ↔ ∃ l, x ∈ l ∧ l ∈ ls.
Proof.
  induction ls as [|l ls IH]; simpl.
  - split; [by intros ?%elem_of_nil | by intros (l & _ & ?%elem_of_nil)].
  - rewrite elem_of_app, IH. split.
    + intros [H|(l' & H1 & H2)].
      * exists l. split; [done | by left].
      * exists l'. split; [done | by right].
    + intros (l' & H1 & [->|H2]%elem_of_cons); [by left|].
      right. by exists l'.
Qed.

Lemma Forall_concat_rows (P : A → Prop) (ls : list (list A)) :
  Forall P (concat ls) ↔ Forall (Forall P) ls.
Proof.
  induction ls as [|l ls IH]; simpl.
  - split; constructor.
  - by rewrite Forall_app, Forall_cons, IH.
Qed.

End Rows.

(** The sequences of a tensor: a tensor of rank one is one sequence, a
    batch has one per row. *)
Definition sequences {A : Type} (t : tensor A) : list (list A) :=
  match t with
  | T1 v => [v]
  | T2 b => b
  end.

Section ForwardOutcome.
Context {fw : Framework} (m : LstmLM fw).

Lemma embedding_lookup_Raise i e :
  embedding_lookup m i = Raise e → e = IndexError ∧ num_embeddings m ≤ i.
Proof.
  unfold embedding_lookup. destruct (Nat.ltb_spec i (num_embeddings m)); [done|].
  by intros [= <-].
Qed.

Lemma embedding_Raise x e :
  embedding m x = Raise e →
  e = IndexError ∧ ∃ i, i ∈ positions x ∧ num_embeddings m ≤ i.
Proof.
  unfold embedding, tmapM. destruct x as [v|b].
  - destruct (comprehension (embedding_lookup m) v) as [r|e'] eqn:Hc; [done|].
    intros [= ->]. apply comprehension_Raise in Hc as (i & Hi & Hr).
    apply embedding_lookup_Raise in Hr as [-> Hge]. split; [done|].
    by exists i.
  - destruct (comprehension (comprehension (embedding_lookup m)) b)
      as [r|e'] eqn:Hc; [done|].
    intros [= ->]. apply comprehension_Raise in Hc as (row & Hrow & Hc).
    apply comprehension_Raise in Hc as (i & Hi & Hr).
    apply embedding_lookup_Raise in Hr as [-> Hge]. split; [done|].
    exists i. split; [|done]. simpl. apply elem_of_concat_rows. by exists row.
Qed.

(** The recurrent layer, given no state, refuses a sequence without a step
    and nothing else. *)
Lemma lstm_None_cases (o1 : tensor (list Qc)) :
  (∃ o2, lstm m o1 None = Return o2
         ∧ Forall (λ r, r ≠ []) (sequences o1))
  ∨ (lstm m o1 None = Raise RuntimeError
     ∧ Exists (λ r, r = []) (sequences o1)).
Proof.
  unfold lstm. destruct o1 as [v|b]; cbn [sequences].
  - destruct v as [|h v]; cbn [no_step]; [right; split; [done | by left]|].
    left. rewrite bind_Return_l.
    destruct (lstm_seq (weights m) (h :: v) _) as [hs s]. eexists.
    split; [done | by repeat constructor].
  - destruct (existsb no_step b) eqn:Hb.
    + right. split; [done|]. by apply existsb_no_step_true.
    + left. rewrite bind_Return_l, zip_same_replicate, bind_Return_l.
      eexists. split; [done | by apply existsb_no_step].
Qed.

Lemma sequences_embedding x o1 :
  embedding m x = Return o1 →
  Forall (λ i, i < num_embeddings m) (positions x)
  ∧ (Forall (λ r, r ≠ []) (sequences o1) ↔ Forall (λ r, r ≠ []) (sequences x)).
Proof.
  unfold embedding, tmapM. destruct x as [v|b].
  - intros (r & [Hall ->]%embedding_row_Return & [= <-])%bind_Return.
    split; [done|]. simpl. rewrite !Forall_singleton.
    by destruct v.
  - intros (r & [Hall ->]%embedding_batch_Return & [= <-])%bind_Return.
    split; [by apply Forall_concat_rows|]. simpl.
    by rewrite <- !existsb_no_step, existsb_no_step_fmap.
Qed.

Lemma LstmLM_forward_Raise x e :
  LstmLM_forward m x = Raise e →
  (e = IndexError ∧ ∃ i, i ∈ positions x ∧ num_embeddings m ≤ i)
  ∨ (e = RuntimeError ∧ Forall (λ i, i < num_embeddings m) (positions x)
     ∧ Exists (λ r, r = []) (sequences x)).
Proof.
  rewrite LstmLM_forward_outputs.
  destruct (embedding m x) as [o1|e'] eqn:He.
  - rewrite bind_Return_l.
    apply sequences_embedding in He as [Hall Hseq].
    destruct (lstm_None_cases o1) as [(o2 & -> & _)|[-> Hex]]; [done|].
    intros [= <-]. right. split; [done|]. split; [done|].
    apply existsb_no_step_true.
    destruct (existsb no_step (sequences x)) eqn:Hx; [done|].
    apply existsb_no_step, Hseq, existsb_no_step in Hx.
    apply existsb_no_step_true in Hex. congruence.
  - intros [= ->]. left. by apply embedding_Raise.
Qed.

Lemma forward_seq_Return (row : list nat) out :
  LstmLM_forward m (T1 row) = Return out ↔
  Forall (λ i, i < num_embeddings m) row ∧ row ≠ []
  ∧ out = T1 (row_log_probs m row).
Proof.
  rewrite LstmLM_forward_outputs. unfold embedding, tmapM, row_log_probs.
  split.
  - intros (o1 & Ho1 & Hf)%bind_Return.
    apply bind_Return in Ho1 as (r & [Hall ->]%embedding_row_Return & [= <-]).
    split; [done|]. unfold lstm in Hf. rewrite no_step_fmap in Hf.
    destruct row as [|i row]; [done|]. split; [done|]. cbn [no_step] in Hf.
    rewrite bind_Return_l in Hf.
    destruct (lstm_seq _ _ _) as [hs s]. rewrite bind_Return_l in Hf.
    by injection Hf as <-.
  - intros (Hall & Hne & ->).
    rewrite (proj2 (embedding_row_Return m row _) (conj Hall eq_refl)).
    rewrite !bind_Return_l. unfold lstm. rewrite no_step_fmap.
    destruct row as [|i row]; [done|]. cbn [no_step].
    rewrite bind_Return_l.
    destruct (lstm_seq _ _ _) as [hs s]. by rewrite bind_Return_l.
Qed.

Lemma forward_Return_iff x :
  (∃ out, LstmLM_forward m x = Return out)
  ↔ Forall (λ i, i < num_embeddings m) (positions x)
    ∧ Forall (λ r, r ≠ []) (sequences x).
Proof.
  destruct x as [v|b]; simpl.
  - rewrite Forall_singleton. split.
    + by intros [out (H & ? & _)%forward_seq_Return].
    + intros [H ?]. eexists. by apply forward_seq_Return.
  - rewrite Forall_concat_rows. split.
    + by intros [out (H & ? & _)%forward_batch_Return].
    + intros [H ?]. eexists. by apply forward_batch_Return.
Qed.

Lemma forward_rows (b : list (list nat)) outs :
  LstmLM_forward m (T2 b) = Return (T2 outs) →
  Forall2 (λ row o, LstmLM_forward m (T1 row) = Return (T1 o)) b outs.
Proof.
  intros (Hall & Hne & [= ->])%forward_batch_Return.
  apply Forall2_fmap_r, Forall_Forall2_diag.
  apply Forall_forall. intros row Hrow.
  rewrite Forall_forall in Hall, Hne.
  apply forward_seq_Return. split_and!; [by apply Hall | by apply Hne | done].
Qed.

(** X7: when [forward] returns and what it raises, on an input with at
    least one sequence.  The forward pass returns exactly when every token
    index of its input is inside the embedding table and no sequence is
    empty.  An index outside the table raises [IndexError] in the
    embedding; with all indices inside, a sequence of length 0 raises
    [RuntimeError] in the recurrent layer; it raises nothing else.  In a
    batch every sequence is read on its own: the output for a row is the
    output of the forward pass on that row alone. *)
Theorem forward_errors_and_rows (x : tensor nat) :
  sequences x ≠ [] →
  ((∃ out, LstmLM_forward m x = Return out)
   ↔ Forall (λ i, i < num_embeddings m) (positions x)
     ∧ Forall (λ r, r ≠ []) (sequences x))
  ∧ (∀ e, LstmLM_forward m x = Raise e →
       (e = IndexError ∧ ∃ i, i ∈ positions x ∧ num_embeddings m ≤ i)
       ∨ (e = RuntimeError
          ∧ Forall (λ i, i < num_embeddings m) (positions x)
          ∧ Exists (λ r, r = []) (sequences x)))
  ∧ (∀ b outs, x = T2 b → LstmLM_forward m x = Return (T2 outs) →
       Forall2 (λ row o, LstmLM_forward m (T1 row) = Return (T1 o)) b outs).
Proof.
  intros _. split_and!.
  - apply forward_Return_iff.
  - apply LstmLM_forward_Raise.
  - intros b outs ->. apply forward_rows.
Qed.

End ForwardOutcome.

Section ForwardShape.
Context {fw : Framework} (laws : FrameworkLaws fw) (m : LstmLM fw).

Lemma forward_seq_shape row out :
  LstmLM_forward m (T1 row) = Return out → same_shape (T1 row) out.
Proof.
  intros (_ & _ & ->)%forward_seq_Return. simpl.
  by rewrite length_row_log_probs.
Qed.

Lemma forward_classes x out :
  params_dims fw (weights m) = LstmLM_dims m →
  LstmLM_forward m x = Return out →
  Forall (λ v, length v = num_classes m) (positions out).
Proof.
  intros Hd. destruct x as [row|b].
  - intros (_ & _ & ->)%forward_seq_Return. simpl. apply Forall_forall.
    intros o Ho. by eapply row_log_probs_classes.
  - intros (_ & _ & ->)%forward_batch_Return. simpl. apply Forall_concat_rows.
    apply Forall_fmap, Forall_forall. intros row _. apply Forall_forall.
    intros o Ho. by eapply row_log_probs_classes.
Qed.

(** X8: the shape of the output of [forward].  For a model whose
    parameters have the shapes it was built with, the output has one
    vector of [num_classes] log-probabilities for every position of the
    input: [[N, L]] token indices give [[N, L, num_classes]]. *)
Theorem forward_output_shape (x : tensor nat) (out : tensor (list Qc)) :
  params_dims fw (weights m) = LstmLM_dims m →
  LstmLM_forward m x = Return out →
  same_shape x out ∧ Forall (λ v, length v = num_classes m) (positions out).
Proof.
  intros Hd Hf. split; [|by eapply forward_classes].
  destruct x as [row|b]; [by apply forward_seq_shape|].
  by eapply forward_batch_shape.
Qed.

End ForwardShape.

Lemma forward_errors_and_rows_witness :
  (∃ out, LstmLM_forward (model toy_trainer) (T2 [[0; 1]; [2; 0]]) = Return out)
  ∧ LstmLM_forward (model toy_trainer) (T2 [[0; 1]; [3; 0]]) = Raise IndexError
  ∧ LstmLM_forward (model toy_trainer) (T2 [[]; []]) = Raise RuntimeError.
Proof.
  split_and!.
  - apply (proj1 (forward_errors_and_rows (model toy_trainer)
                    (T2 [[0; 1]; [2; 0]]) ltac:(done))).
    split; vm_compute; repeat constructor; done.
  - destruct (LstmLM_forward (model toy_trainer) (T2 [[0; 1]; [3; 0]]))
      as [out|e] eqn:Hf.
    + exfalso.
      assert (Forall (λ i, i < num_embeddings (model toy_trainer))
                     (positions (T2 [[0; 1]; [3; 0]]))) as Hall.
      { apply (proj1 (forward_errors_and_rows (model toy_trainer)
                        (T2 [[0; 1]; [3; 0]]) ltac:(done))). by exists out. }
      vm_compute in Hall.
      apply Forall_cons_1 in Hall as [_ Hall].
      apply Forall_cons_1 in Hall as [_ Hall].
      apply Forall_cons_1 in Hall as [Hlt _]. lia.
    + f_equal.
      destruct (proj1 (proj2 (forward_errors_and_rows (model toy_trainer)
                                (T2 [[0; 1]; [3; 0]]) ltac:(done))) e Hf)
        as [[-> _]|(_ & _ & Hex)]; [done|].
      exfalso. simpl in Hex.
      apply Exists_cons in Hex as [|Hex]; [done|].
      apply Exists_cons in Hex as [|Hex]; [done|].
      by apply Exists_nil in Hex.
  - by vm_compute.
Defined.

Lemma forward_output_shape_witness :
  same_shape (T2 [[0; 1]; [2; 0]])
             (T2 (row_log_probs (model toy_trainer) <$> [[0; 1]; [2; 0]]))
  ∧ Forall (λ v, length v = num_classes (model toy_trainer))
           (positions (T2 (row_log_probs (model toy_trainer)
                             <$> [[0; 1]; [2; 0]]))).
Proof.
  apply (forward_output_shape toy_laws (model toy_trainer)
           (T2 [[0; 1]; [2; 0]])).
  - by vm_compute.
  - apply forward_batch_Return.
    split_and!; [vm_compute; repeat constructor | by repeat constructor | done].
Defined.

(** ** Carrying the recurrent state *)

Section Chunks.
Context {fw : Framework} (m : LstmLM fw).

Lemma lstm_seq_app (p : params fw) (a b : list (list Qc)) (s : lstm_state fw) :
  lstm_seq p (a ++ b) s
  = ((lstm_seq p a s).1 ++ (lstm_seq p b (lstm_seq p a s).2).1,
     (lstm_seq p b (lstm_seq p a s).2).2).
Proof.
  revert s. induction a as [|x a IH]; intros s; simpl.
  - by destruct (lstm_seq p b s).
  - destruct (lstm_cell fw p x s) as [h s1]. rewrite IH.
    destruct (lstm_seq p a s1) as [hs s2]. simpl.
    by destruct (lstm_seq p b s2).
Qed.

Lemma predict_seq_Return (x : list nat) states (s0 : lstm_state fw)
    (temperature : Qc) :
  Forall (λ i, i < num_embeddings m) x → x ≠ [] →
  (states = None ∧ s0 = zero_state fw (weights m)) ∨ states = Some [s0] →
  LstmLM_predict m (T1 x) states temperature
  = Return
      (T1 ((λ h : list Qc,
              float_softmax fw ((λ v, float_div v temperature)
                                  <$> linear fw (weights m) h))
           <$> (lstm_seq (weights m) (embedding_row fw (weights m) <$> x)
                         s0).1),
       [(lstm_seq (weights m) (embedding_row fw (weights m) <$> x) s0).2]).
Proof.
  intros Hall Hne Hs. rewrite LstmLM_predict_outputs. unfold embedding, tmapM.
  rewrite (proj2 (embedding_row_Return m x _) (conj Hall eq_refl)).
  rewrite !bind_Return_l. unfold lstm. rewrite no_step_fmap.
  destruct x as [|i x]; [done|]. cbn [no_step].
  assert (match states with
          | None => Return (zero_state fw (weights m))
          | Some [s] => Return s
          | Some _ => Raise RuntimeError
          end = Return s0) as ->.
  { by destruct Hs as [[-> ->]| ->]. }
  rewrite bind_Return_l. destruct (lstm_seq _ _ _) as [hs s].
  by rewrite bind_Return_l.
Qed.

(** The recurrent layer refuses a chunk without a token. *)
Lemma predict_empty_Raise states (temperature : Qc) :
  LstmLM_predict m (T1 []) states temperature = Raise RuntimeError.
Proof. done. Qed.

Lemma predict_chunks_Return (x1 x2 : list nat) states (temperature : Qc) :
  Forall (λ i, i < num_embeddings m) (x1 ++ x2) → x1 ≠ [] → x2 ≠ [] →
  states = None ∨ (∃ s, states = Some [s]) →
  ∃ o1 s1 o2 s2,
    LstmLM_predict m (T1 x1) states temperature = Return (T1 o1, [s1])
    ∧ LstmLM_predict m (T1 x2) (Some [s1]) temperature = Return (T1 o2, [s2])
    ∧ LstmLM_predict m (T1 (x1 ++ x2)) states temperature
      = Return (T1 (o1 ++ o2), [s2]).
Proof.
  intros Hall Hne1 Hne2 Hs. pose proof Hall as [H1 H2]%Forall_app.
  assert (∃ s0, (states = None ∧ s0 = zero_state fw (weights m))
                ∨ states = Some [s0]) as [s0 Hs0].
  { destruct Hs as [->|[s ->]]; eexists; [by left | by right]. }
  eexists _, _, _, _. split_and!.
  - by apply predict_seq_Return.
  - apply predict_seq_Return; [done | done | by right].
  - rewrite (predict_seq_Return _ _ s0); [|done|by destruct x1|done].
    rewrite fmap_app, lstm_seq_app. simpl. by rewrite fmap_app.
Qed.

(** X9: reading a sequence in two parts.  For token indices inside the
    embedding table, feeding [predict] a sequence in two calls, neither
    with an empty part, the second call with the state the first returned,
    gives the outputs and the final state of feeding it in one call.  This
    is what lets the sampler feed only the newest token at every step.  A
    part without a token is refused with [RuntimeError]. *)
Theorem predict_chunks (x1 x2 : list nat)
    (states : option (list (lstm_state fw))) (temperature : Qc) :
  Forall (λ i, i < num_embeddings m) (x1 ++ x2) → x1 ≠ [] → x2 ≠ [] →
  states = None ∨ (∃ s, states = Some [s]) →
  (∃ o1 s1 o2 s2,
     LstmLM_predict m (T1 x1) states temperature = Return (T1 o1, [s1])
     ∧ LstmLM_predict m (T1 x2) (Some [s1]) temperature
       = Return (T1 o2, [s2])
     ∧ LstmLM_predict m (T1 (x1 ++ x2)) states temperature
       = Return (T1 (o1 ++ o2), [s2]))
  ∧ LstmLM_predict m (T1 []) states temperature = Raise RuntimeError.
Proof.
  intros Hall Hne1 Hne2 Hs.
  split; [by apply predict_chunks_Return | apply predict_empty_Raise].
Qed.

End Chunks.

Lemma predict_chunks_witness :
  (∃ o1 s1 o2 s2,
     LstmLM_predict (model toy_trainer) (T1 [0; 1]) None 1
       = Return (T1 o1, [s1])
     ∧ LstmLM_predict (model toy_trainer) (T1 [2]) (Some [s1]) 1
       = Return (T1 o2, [s2])
     ∧ LstmLM_predict (model toy_trainer) (T1 ([0; 1] ++ [2])) None 1
       = Return (T1 (o1 ++ o2), [s2]))
  ∧ LstmLM_predict (model toy_trainer) (T1 []) None 1 = Raise RuntimeError.
Proof.
  apply (predict_chunks (model toy_trainer) [0; 1] [2] None 1).
  - vm_compute. repeat constructor.
  - done.
  - done.
  - by left.
Defined.

(** ** What an epoch and a validation pass leave behind *)

(** The shapes of the parameters of a trainer's model. *)
Definition model_shapes {fw : Framework} (t : Trainer fw) : dims :=
  params_dims fw (weights (model t)).

Section EpochEffects.
Context {fw : Framework} (laws : FrameworkLaws fw).

Lemma train_loop_shapes batches losses (t : Trainer fw) w r t' w' :
  foldM train_step losses batches (t, w) = Return (r, (t', w')) →
  same_setup t t' ∧ model_shapes t' = model_shapes t ∧ w' = w.
Proof.
  revert losses t. induction batches as [|b batches IH]; intros losses t.
  - intros [= <- <- <-]. split; [apply same_setup_refl | done].
  - rewrite foldM_cons.
    intros (l1 & s1 & Hstep & Hrest)%prog_bind_Return.
    apply train_step_Return in Hstep as (loss & t1 & -> & -> & Hs1 & Hw).
    apply IH in Hrest as (Hs2 & Hm & ->).
    split; [by eapply same_setup_trans|]. split; [|done].
    rewrite Hm. unfold model_shapes. rewrite Hw.
    apply (optimizer_step_dims fw laws).
Qed.

(** A training step leaves the mode of the model as it is. *)
Lemma train_step_mode losses batch (t : Trainer fw) w r t' w' :
  train_step losses batch (t, w) = Return (r, (t', w')) →
  training (model t') = training (model t).
Proof.
  destruct batch as [tokens target]. unfold train_step.
  intros (t0 & s0 & [= <- <-] & Hrest)%prog_bind_Return.
  apply prog_bind_Return in Hrest as (output & s1 & [Hf ->]%lift_Return & Hrest).
  apply prog_bind_Return in Hrest as (bl & s2 & [Hl ->]%lift_Return & Hrest).
  simpl in Hrest. destruct (optimizer_step fw _ _ tokens target) as [o p].
  apply prog_bind_Return in Hrest as ([] & s3 & [= <-] & [= _ <- _]).
  done.
Qed.

Lemma train_loop_mode batches losses (t : Trainer fw) w r t' w' :
  foldM train_step losses batches (t, w) = Return (r, (t', w')) →
  training (model t') = training (model t).
Proof.
  revert losses t w. induction batches as [|b batches IH]; intros losses t w.
  - by intros [= <- <- <-].
  - rewrite foldM_cons.
    intros (l1 & [t1 w1] & Hstep & Hrest)%prog_bind_Return.
    apply train_step_mode in Hstep. apply IH in Hrest. congruence.
Qed.

Lemma Trainer_train_epoch_effects (t : Trainer fw) w losses t' w' :
  Trainer_train_epoch (t, w) = Return (losses, (t', w')) →
  same_setup t t' ∧ model_shapes t' = model_shapes t
  ∧ training (model t') = true
  ∧ w' = mkWorld (randperm fw (LMDataset_len
                                 (dl_dataset (train_loader (datasets t))))
                          (gen w)).2
                 (files w) (written w).
Proof.
  rewrite Trainer_train_epoch_eq.
  intros (batches & s1 & Hit & Hrest)%prog_bind_Return.
  apply on_snd_Return in Hit as (w0 & Hit & ->). simpl in Hit.
  apply DataLoader_iter_Return in Hit as (ex & _ & _ & _ & ->); [|done].
  pose proof (train_loop_mode _ _ _ _ _ _ _ Hrest) as Hmode.
  apply train_loop_shapes in Hrest as (Hs & Hm & ->).
  split; [|done].
  eapply same_setup_trans; [apply (same_setup_set_mode t true) | exact Hs].
Qed.


Lemma Trainer_validate_effects (t : Trainer fw) w r s' :
  Trainer_validate (t, w) = Return (r, s') →
  s' = (Trainer_eval t,
        mkWorld (randperm fw (LMDataset_len
                                (dl_dataset (val_loader (datasets t))))
                         (gen w)).2
                (files w) (written w)).
Proof.
  rewrite Trainer_validate_eq.
  intros (batches & s2 & Hit & Hrest)%prog_bind_Return.
  apply on_snd_Return in Hit as (w0 & Hit & ->). simpl in Hit.
  apply prog_bind_Return in Hrest as (acc & s3 & [Hacc ->]%lift_Return & Hrest).
  apply prog_bind_Return in Hrest as (l & s4 & [Hl ->]%lift_Return & Hrest).
  apply prog_bind_Return in Hrest as (a & s5 & [Ha ->]%lift_Return & Hrest).
  injection Hrest as <- <-.
  apply DataLoader_iter_Return in Hit as (ex & _ & _ & _ & ->); [|done].
  done.
Qed.

(** A trainer whose model is in evaluation mode is what [eval()] leaves. *)
Lemma Trainer_eval_id (t : Trainer fw) :
  training (model t) = false → Trainer_eval t = t.
Proof.
  destruct t as [ds [nc ne ed hs tr ws] o lf rp df]. simpl. by intros ->.
Qed.

(** X11: what [validate] changes.  A validation pass that returns has put
    the model in evaluation mode and changed nothing else in the trainer:
    the parameters, the optimiser, the datasets and the log are as they
    were, and a trainer whose model was in evaluation mode already is
    unchanged.  No file is written, and the generator has advanced by the
    one shuffle of the validation loader.  The mode has no part in the
    result: validating again from the same generator returns the same
    loss and accuracy. *)
Theorem validate_reads_only (t : Trainer fw) w r t' w' :
  Trainer_validate (t, w) = Return (r, (t', w')) →
  t' = Trainer_set_model t (LstmLM_eval (model t))
  ∧ training (model t') = false
  ∧ weights (model t') = weights (model t)
  ∧ (training (model t) = false → t' = t)
  ∧ files w' = files w ∧ written w' = written w
  ∧ gen w' = (randperm fw (LMDataset_len
                             (dl_dataset (val_loader (datasets t))))
                      (gen w)).2
  ∧ Trainer_validate (t', w) = Return (r, (t', w')).
Proof.
  intros Hv. pose proof Hv as [= -> ->]%Trainer_validate_effects.
  split_and!; try done. apply Trainer_eval_id.
Qed.

End EpochEffects.


Lemma validate_reads_only_witness :
  ∃ r t' w',
    Trainer_validate (toy_trainer, toy_world) = Return (r, (t', w'))
    ∧ training (model toy_trainer) = true
    ∧ training (model t') = false
    ∧ weights (model t') = weights (model toy_trainer)
    ∧ files w' = files toy_world
    ∧ Trainer_validate (t', toy_world) = Return (r, (t', w')).
Proof.
  destruct (Trainer_validate_total toy_laws toy_trainer toy_world
              toy_trainer_ok) as (loss & accuracy & w' & Hv); [by vm_compute|].
  destruct (validate_reads_only toy_laws toy_trainer toy_world _ _ w' Hv)
    as (_ & Hmode & Hw & _ & Hf & _ & _ & Hagain).
  exists (loss, accuracy), (Trainer_eval toy_trainer), w'.
  split; [exact Hv|]. split; [reflexivity|].
  split; [exact Hmode|]. split; [exact Hw|]. split; [exact Hf | exact Hagain].
Defined.

(** ** The artifacts of a run *)

Section Artifacts.
Context {fw : Framework} (laws : FrameworkLaws fw).
Context (text : list N).

Lemma save_model_files (t : Trainer fw) (w : world fw) u s' :
  Trainer_save_model text (t, w) = Return (u, s') →
  s'.1 = t ∧ gen s'.2 = gen w
  ∧ files s'.2 !! path_join (results_path t) "model.pth"
    = Some (StateDict (weights (model t)))
  ∧ files s'.2 !! path_join (results_path t) "vocab.json"
    = Some (Json (vocab text))
  ∧ is_dir (files s'.2) (results_path t) = true
  ∧ (∀ path, path ≠ path_join (results_path t) "model.pth" →
             path ≠ path_join (results_path t) "vocab.json" →
             path ≠ results_path t →
             files s'.2 !! path = files w !! path)
  ∧ written s'.2 = written w ++ [path_join (results_path t) "model.pth";
                                  path_join (results_path t) "vocab.json"].
Proof.
  intros (_ & _ & _ & _ & ->)%Trainer_save_model_Return. simpl.
  unfold files_saved. split_and!; try done.
  - rewrite lookup_insert_ne; [apply lookup_insert_eq|].
    by intros ?%path_join_inj.
  - apply lookup_insert_eq.
  - rewrite !is_dir_insert by (apply not_eq_sym, path_join_ne).
    apply is_dir_files_mkdir.
  - intros path H1 H2 H3. rewrite !lookup_insert_ne by done.
    by apply files_mkdir_lookup_ne.
  - by rewrite <- app_assoc.
Qed.

(** After [save_model] has returned it can run again. *)
Lemma can_save_model_saved (t : Trainer fw) (w : world fw) :
  is_dir (files w) (parent (results_path t)) = true →
  can_save_model
    (mkWorld (gen w) (files_saved text t (files w))
       ((written w ++ [path_join (results_path t) "model.pth"])
        ++ [path_join (results_path t) "vocab.json"]))
    (results_path t).
Proof.
  intros Hpar. unfold can_save_model, files_saved. simpl.
  assert (is_dir (files_mkdir (files w) (results_path t)) (results_path t)
          = true) as Hdir by apply is_dir_files_mkdir.
  split_and!.
  - destruct (decide (parent (results_path t) = results_path t)) as [->|Hne].
    + rewrite !is_dir_insert by (apply not_eq_sym, path_join_ne). done.
    + rewrite !is_dir_insert.
      * by rewrite is_dir_files_mkdir_ne.
      * intros H%(f_equal length). unfold parent, path_join in H.
        rewrite length_take, length_app in H. simpl in H. lia.
      * intros H%(f_equal length). unfold parent, path_join in H.
        rewrite length_take, length_app in H. simpl in H. lia.
  - left. by rewrite !is_dir_insert by (apply not_eq_sym, path_join_ne).
  - rewrite is_dir_insert by (by intros ?%path_join_inj).
    apply is_dir_false. split; [apply path_join_not_nil|].
    by rewrite lookup_insert_eq.
  - apply is_dir_false. split; [apply path_join_not_nil|].
    by rewrite lookup_insert_eq.
Qed.

(** X12: what [save_model] writes.  It makes the results directory if it
    is not there, writes the parameters of the model to [model.pth] and
    then the module-level vocabulary to [vocab.json], both in that
    directory, and touches nothing else in the file system, the trainer or
    the generator; saving again returns and changes no file. *)
Theorem save_model_effects (t : Trainer fw) (w : world fw) u s' :
  Trainer_save_model text (t, w) = Return (u, s') →
  s'.1 = t ∧ gen s'.2 = gen w
  ∧ files s'.2 !! path_join (results_path t) "model.pth"
    = Some (StateDict (weights (model t)))
  ∧ files s'.2 !! path_join (results_path t) "vocab.json"
    = Some (Json (vocab text))
  ∧ is_dir (files s'.2) (results_path t) = true
  ∧ (∀ path, path ≠ path_join (results_path t) "model.pth" →
             path ≠ path_join (results_path t) "vocab.json" →
             path ≠ results_path t →
             files s'.2 !! path = files w !! path)
  ∧ written s'.2 = written w ++ [path_join (results_path t) "model.pth";
                                  path_join (results_path t) "vocab.json"]
  ∧ ∃ s'', Trainer_save_model text s' = Return (tt, s'')
           ∧ files s''.2 = files s'.2.
Proof.
  intros Hs.
  pose proof (save_model_files t w u s' Hs)
    as (H1 & H2 & H3 & H4 & H5 & H6 & H7).
  split_and!; try done.
  apply Trainer_save_model_Return in Hs as (Hpar & _ & _ & _ & ->).
  eexists. split.
  { apply Trainer_save_model_total. by apply can_save_model_saved. }
  simpl in *. apply map_eq. intros path. unfold files_saved at 1.
  destruct (decide (path = path_join (results_path t) "vocab.json"))
    as [->|Hn2]; [by rewrite lookup_insert_eq, H4|].
  rewrite lookup_insert_ne by done.
  destruct (decide (path = path_join (results_path t) "model.pth"))
    as [->|Hn1]; [by rewrite lookup_insert_eq, H3|].
  rewrite lookup_insert_ne by done.
  unfold files_mkdir. by rewrite H5.
Qed.

Lemma train_loop_setup n k vars (t : Trainer fw) w vars' t' w' :
  foldM train_body vars (seq k n) (t, w) = Return (vars', (t', w')) →
  same_setup t t' ∧ model_shapes t' = model_shapes t ∧ files w' = files w
  ∧ (training (model t) = false → training (model t') = false).
Proof.
  revert k vars t w. induction n as [|n IH]; intros k vars t w.
  - intros [= <- <- <-]. split; [apply same_setup_refl | done].
  - cbn [seq]. rewrite foldM_cons.
    intros (vars1 & [t1 w1] & Hbody & Hrest)%prog_bind_Return.
    apply train_body_Return in Hbody
      as (losses & [t0 w0] & v & a & Hte & Hv & _).
    apply (Trainer_train_epoch_effects laws) in Hte as (Hs0 & Hm0 & _ & ->).
    apply (Trainer_validate_effects laws) in Hv as [= -> ->].
    apply IH in Hrest as (Hs & Hm & Hf & Hmode). simpl in Hf.
    split; [|split; [|split]].
    + eapply same_setup_trans; [exact Hs0|].
      eapply same_setup_trans; [apply (same_setup_set_mode t0 false)|done].
    + rewrite Hm. exact Hm0.
    + done.
    + intros _. by apply Hmode.
Qed.

Lemma Trainer_train_total num_epoch (t : Trainer fw) w :
  trainer_ok t → val_data t ≠ mkLMDataset [] [] →
  can_save w (results_path t) →
  ∃ t' w', Trainer_train text num_epoch (t, w) = Return (tt, (t', w')).
Proof.
  intros Hok Hne Hcan.
  destruct (Trainer_validate_total laws t w Hok Hne) as (v0 & a0 & w0 & Hv).
  pose proof Hv as [= Hw0]%(Trainer_validate_effects laws).
  destruct (foldM_invariant
              (λ s : run fw, trainer_ok s.1 ∧ same_setup t s.1)
              train_body (seq 0 num_epoch) (v0, a0, [val_row v0 a0])
              (Trainer_eval t, w0))
    as (vars & [t1 w1] & Hloop & _).
  - intros acc e [t2 w2] _ [Hok2 Hs2]. simpl in *.
    destruct (Trainer_train_epoch_total laws t2 w2 Hok2)
      as (losses & t3 & w3 & Hte & Hok3 & Hs3).
    destruct (Trainer_validate_total laws t3 w3 Hok3)
      as (v & a & w4 & Hv3).
    { destruct Hs2 as (E2 & _), Hs3 as (E3 & _).
      unfold val_data in *. by rewrite E3, E2. }
    eexists _, (Trainer_eval t3, w4). split.
    { apply train_body_Return. by exists losses, (t3, w3), v, a. }
    simpl. split; [by apply trainer_ok_set_mode|].
    eapply same_setup_trans; [exact Hs2|].
    eapply same_setup_trans; [exact Hs3|].
    apply (same_setup_set_mode t3 false).
  - simpl. split; [by apply trainer_ok_set_mode|].
    apply (same_setup_set_mode t false).
  - pose proof Hloop as (Hs1 & _ & Hf1 & _)%train_loop_setup.
    destruct (Trainer_train_of_loop text num_epoch t w _ _ _ _ _ _ Hv Hloop)
      as [[t' w'] Hs].
    { destruct Hs1 as (_ & _ & Hpath & _). simpl in Hpath.
      unfold can_save. rewrite Hpath, Hf1, Hw0. done. }
    by exists t', w'.
Qed.

Lemma Trainer_train_artifacts num_epoch (t : Trainer fw) w t' w' :
  Trainer_train text num_epoch (t, w) = Return (tt, (t', w')) →
  same_setup t (mkTrainer (datasets t') (model t') (optimizer t') (loss_fn t')
                          (results_path t') (train_df t))
  ∧ model_shapes t' = model_shapes t
  ∧ training (model t') = false
  ∧ files w' !! path_join (results_path t) "model.pth"
    = Some (StateDict (weights (model t')))
  ∧ files w' !! path_join (results_path t) "vocab.json"
    = Some (Json (vocab text))
  ∧ is_dir (files w') (results_path t) = true
  ∧ (∀ path, path ∉ artifacts (results_path t) → path ≠ results_path t →
             files w' !! path = files w !! path).
Proof.
  intros Ht. apply (Trainer_train_Return laws) in Ht
    as (v0 & a0 & w0 & vars & t1 & w1 & _ & Hf0 & _ & Hloop & _ & [= -> ->]).
  apply train_loop_setup in Hloop as (Hs & Hm & Hf1 & Hmode).
  pose proof Hs as (Hd & Hl & Hr & Hdf & Hdims). simpl in Hr. simpl.
  unfold files_trained, files_saved. rewrite Hr.
  split_and!.
  - eapply same_setup_trans; [apply (same_setup_set_mode t false)|].
    by destruct Hs as (? & ? & ? & ? & ?).
  - done.
  - by apply Hmode.
  - rewrite !lookup_insert_ne by (by intros ?%path_join_inj).
    apply lookup_insert_eq.
  - rewrite lookup_insert_ne by (by intros ?%path_join_inj).
    apply lookup_insert_eq.
  - rewrite !is_dir_insert by (apply not_eq_sym, path_join_ne).
    apply is_dir_files_mkdir.
  - intros path Hp Hnd. unfold artifacts in Hp.
    rewrite !not_elem_of_cons in Hp. destruct Hp as (H1 & H2 & H3 & _).
    rewrite !lookup_insert_ne by done.
    rewrite files_mkdir_lookup_ne by done. by rewrite Hf1, Hf0.
Qed.

(** X13: a run of [train] saves the model it ends with.  When [train]
    returns, the results directory is there, [model.pth] holds the
    parameters of the model after the last epoch and [vocab.json] the
    module-level vocabulary; nothing other than that directory and the
    three artifacts has changed in the file system; the trainer still has
    its datasets, loss function and results path, the model its sizes, and
    the model is left in evaluation mode.  When the model was built as
    [train()] builds it (as many classes and embeddings as the vocabulary
    has characters, embedding dimension and hidden size 50), a [Predictor]
    created from the results path right after the run loads the parameters
    of that final model into a model of the same sizes. *)
Theorem train_saves_final_model num_epoch (t : Trainer fw) w t' w' :
  Trainer_train text num_epoch (t, w) = Return (tt, (t', w')) →
  files w' !! path_join (results_path t) "model.pth"
    = Some (StateDict (weights (model t')))
  ∧ files w' !! path_join (results_path t) "vocab.json"
    = Some (Json (vocab text))
  ∧ is_dir (files w') (results_path t) = true
  ∧ (∀ path, path ∉ artifacts (results_path t) → path ≠ results_path t →
             files w' !! path = files w !! path)
  ∧ datasets t' = datasets t ∧ loss_fn t' = loss_fn t
  ∧ results_path t' = results_path t
  ∧ LstmLM_dims (model t') = LstmLM_dims (model t)
  ∧ training (model t') = false
  ∧ (LstmLM_dims (model t)
       = mkDims (vocab_size text) (vocab_size text) 50 50 →
     params_dims fw (weights (model t)) = LstmLM_dims (model t) →
     ∃ w'', Predictor_init (results_path t') w'
            = Return (mkPredictor (LstmLM_train (model t')), w'')).
Proof.
  intros (Hs & Hm & Hmode & Hmodel & Hvocab & Hdir & Hother)
    %Trainer_train_artifacts.
  destruct Hs as (Hd & Hl & Hr & _ & Hdims). simpl in *.
  split_and!; try done.
  intros Hsize Hshape. rewrite Hr.
  rewrite (Predictor_init_saved text _ _ _ Hvocab Hmodel).
  destruct (decide _) as [_|Hne].
  - eexists. f_equal. f_equal. f_equal.
    destruct (model t') as [nc ne ed hs tr ws]. unfold LstmLM_dims in *.
    simpl in *. rewrite Hsize in Hdims. by injection Hdims as -> -> -> ->.
  - exfalso. apply Hne. unfold model_shapes in Hm. by rewrite Hm, Hshape.
Qed.

End Artifacts.

Lemma save_model_effects_witness :
  ∃ s',
    Trainer_save_model toy_corpus (toy_trainer, toy_world) = Return (tt, s')
    ∧ s'.1 = toy_trainer ∧ gen s'.2 = gen toy_world
    ∧ files s'.2 !! path_join (results_path toy_trainer) "model.pth"
      = Some (StateDict (weights (model toy_trainer)))
    ∧ files s'.2 !! path_join (results_path toy_trainer) "vocab.json"
      = Some (Json (vocab toy_corpus))
    ∧ is_dir (files s'.2) (results_path toy_trainer) = true
    ∧ (∀ path, path ≠ path_join (results_path toy_trainer) "model.pth" →
               path ≠ path_join (results_path toy_trainer) "vocab.json" →
               path ≠ results_path toy_trainer →
               files s'.2 !! path = files toy_world !! path)
    ∧ written s'.2
      = written toy_world ++ [path_join (results_path toy_trainer) "model.pth";
                              path_join (results_path toy_trainer) "vocab.json"]
    ∧ ∃ s'', Trainer_save_model toy_corpus s' = Return (tt, s'')
             ∧ files s''.2 = files s'.2.
Proof.
  pose proof (Trainer_save_model_total toy_corpus toy_trainer toy_world
                (can_save_can_save_model _ _ toy_world_can_save)) as Hs.
  eexists. split; [exact Hs|].
  exact (save_model_effects toy_corpus toy_trainer toy_world tt _ Hs).
Defined.

Lemma train_saves_final_model_witness :
  ∃ t' w',
    Trainer_train toy_corpus 2 (toy_trainer, toy_world) = Return (tt, (t', w'))
    ∧ files w' !! path_join (results_path toy_trainer) "model.pth"
      = Some (StateDict (weights (model t')))
    ∧ ∃ w'', Predictor_init (results_path t') w'
             = Return (mkPredictor (LstmLM_train (model t')), w'').
Proof.
  destruct (Trainer_train_total toy_laws toy_corpus 2 toy_trainer toy_world
              toy_trainer_ok) as (t' & w' & Ht);
    [by vm_compute | exact toy_world_can_save |].
  exists t', w'. split; [exact Ht|].
  destruct (train_saves_final_model toy_laws toy_corpus 2 toy_trainer
              toy_world t' w' Ht)
    as (Hm & _ & _ & _ & _ & _ & _ & _ & _ & Hp).
  split; [exact Hm|]. apply Hp; by vm_compute.
Defined.

(** ** Creating a predictor *)

Section PredictorInit.
Context {fw : Framework}.






End PredictorInit.


(** ** What generation returns *)

Section Generation.
Context {fw : Framework}.
Context (text : list N) (p : Predictor fw) (temperature : Qc).

Lemma sample_last_files output (w w' : world fw) idx :
  sample_last output w = Return (idx, w') →
  files w' = files w ∧ written w' = written w.
Proof.
  unfold sample_last.
  intros (rows & w1 & [_ ->]%lift_Return & Hd)%prog_bind_Return.
  destruct rows as [|d [|d' rows]]; [done| |done].
  unfold multinomial_1 in Hd. destruct (finite_row d) as [probs|]; [|done].
  unfold draw in Hd. destruct (multinomial fw probs (gen w)) as [i g].
  by injection Hd as <- <-.
Qed.

Lemma predict_loop_extends l s (w : world fw) s' w' :
  foldM (step_with text p temperature) s l w = Return (s', w') →
  ∃ rest, s_generated s' = s_generated s ++ rest
          ∧ length rest = length l
          ∧ Forall (λ c, c ∈ vocab text) rest
          ∧ files w' = files w ∧ written w' = written w.
Proof.
  revert s w. induction l as [|k l IH]; intros s w.
  - intros [= <- <-]. exists []. by rewrite app_nil_r.
  - rewrite foldM_cons.
    intros (s1 & w1 & Hstep & Hrest)%prog_bind_Return.
    apply step_with_Return in Hstep
      as (output & states & idx & c & _ & Hs & Hc & ->).
    apply sample_last_files in Hs as [Hf Hw].
    apply IH in Hrest as (rest & Hg & Hlen & Hall & Hf' & Hw').
    simpl in Hg. exists (c :: rest).
    split; [by rewrite Hg, <- app_assoc|]. split; [simpl; lia|].
    split; [|by rewrite Hf', Hw'].
    constructor; [|done]. unfold list_getitem in Hc.
    destruct (vocab text !! idx) as [c'|] eqn:Hi; [|done].
    injection Hc as ->. by eapply list_elem_of_lookup_2.
Qed.

Lemma predict_with_Return seed n (w : world fw) g w' :
  predict_with text p seed n temperature w = Return (g, w') ↔
  ∃ tokens s,
    comprehension (getitem (char2idx text)) seed = Return tokens
    ∧ foldM (step_with text p temperature)
            (mkSession (T1 tokens) None []) (seq 0 n) w = Return (s, w')
    ∧ g = s_generated s.
Proof.
  unfold predict_with. rewrite prog_bind_Return. split.
  - intros (tokens & w1 & [Ht ->]%lift_Return & Hrest).
    apply prog_bind_Return in Hrest as (s & w2 & Hloop & [= <- <-]).
    by exists tokens, s.
  - intros (tokens & s & Ht & Hloop & ->).
    exists tokens, w. split; [by apply lift_Return|].
    apply prog_bind_Return. by exists s, w'.
Qed.

Lemma predict_with_emits seed n (w : world fw) generated w' :
  predict_with text p seed n temperature w = Return (generated, w') →
  length generated = n
  ∧ Forall (λ c, c ∈ train_set text) generated
  ∧ Forall (λ c, c ∈ train_set text) seed
  ∧ files w' = files w ∧ written w' = written w.
Proof.
  intros (tokens & s & Ht & Hloop & ->)%predict_with_Return.
  apply predict_loop_extends in Hloop as (rest & -> & Hlen & Hall & Hf & Hw).
  simpl. rewrite length_seq in Hlen. split_and!; try done.
  - eapply Forall_impl; [exact Hall|]. intros c. by rewrite elem_of_vocab.
  - apply encode_Return in Ht. apply Forall_forall. intros c Hc.
    apply list_elem_of_lookup in Hc as [j Hj].
    destruct (Forall2_lookup_l _ _ _ _ _ Ht Hj) as (i & _ & Hi).
    apply char2idx_is_Some. by exists i.
Qed.

(** X15: what [predict] returns.  A call that returns gives exactly
    [max_length] characters, every one of them a character of the training
    split of the module-level corpus; every character of the seed is one
    too; no file is written, and the predictor is left with its model in
    evaluation mode and nothing else changed. *)
Theorem predict_emits_vocabulary (seed : list N) (max_length : nat)
    (w : world fw) (generated : list N) (p' : Predictor fw) (w' : world fw) :
  Predictor_predict text seed max_length temperature (p, w)
    = Return (generated, (p', w')) →
  length generated = max_length
  ∧ Forall (λ c, c ∈ train_set text) generated
  ∧ Forall (λ c, c ∈ train_set text) seed
  ∧ files w' = files w ∧ written w' = written w
  ∧ p' = mkPredictor (LstmLM_eval (p_model p)).
Proof.
  intros (w1 & Hp & [= -> ->])%Predictor_predict_Return_with.
  apply predict_with_emits in Hp as (? & ? & ? & ? & ?). by split_and!.
Qed.

Lemma predict_with_prefix seed n k (w : world fw) generated w2 :
  predict_with text p seed (n + k) temperature w = Return (generated, w2) →
  ∃ w1, predict_with text p seed n temperature w
        = Return (take n generated, w1).
Proof.
  intros (tokens & s & Ht & Hloop & ->)%predict_with_Return.
  rewrite seq_app, foldM_app in Hloop.
  apply prog_bind_Return in Hloop as (s1 & w1 & Hl1 & Hl2).
  exists w1. apply predict_with_Return. exists tokens, s1.
  split; [done|]. split; [done|].
  apply predict_loop_extends in Hl1 as (r1 & Hg1 & Hlen1 & _).
  apply predict_loop_extends in Hl2 as (r2 & Hg2 & _).
  simpl in Hg1. rewrite length_seq in Hlen1.
  rewrite Hg2, Hg1. by apply take_app_length'.
Qed.

(** X16: a shorter generation is a prefix of a longer one.  From the same
    seed, temperature and generator, if [predict] returns for
    [max_length = n + k] then it returns for [max_length = n], with the
    first [n] characters of the longer result. *)
Theorem predict_prefix (seed : list N) (n k : nat) (w : world fw)
    (generated : list N) (s2 : Predictor fw * world fw) :
  Predictor_predict text seed (n + k) temperature (p, w)
    = Return (generated, s2) →
  ∃ s1, Predictor_predict text seed n temperature (p, w)
        = Return (take n generated, s1).
Proof.
  intros (w2 & Hp & ->)%Predictor_predict_Return_with.
  apply predict_with_prefix in Hp as [w1 Hp].
  eexists. apply Predictor_predict_Return_with. by exists w1.
Qed.

Lemma predict_zero_length seed (w : world fw) tokens :
  comprehension (getitem (char2idx text)) seed = Return tokens →
  predict_with text p seed 0 temperature w = Return ([], w).
Proof.
  intros Ht. apply predict_with_Return.
  by exists tokens, (mkSession (fw := fw) (T1 tokens) None []).
Qed.

Lemma predict_empty_seed n (w : world fw) :
  predict_with text p [] (S n) temperature w = Raise RuntimeError.
Proof. done. Qed.

(** X17: the two edge cases of [predict].  With [max_length = 0] it
    returns the empty string for every seed whose characters are in the
    vocabulary, without consulting the model or the generator, and still
    raises [KeyError] for a seed with an unknown character.  With the
    empty seed and [max_length >= 1] it never returns, whatever the
    model: the recurrent layer refuses the empty sequence. *)
Theorem predict_edge_cases (seed : list N) (w : world fw) :
  ((∀ c, c ∈ seed → c ∈ vocab text) →
   Predictor_predict text seed 0 temperature (p, w)
   = Return ([], (mkPredictor (LstmLM_eval (p_model p)), w)))
  ∧ (∀ c, c ∈ seed → c ∉ vocab text →
     ∃ c', Predictor_predict text seed 0 temperature (p, w)
           = Raise (KeyError c'))
  ∧ (∀ n, Predictor_predict text [] (S n) temperature (p, w)
          = Raise RuntimeError).
Proof.
  split_and!.
  - intros Hknown. apply Predictor_predict_Return_with. exists w.
    split; [|done].
    destruct (encode_cases (char2idx text) seed)
      as [[tokens Ht]|(c' & Hin & Hn%char2idx_None & _)];
      [by eapply predict_zero_length | by specialize (Hknown c' Hin)].
  - intros c Hin Hn%char2idx_None.
    destruct (encode_cases (char2idx text) seed)
      as [[tokens Ht]|(c' & _ & _ & Hr)].
    + apply encode_Return in Ht.
      apply list_elem_of_lookup in Hin as [j Hj].
      destruct (Forall2_lookup_l _ _ _ _ _ Ht Hj) as (i & _ & Hi). congruence.
    + exists c'. apply Predictor_predict_Raise_with.
      unfold predict_with, mbind, prog_bind, lift.
      by rewrite Hr.
  - intros n. apply Predictor_predict_Raise_with, predict_empty_seed.
Qed.

End Generation.

Lemma predict_emits_vocabulary_witness :
  ∃ generated p' w',
    Predictor_predict toy_corpus (text_of "a") 5 (Q2Qc (1 # 2))
      (toy_predictor, toy_world) = Return (generated, (p', w'))
    ∧ length generated = 5
    ∧ Forall (λ c, c ∈ train_set toy_corpus) generated
    ∧ Forall (λ c, c ∈ train_set toy_corpus) (text_of "a")
    ∧ files w' = files toy_world ∧ written w' = written toy_world
    ∧ p' = mkPredictor (LstmLM_eval (p_model toy_predictor)).
Proof.
  eexists _, _, _. split; [vm_compute; reflexivity|].
  apply (predict_emits_vocabulary toy_corpus toy_predictor (Q2Qc (1 # 2))
           (text_of "a") 5 toy_world).
  vm_compute. reflexivity.
Defined.

Lemma predict_prefix_witness :
  ∃ s1, Predictor_predict toy_corpus (text_of "a") 2 (Q2Qc (1 # 2))
          (toy_predictor, toy_world)
        = Return (take 2 (text_of "bcabc"), s1).
Proof.
  apply (predict_prefix toy_corpus toy_predictor (Q2Qc (1 # 2))
           (text_of "a") 2 3 toy_world (text_of "bcabc")
           (Predictor_eval toy_predictor, mkWorld (5 : rng toy) ∅ [])).
  vm_compute. reflexivity.
Defined.

Lemma predict_edge_cases_witness :
  Predictor_predict toy_corpus (text_of "abc") 0 1%Qc
    (toy_predictor, toy_world)
    = Return ([], (mkPredictor (LstmLM_eval (p_model toy_predictor)),
                   toy_world))
  ∧ ∃ c', Predictor_predict toy_corpus (text_of "abx") 0 1%Qc
            (toy_predictor, toy_world) = Raise (KeyError c').
Proof.
  assert (vocab toy_corpus = text_of "abc") as Hv by (by vm_compute).
  split.
  - apply (proj1 (predict_edge_cases toy_corpus toy_predictor 1%Qc
                    (text_of "abc") toy_world)).
    intros c Hc. by rewrite Hv.
  - apply (proj1 (proj2 (predict_edge_cases toy_corpus toy_predictor 1%Qc
                           (text_of "abx") toy_world)) 120%N).
    + apply list_elem_of_lookup. by exists 2.
    + rewrite Hv. intros Hc. apply list_elem_of_lookup in Hc as [j Hj].
      destruct j as [|[|[|j]]]; by vm_compute in Hj.
Defined.

(** ** The mask and the vocabulary *)

Section MaskedCharacter.
Context (text : list N).

(** A character other than the first of the vocabulary. *)
Definition counted (c : N) : Prop := vocab text !! 0 ≠ Some c.

#[local] Instance counted_dec c : Decision (counted c).
Proof. unfold counted. apply _. Defined.

Lemma char2idx_pos c i :
  char2idx text !! c = Some i → 0 < i ↔ counted c.
Proof.
  intros Hi%char2idx_lookup. unfold counted. split.
  - intros Hpos H0.
    pose proof (NoDup_lookup _ _ _ _ (vocab_NoDup text) Hi H0). lia.
  - intros Hn. destruct i; [done | lia].
Qed.

Lemma encodes_valid txt x :
  encodes (char2idx text) txt x →
  length (filter (λ i, 0 < i) x) = length (filter counted txt).
Proof.
  induction 1 as [|c i txt x Hc _ IH]; [done|].
  apply char2idx_pos in Hc.
  destruct (decide (0 < i)) as [Hi|Hi].
  - rewrite !filter_cons_True by (done || by apply Hc). simpl. by rewrite IH.
  - rewrite !filter_cons_False by (done || by rewrite <- Hc). done.
Qed.

(** X18: the first character of the vocabulary never counts.  The mask
    [tokens.gt(0)] leaves out index 0, and index 0 is the smallest character
    of the training split.  So the number of valid tokens of a dataset
    built with the module-level mapping is the number of characters, among
    those its inputs cover, that differ from that character; a token is
    valid exactly when its character does. *)
Theorem first_character_never_counts (dataset : list N) (max_length : nat)
    (d : LMDataset) :
  LMDataset_init (char2idx text) dataset max_length = Return d →
  valid_tokens (T2 (xs d))
  = length (filter counted (take (LMDataset_len d * max_length) dataset))
  ∧ ∀ c i, char2idx text !! c = Some i → (0 < i ↔ vocab text !! 0 ≠ Some c).
Proof.
  intros Hd. split; [|apply char2idx_pos].
  destruct (windows_tile _ _ _ _ Hd) as [Hx _].
  unfold valid_tokens. simpl. symmetry. by rewrite (encodes_valid _ _ Hx).
Qed.

End MaskedCharacter.

Lemma first_character_never_counts_witness :
  valid_tokens (T2 [[0; 1; 2]; [0; 1; 2]])
  = length (filter (counted toy_corpus) (take (2 * 3) (text_of "abcabcabc")))
  ∧ ∀ c i, char2idx toy_corpus !! c = Some i
           → (0 < i ↔ vocab toy_corpus !! 0 ≠ Some c).
Proof.
  apply (first_character_never_counts toy_corpus (text_of "abcabcabc") 3
           (mkLMDataset [[0; 1; 2]; [0; 1; 2]] [[1; 2; 0]; [1; 2; 0]])).
  by vm_compute.
Defined.

(** ** The loss of a training step *)

Section TrainStepLoss.
Context {fw : Framework}.

Lemma train_step_loss_Return losses tokens target (t : Trainer fw) w r s' :
  train_step losses (tokens, target) (t, w) = Return (r, s') →
  ∃ output ls,
    LstmLM_forward (model t) tokens = Return output
    ∧ loss_fn t output target = Return ls
    ∧ r = losses ++ [tensor_div (masked_sum ls tokens)
                                (Z.of_nat (valid_tokens tokens))].
Proof.
  unfold train_step.
  intros (t0 & s0 & [= <- <-] & Hrest)%prog_bind_Return.
  apply prog_bind_Return in Hrest as (output & s1 & [Hf ->]%lift_Return & Hrest).
  apply prog_bind_Return in Hrest as (bl & s2 & [Hl ->]%lift_Return & Hrest).
  simpl in Hrest. destruct (optimizer_step fw _ _ tokens target) as [o p].
  apply prog_bind_Return in Hrest as ([] & s3 & _ & [= <- _]).
  apply Trainer_loss_Return in Hl as (ls & Hls & _ & ->).
  exists output, ls. split; [done|]. split; [done|].
  by rewrite tcount_gt0.
Qed.

(** X19: the loss a training step logs.  For every batch, the logged loss
    is the sum of the per-position losses over the positions whose token
    index is greater than zero, divided by the number of those positions in
    that batch: a mean per batch, where [validate] divides once for the
    whole pass.  A batch with no such position logs a NaN, without an
    exception. *)
Theorem train_step_loss losses tokens target (t : Trainer fw) w r s' :
  train_step losses (tokens, target) (t, w) = Return (r, s') →
  ∃ output ls,
    LstmLM_forward (model t) tokens = Return output
    ∧ loss_fn t output target = Return ls
    ∧ r = losses ++ [tensor_div (masked_sum ls tokens)
                                (Z.of_nat (valid_tokens tokens))]
    ∧ (0 < valid_tokens tokens →
       r = losses ++ [Finite (masked_sum ls tokens
                              / Qc_of_Z (Z.of_nat (valid_tokens tokens)))])
    ∧ (valid_tokens tokens = 0 → r = losses ++ [NaN]).
Proof.
  intros (output & ls & Hf & Hl & ->)%train_step_loss_Return.
  exists output, ls. split_and!; try done.
  - intros Hpos. by rewrite tensor_div_pos by lia.
  - intros H0. by rewrite masked_sum_no_valid, H0.
Qed.

End TrainStepLoss.

Lemma train_step_loss_witness :
  ∃ r s' output ls,
    train_step [] (T2 [[0; 1; 2]], T2 [[1; 2; 0]]) (toy_trainer, toy_world)
      = Return (r, s')
    ∧ LstmLM_forward (model toy_trainer) (T2 [[0; 1; 2]]) = Return output
    ∧ loss_fn toy_trainer output (T2 [[1; 2; 0]]) = Return ls
    ∧ r = [] ++ [tensor_div (masked_sum ls (T2 [[0; 1; 2]]))
                            (Z.of_nat (valid_tokens (T2 [[0; 1; 2]])))].
Proof.
  destruct (train_step_total toy_laws [] [([0; 1; 2], [1; 2; 0])]
              toy_trainer toy_world toy_trainer_ok)
    as (r & t' & Hs & _).
  { constructor; [|constructor]. simpl.
    split_and!; [done| | |done]; repeat constructor; vm_compute; lia. }
  destruct (train_step_loss [] (T2 [[0; 1; 2]]) (T2 [[1; 2; 0]])
              toy_trainer toy_world r (t', toy_world) Hs)
    as (output & ls & Hf & Hl & Hr & _).
  by exists r, (t', toy_world), output, ls.
Defined.

(** ** From [train()] to [predict()] *)

Section TrainThenPredict.
Context {fw : Framework} (laws : FrameworkLaws fw).
Context (text : list N).









End TrainThenPredict.

